(** * Bitrix synchronisation ([plugins/bitrix/src/sync.ts])

    A shallow embedding of the synchronisation engine of the Bitrix plugin:
    the markup translator [processComment], the field diff of [updateDoc] and
    [updateMixin], the merge engine [syncDocument] and the orchestration loop
    [doPerformSync] / [performSynchronization].

    Strings are [string]; JavaScript values are the inductive [Value];
    documents are objects, i.e. ordered lists of (key, value) entries;
    asynchronous, effectful code lives in a small state-and-exception monad
    over an explicit [World]. *)

From Stdlib Require Import List String Ascii ZArith Bool Lia Arith DecimalString Permutation.
Import ListNotations.
Local Open Scope string_scope.

Set Implicit Arguments.

(* ================================================================= *)
(** ** Strings as JavaScript uses them *)

Module JsString.

Definition newline : ascii := "010"%char.
Definition dquote : string := String "034"%char EmptyString.

Definition startsWith (p s : string) : bool := String.prefix p s.

Fixpoint includes (p s : string) : bool :=
  String.prefix p s ||
  match s with
  | EmptyString => false
  | String _ rest => includes p rest
  end.

(** [s.substring(n)]: everything from index [n] on. *)
Fixpoint substring (n : nat) (s : string) : string :=
  match n, s with
  | O, _ => s
  | S _, EmptyString => EmptyString
  | S k, String _ rest => substring k rest
  end.

(** [s.replaceAll(c, by)] for a one-character pattern. *)
Fixpoint replaceAllChar (c : ascii) (by_ : string) (s : string) : string :=
  match s with
  | EmptyString => EmptyString
  | String a rest =>
      if Ascii.eqb a c then by_ ++ replaceAllChar c by_ rest
      else String a (replaceAllChar c by_ rest)
  end.

Fixpoint all_chars (p : ascii -> bool) (s : string) : bool :=
  match s with
  | EmptyString => true
  | String a rest => p a && all_chars p rest
  end.

(** A character is a UTF-16 code unit below 256.  The upper-case letters
    among them are A-Z and, in the upper half, 192-222 but for the
    multiplication sign (215); [toLowerCase] moves each 32 places up. *)
Definition lowerChar (c : ascii) : ascii :=
  let n := nat_of_ascii c in
  if (Nat.leb 65 n && Nat.leb n 90)
     || (Nat.leb 192 n && Nat.leb n 222 && negb (Nat.eqb n 215))
  then ascii_of_nat (n + 32) else c.

Fixpoint toLowerCase (s : string) : string :=
  match s with
  | EmptyString => EmptyString
  | String a rest => String (lowerChar a) (toLowerCase rest)
  end.

(** [s.replace(p, by)]: the first occurrence only. *)
Fixpoint replaceFirst (p by_ s : string) : string :=
  if String.prefix p s then by_ ++ substring (String.length p) s
  else match s with
       | EmptyString => EmptyString
       | String a rest => String a (replaceFirst p by_ rest)
       end.

(** What [trim] removes: tab to carriage return, the space and the
    no-break space. *)
Definition isSpace (c : ascii) : bool :=
  let n := nat_of_ascii c in
  Nat.eqb n 32 || (Nat.leb 9 n && Nat.leb n 13) || Nat.eqb n 160.

(** [s.trim().length > 0] *)
Definition hasText (s : string) : bool := negb (all_chars isSpace s).

Fixpoint lastChar (s : string) : ascii :=
  match s with
  | EmptyString => "000"%char
  | String c EmptyString => c
  | String _ rest => lastChar rest
  end.

Fixpoint trimStart (s : string) : string :=
  match s with
  | EmptyString => EmptyString
  | String c rest => if isSpace c then trimStart rest else s
  end.

Fixpoint trimEnd (s : string) : string :=
  match s with
  | EmptyString => EmptyString
  | String c rest => if all_chars isSpace s then EmptyString else String c (trimEnd rest)
  end.

(** [s.trim()] *)
Definition trim (s : string) : string := trimEnd (trimStart s).

Definition digitOf (c : ascii) : option Z :=
  let n := nat_of_ascii c in
  if Nat.leb 48 n && Nat.leb n 57 then Some (Z.of_nat (n - 48)) else None.

Fixpoint digitsFrom (acc : Z) (s : string) : option Z :=
  match s with
  | EmptyString => Some acc
  | String c rest =>
      match digitOf c with
      | Some d => digitsFrom (10 * acc + d) rest
      | None => None
      end
  end.

(** [Number(s)].  Numbers are whole numbers here: the text counts as the
    number it writes with digits, after an optional sign and with white
    space around it dropped; the empty text is 0; any other text is not a
    number ([None], for NaN). *)
Definition textNumber (s : string) : option Z :=
  match trim s with
  | EmptyString => Some 0%Z
  | String "+" (String _ _ as digits) => digitsFrom 0 digits
  | String "-" (String _ _ as digits) => option_map Z.opp (digitsFrom 0 digits)
  | digits => digitsFrom 0 digits
  end.

(** [xs.join(sep)] *)
Fixpoint join (sep : string) (xs : list string) : string :=
  match xs with
  | nil => EmptyString
  | cons x nil => x
  | cons x rest => x ++ sep ++ join sep rest
  end.

End JsString.

(* ================================================================= *)
(** ** The markup translator *)

Module Markup.
Import JsString.

Definition isBracket (c : ascii) : bool :=
  Ascii.eqb c "["%char || Ascii.eqb c "]"%char.

(** The longest prefix made of [[^[\]]] characters, and what follows it. *)
Fixpoint spanNoBracket (s : string) : string * string :=
  match s with
  | EmptyString => (EmptyString, EmptyString)
  | String c rest =>
      if isBracket c then (EmptyString, s)
      else let '(run, after) := spanNoBracket rest in (String c run, after)
  end.

(** One attempt of the regular expression [/\[(\/?[^[\]]+)]/] at the start
    of [s].  The optional slash is itself a non-bracket character, so the
    captured group is the maximal bracket-free run after the opening
    bracket; the attempt succeeds when that run is not empty and is
    followed by a closing bracket.  The result is the captured group. *)
Definition matchTag (s : string) : option string :=
  match s with
  | String "["%char rest =>
      match spanNoBracket rest with
      | (String c run, String "]"%char _) => Some (String c run)
      | _ => None
      end
  | _ => None
  end.

(** The replacement callback of [processComment]. *)
Definition tagReplacement (args : string) : string :=
  if startsWith "/URL" args then "</a>"
  else if startsWith "URL=" args then
    "<a href=" ++ dquote ++ substring 4 args ++ dquote ++ ">"
  else if includes "/FONT" args then "</span>"
  else if includes "FONT" args then
    "<span style=" ++ dquote ++ "font: " ++ substring 4 args ++ ";" ++ dquote ++ ">"
  else if includes "/SIZE" args then "</span>"
  else if includes "SIZE" args then
    "<span style=" ++ dquote ++ "font-size: " ++ substring 4 args ++ ";" ++ dquote ++ ">"
  else if includes "/COLOR" args then "</span>"
  else if includes "COLOR" args then
    "<span style=" ++ dquote ++ "color: " ++ substring 5 args ++ ";" ++ dquote ++ ">"
  else if includes "/IMG" args then dquote ++ "/>"
  else if includes "IMG" args then
    "<img " ++ substring 3 args ++ " src=" ++ dquote
  else if includes "/TABLE" args then "</table>"
  else if includes "TABLE" args then "<table>"
  else "<" ++ args ++ ">".

(** [comment.replaceAll(regex, callback)]: scan left to right; at a match
    emit the callback's result and resume after the match, otherwise copy
    one character.  [skip] counts the characters of the current match
    still to be passed over. *)
Fixpoint replaceTags (skip : nat) (s : string) : string :=
  match s with
  | EmptyString => EmptyString
  | String c rest =>
      match skip with
      | S k => replaceTags k rest
      | O =>
          match matchTag s with
          | Some args => tagReplacement args ++ replaceTags (S (String.length args)) rest
          | None => String c (replaceTags 0 rest)
          end
      end
  end.

Definition expandNewlines (comment : string) : string :=
  replaceAllChar newline (String newline "</br>") comment.

Definition processComment (comment : string) : string :=
  replaceTags 0 (expandNewlines comment).

Definition noBracket (t : string) : bool :=
  all_chars (fun c => negb (isBracket c)) t.

Definition noNewline (t : string) : bool :=
  all_chars (fun c => negb (Ascii.eqb c newline)) t.

(** The tests the callback makes before it falls through to the
    pass-through rule. *)
Definition recognized (args : string) : bool :=
  startsWith "/URL" args || startsWith "URL=" args
  || includes "/FONT" args || includes "FONT" args
  || includes "/SIZE" args || includes "SIZE" args
  || includes "/COLOR" args || includes "COLOR" args
  || includes "/IMG" args || includes "IMG" args
  || includes "/TABLE" args || includes "TABLE" args.

End Markup.

(* ================================================================= *)
(** ** JavaScript values and objects *)

#[local] Set Warnings "-register-all".
Local Open Scope list_scope.

Inductive Value : Type :=
| VUndefined
| VNull
| VBool (b : bool)
| VNum (n : Z)
| VStr (s : string)
| VArr (items : list Value)
| VObj (entries : list (string * Value)).

(** An object is its list of own enumerable entries, in insertion order
    (what [Object.entries] returns).  A document is such an object. *)
Definition Obj := list (string * Value).
Definition Doc := Obj.

Module JsObj.

Fixpoint find_entry {A} (k : string) (o : list (string * A)) : option A :=
  match o with
  | [] => None
  | (k', v) :: rest => if String.eqb k k' then Some v else find_entry k rest
  end.

(** [o[k]] *)
Definition get (k : string) (o : Obj) : Value :=
  match find_entry k o with
  | Some v => v
  | None => VUndefined
  end.

(** [o[k] = v]: an existing key keeps its place, a new one goes last. *)
Fixpoint set {A} (k : string) (v : A) (o : list (string * A)) : list (string * A) :=
  match o with
  | [] => [(k, v)]
  | (k', v') :: rest =>
      if String.eqb k k' then (k', v) :: rest else (k', v') :: set k v rest
  end.

(** The object without key [k] (rest destructuring). *)
Definition remove (k : string) (o : Obj) : Obj :=
  filter (fun e => negb (String.eqb k (fst e))) o.

Definition keys (o : Obj) : list string := map fst o.

(** [{ ...a, ...b }] *)
Definition assign (a b : Obj) : Obj :=
  fold_left (fun acc e => set (fst e) (snd e) acc) b a.

(** [v != null] *)
Definition notNullish (v : Value) : bool :=
  match v with
  | VUndefined | VNull => false
  | _ => true
  end.

(** [a === b] on primitives.  Two objects or arrays are equal only when
    they are the same reference, which values do not carry: they compare
    unequal. *)
Definition strictEq (a b : Value) : bool :=
  match a, b with
  | VUndefined, VUndefined => true
  | VNull, VNull => true
  | VBool x, VBool y => Bool.eqb x y
  | VNum x, VNum y => Z.eqb x y
  | VStr x, VStr y => String.eqb x y
  | _, _ => false
  end.

(** [typeof v === 'object'] *)
Definition isObjectType (v : Value) : bool :=
  match v with
  | VNull | VArr _ | VObj _ => true
  | _ => false
  end.

(** [deepEqual] of the fast-equals library, on plain data: primitives by
    value, arrays element by element, objects by key count and then key by
    key, whatever the order of the keys ("deep, not reference"). *)
Fixpoint deepEqual (a b : Value) {struct a} : bool :=
  match a, b with
  | VUndefined, VUndefined => true
  | VNull, VNull => true
  | VBool x, VBool y => Bool.eqb x y
  | VNum x, VNum y => Z.eqb x y
  | VStr x, VStr y => String.eqb x y
  | VArr xs, VArr ys =>
      (fix items (xs ys : list Value) {struct xs} : bool :=
         match xs, ys with
         | [], [] => true
         | x :: xs', y :: ys' => deepEqual x y && items xs' ys'
         | _, _ => false
         end) xs ys
  | VObj xs, VObj ys =>
      Nat.eqb (List.length xs) (List.length ys) &&
      (fix props (xs : list (string * Value)) {struct xs} : bool :=
         match xs with
         | [] => true
         | (k, x) :: xs' =>
             match find_entry k ys with
             | Some y => deepEqual x y && props xs'
             | None => false
             end
         end) xs
  | _, _ => false
  end.

Fixpoint noDupKeys {A} (o : list (string * A)) : bool :=
  match o with
  | [] => true
  | (k, _) :: rest =>
      match find_entry k rest with
      | Some _ => false
      | None => noDupKeys rest
      end
  end.

(** A value as JavaScript can hold it: no object has a key twice. *)
Fixpoint wfValue (v : Value) : bool :=
  match v with
  | VArr xs =>
      (fix items (xs : list Value) : bool :=
         match xs with
         | [] => true
         | x :: xs' => wfValue x && items xs'
         end) xs
  | VObj xs =>
      noDupKeys xs &&
      (fix props (xs : list (string * Value)) : bool :=
         match xs with
         | [] => true
         | (_, x) :: xs' => wfValue x && props xs'
         end) xs
  | _ => true
  end.

Definition wfObj (o : Obj) : bool := wfValue (VObj o).

(** [v.k] when [v] is an object; a primitive has no own attributes.
    (On [null] and [undefined] the access throws: the callers test
    [notNullish] where the value can be one of them.) *)
Definition prop (k : string) (v : Value) : Value :=
  match v with
  | VObj o => get k o
  | _ => VUndefined
  end.

(** The characters of a string, each a string. *)
Fixpoint chars (s : string) : list Value :=
  match s with
  | EmptyString => []
  | String c rest => VStr (String c EmptyString) :: chars rest
  end.

Definition indexKey (i : nat) : string := NilZero.string_of_uint (Nat.to_uint i).

Definition indexed (xs : list Value) : list (string * Value) :=
  combine (map indexKey (seq 0 (List.length xs))) xs.

(** [Object.entries(v ?? {})]: the entries of an object, the indexed
    items of an array, the indexed characters of a string; the other
    primitives have none. *)
Definition entries (v : Value) : list (string * Value) :=
  match v with
  | VObj o => o
  | VArr xs => indexed xs
  | VStr s => indexed (chars s)
  | _ => []
  end.

(** The values of a list of attempts, when none of them failed. *)
Fixpoint allSome {A} (xs : list (option A)) : option (list A) :=
  match xs with
  | [] => Some []
  | Some x :: rest => option_map (cons x) (allSome rest)
  | None :: _ => None
  end.

Definition truthy (v : Value) : bool :=
  match v with
  | VUndefined | VNull => false
  | VBool b => b
  | VNum n => negb (Z.eqb n 0)
  | VStr s => negb (String.eqb s EmptyString)
  | VArr _ | VObj _ => true
  end.

(** A value inside a template literal. *)
Fixpoint toTemplateString (v : Value) : string :=
  match v with
  | VUndefined => "undefined"
  | VNull => "null"
  | VBool true => "true"
  | VBool false => "false"
  | VNum n => NilZero.string_of_int (Z.to_int n)
  | VStr s => s
  | VArr xs =>
      JsString.join ","
        ((fix each (xs : list Value) : list string :=
            match xs with
            | [] => []
            | x :: rest =>
                match x with
                | VUndefined | VNull => EmptyString
                | _ => toTemplateString x
                end :: each rest
            end) xs)
  | VObj _ => "[object Object]"
  end.

(** [Number(v)]; [None] stands for NaN.  An array or an object converts
    through its text. *)
Definition toNumber (v : Value) : option Z :=
  match v with
  | VUndefined => None
  | VNull => Some 0%Z
  | VBool b => Some (if b then 1 else 0)%Z
  | VNum n => Some n
  | VStr s => JsString.textNumber s
  | VArr _ | VObj _ => JsString.textNumber (toTemplateString v)
  end.

(** [a < b] for two numbers of which one may be NaN. *)
Definition lessThan (a b : option Z) : bool :=
  match a, b with
  | Some x, Some y => (x <? y)%Z
  | _, _ => false
  end.

(** [v + n] for a number [n], as a number: text, and what converts to a
    primitive as text, is concatenated with the text of [n]; the rest is
    added as the number it converts to. *)
Definition plusNumber (v : Value) (n : Z) : option Z :=
  match v with
  | VStr _ | VArr _ | VObj _ =>
      JsString.textNumber (toTemplateString v ++ toTemplateString (VNum n))
  | _ => option_map (fun x => x + n)%Z (toNumber v)
  end.

End JsObj.

Import JsObj.

(* ================================================================= *)
(** ** Identifiers of the platform's model *)

(** The identifiers are declared by other packages of the platform
    ([bitrix.mixin.BitrixSyncDoc], [core.class.AttachedDoc], ...); the
    strings here stand for them and nothing below depends on their text. *)
Module Ids.
Definition BitrixSyncDoc : string := "bitrix:mixin:BitrixSyncDoc".
Definition AttachedDoc : Value := VStr "core:class:AttachedDoc".
Definition Attachment : Value := VStr "attachment:class:Attachment".
Definition Comment : Value := VStr "chunter:class:Comment".
Definition TagElement : Value := VStr "tags:class:TagElement".
Definition TagCategory : Value := VStr "tags:class:TagCategory".
Definition Employee : Value := VStr "contact:class:Employee".
Definition EmployeeAccount : Value := VStr "contact:class:EmployeeAccount".
Definition Member : Value := VStr "contact:class:Member".
Definition EntityMapping : Value := VStr "bitrix:class:EntityMapping".
Definition SystemAccount : Value := VStr "core:account:System".
Definition ContactsSpace : Value := VStr "contact:space:Contacts".
Definition ModelSpace : Value := VStr "core:space:Model".
(** [BitrixEntityType] *)
Definition TypeComment : string := "crm.timeline.comment".
Definition TypeCompany : string := "crm.company".
Definition TypeContact : string := "crm.contact".
End Ids.

(* ================================================================= *)
(** ** The world the engine runs in *)

(** A fetched file ([File]/[Blob]): the attributes the merge reads. *)
Record File := mkFile {
  f_name : Value;
  f_size : Value;
  f_type : Value;
  f_lastModified : Value
}.

(** The write operations of the document store's client. *)
Inductive WriteOp : Type :=
| Wupdate (doc : Doc) (update : Obj)
| WcreateDoc (_class space : Value) (attributes : Obj) (id modifiedOn modifiedBy : Value)
| WcreateMixin (id _class space : Value) (mixin : string) (attributes : Obj)
               (modifiedOn modifiedBy : Value)
| WupdateMixin (id _class space : Value) (mixin : string) (attributes : Obj)
| WaddCollection (_class space attachedTo attachedToClass collection : Value)
                 (attributes : Obj) (id modifiedOn modifiedBy : Value)
| Wremove (doc : Doc).

(** A [findAll] query: conditions on (possibly dotted) attribute paths. *)
Inductive Cond : Type :=
| CEq (v : Value)
| CIn (vs : list Value).
Definition Query := list (list string * Cond).

(** What the engine does to its collaborators, in order. *)
Inductive Event : Type :=
| EvLog (what : string)                      (* console.log / console.error *)
| EvSleep (ms : Z)                           (* setTimeout *)
| EvMonitor (total : Value)                  (* ops.monitor(total) *)
| EvRemote (method : string) (params : Obj)  (* bitrixClient.call *)
| EvConvert (r : Value)                      (* convert(...) *)
| EvFindAll (_class : Value) (q : Query)     (* client.findAll *)
| EvApply (scope : string)                   (* client.apply *)
| EvTx (op : WriteOp)                        (* a write handed to the ApplyOperations *)
| EvDirect (op : WriteOp)                    (* a write made on the client itself *)
| EvCommit                                   (* applyOp.commit() *)
| EvFetchBlob (ed : Doc)                     (* the descriptor's loader op() *)
| EvUpload (file : File).                    (* POST to the blob endpoint *)

Record World := mkWorld {
  store : list Doc;        (* the durable documents *)
  pending : list WriteOp;  (* the writes held by the current ApplyOperations *)
  now : Z;                 (* Date.now() *)
  nextId : nat;            (* generateId() *)
  faults : list bool;      (* which of the coming round trips reject *)
  trace : list Event
}.

Inductive Res (A : Type) : Type :=
| Ok (a : A)
| Throw (err : string)
| Diverge.
Arguments Throw {A} err.
Arguments Diverge {A}.

Definition M (A : Type) : Type := World -> Res A * World.

Module Eff.

Definition ret {A} (a : A) : M A := fun w => (Ok a, w).

Definition bind {A B} (c : M A) (k : A -> M B) : M B :=
  fun w =>
    match c w with
    | (Ok a, w') => k a w'
    | (Throw e, w') => (Throw e, w')
    | (Diverge, w') => (Diverge, w')
    end.

Definition throw {A} (e : string) : M A := fun w => (Throw e, w).

(** [try { body } catch (err) { handler }]: what the body did before it
    threw stays done. *)
Definition try_catch {A} (body : M A) (handler : string -> M A) : M A :=
  fun w =>
    match body w with
    | (Throw e, w') => handler e w'
    | r => r
    end.

Definition emit (e : Event) : M unit :=
  fun w => (Ok tt, mkWorld (store w) (pending w) (now w) (nextId w) (faults w)
                           (trace w ++ [e])).

(** An awaited call on a collaborator (store, remote service, blob
    endpoint): it rejects when the world says so. *)
Definition roundTrip : M unit :=
  fun w =>
    match faults w with
    | [] => (Ok tt, w)
    | b :: rest =>
        let w' := mkWorld (store w) (pending w) (now w) (nextId w) rest (trace w) in
        if b then (Throw "rejected", w') else (Ok tt, w')
    end.

Definition getWorld : M World := fun w => (Ok w, w).

Definition dateNow : M Z := fun w => (Ok (now w), w).

Definition setStore (s : list Doc) : M unit :=
  fun w => (Ok tt, mkWorld s (pending w) (now w) (nextId w) (faults w) (trace w)).

Definition setPending (p : list WriteOp) : M unit :=
  fun w => (Ok tt, mkWorld (store w) p (now w) (nextId w) (faults w) (trace w)).

Definition generateId : M Value :=
  fun w => (Ok (VStr ("gen-" ++ NilEmpty.string_of_uint (Nat.to_uint (nextId w)))%string),
            mkWorld (store w) (pending w) (now w) (S (nextId w)) (faults w) (trace w)).

Definition sleep (ms : Z) : M unit :=
  fun w => (Ok tt, mkWorld (store w) (pending w) (now w + ms) (nextId w) (faults w)
                           (trace w ++ [EvSleep ms])).

Fixpoint forEach {A} (xs : list A) (body : A -> M unit) : M unit :=
  match xs with
  | [] => ret tt
  | x :: rest => bind (body x) (fun _ => forEach rest body)
  end.

(** *** Computations with mutable locals

    [ST S A] is a computation that also reads and writes local variables
    of type [S]; what it assigned before it threw stays assigned. *)

Definition ST (S A : Type) : Type := S -> World -> Res A * S * World.

Definition retS {S A} (a : A) : ST S A := fun s w => (Ok a, s, w).

Definition bindS {S A B} (c : ST S A) (k : A -> ST S B) : ST S B :=
  fun s w =>
    match c s w with
    | (Ok a, s', w') => k a s' w'
    | (Throw e, s', w') => (Throw e, s', w')
    | (Diverge, s', w') => (Diverge, s', w')
    end.

Definition liftS {S A} (c : M A) : ST S A :=
  fun s w => let '(r, w') := c w in (r, s, w').

Definition getS {S} : ST S S := fun s w => (Ok s, s, w).

Definition modifyS {S} (f : S -> S) : ST S unit := fun s w => (Ok tt, f s, w).

Definition try_catchS {S A} (body : ST S A) (handler : string -> ST S A) : ST S A :=
  fun s w =>
    match body s w with
    | (Throw e, s', w') => handler e s' w'
    | r => r
    end.

Definition divergeS {S A} : ST S A := fun s w => (Diverge, s, w).

End Eff.

Declare Scope eff_scope.
Delimit Scope eff_scope with eff.
Notation "x <- c ;; k" := (Eff.bind c (fun x => k))
  (at level 61, c at next level, right associativity) : eff_scope.
Notation "' pat <- c ;; k" := (Eff.bind c (fun x => match x with pat => k end))
  (at level 61, pat pattern, c at next level, right associativity) : eff_scope.
Notation "c ;; k" := (Eff.bind c (fun _ => k))
  (at level 61, right associativity) : eff_scope.
Open Scope eff_scope.

Declare Scope st_scope.
Delimit Scope st_scope with st.
Notation "x <- c ;; k" := (Eff.bindS c (fun x => k))
  (at level 61, c at next level, right associativity) : st_scope.
Notation "c ;; k" := (Eff.bindS c (fun _ => k))
  (at level 61, right associativity) : st_scope.

(* ================================================================= *)
(** ** The document store and the class hierarchy *)

Module Hierarchy.

(** Modelled from the spec: the hierarchy's [hasMixin] is not in the
    synchronisation module.  A trait ("mixin") of a document is typed
    metadata attached to it, here kept under the trait's name inside the
    document; "does this document carry trait T" is an explicit predicate. *)
Definition hasMixin (doc : Doc) (mixin : string) : bool :=
  isObjectType (get mixin doc).

Record MixinProxy := mkProxy { target : Doc; proxyMixin : string }.

(** Modelled from the spec: the hierarchy's [as] is not in the
    synchronisation module.  [as(doc, T)] is the document seen through its
    trait T, with typed accessors: *)
Definition as_ (doc : Doc) (mixin : string) : MixinProxy := mkProxy doc mixin.

(** Modelled from the spec: an attribute of the view [as(doc, T)] is read
    from the trait and, when the trait does not define it, from the
    document itself. *)
Definition proxyGet (p : MixinProxy) (k : string) : Value :=
  match get (proxyMixin p) (target p) with
  | VObj attrs =>
      match get k attrs with
      | VUndefined => get k (target p)
      | v => v
      end
  | _ => get k (target p)
  end.

End Hierarchy.

Module Store.

Definition idOf (d : Doc) : Value := get "_id" d.

(** Modelled from the spec: [TxProcessor.applyUpdate] is not in the
    synchronisation module.  An update sets the given attributes. *)
Definition applyUpdate (doc : Doc) (update : Obj) : Doc := assign doc update.

Definition mixinAttrs (doc : Doc) (mixin : string) : Obj :=
  match get mixin doc with
  | VObj attrs => attrs
  | _ => []
  end.

(** Modelled from the spec: a trait write ([createMixin], [updateMixin])
    merges the attributes into the document's trait. *)
Definition applyMixin (doc : Doc) (mixin : string) (attributes : Obj) : Doc :=
  set mixin (VObj (assign (mixinAttrs doc mixin) attributes)) doc.

Definition onDoc (id : Value) (f : Doc -> Doc) (s : list Doc) : list Doc :=
  map (fun d => if strictEq (idOf d) id then f d else d) s.

Definition newDoc (attributes : Obj) (id _class space modifiedOn modifiedBy : Value) : Doc :=
  set "modifiedOn" modifiedOn
    (set "modifiedBy" modifiedBy
       (set "space" space (set "_class" _class (set "_id" id attributes)))).

(** Modelled from the spec: what the document store does with a write is
    not in the synchronisation module.  [update] changes the document with
    that identity, [createDoc] and [addCollection] store the attributes
    with the identity, class and space given (and, for a sub-document, its
    parent and collection), a trait write changes the trait of the
    document with that identity, [remove] deletes the document with that
    identity; a write to an absent document does nothing. *)
Definition applyWrite (s : list Doc) (op : WriteOp) : list Doc :=
  match op with
  | Wupdate doc update => onDoc (idOf doc) (fun d => applyUpdate d update) s
  | WcreateDoc c sp attributes id mo mb => s ++ [newDoc attributes id c sp mo mb]
  | WcreateMixin id _ _ mixin attributes _ _ =>
      onDoc id (fun d => applyMixin d mixin attributes) s
  | WupdateMixin id _ _ mixin attributes =>
      onDoc id (fun d => applyMixin d mixin attributes) s
  | WaddCollection c sp att attc coll attributes id mo mb =>
      s ++ [set "collection" coll
              (set "attachedToClass" attc
                 (set "attachedTo" att (newDoc attributes id c sp mo mb)))]
  | Wremove doc => filter (fun d => negb (strictEq (idOf d) (idOf doc))) s
  end.

Fixpoint getPath (path : list string) (v : Value) : Value :=
  match path with
  | [] => v
  | k :: rest =>
      match v with
      | VObj o => getPath rest (get k o)
      | _ => VUndefined
      end
  end.

Definition condHolds (c : Cond) (v : Value) : bool :=
  match c with
  | CEq x => strictEq v x
  | CIn xs => existsb (strictEq v) xs
  end.

(** Modelled from the spec: the filter of [findAll(type, filter)]; a
    document passes when each condition holds of the attribute at its
    path. *)
Definition matches (q : Query) (d : Doc) : bool :=
  forallb (fun pc => condHolds (snd pc) (getPath (fst pc) (VObj d))) q.

End Store.

Import Hierarchy Store Eff.

(* ================================================================= *)
(** ** What conversion hands to the merge engine *)

(** A pending binary attachment: [[ed, op, upd]].  [b_op] is what the loader
    [op()] resolves to ([None] for [undefined]) when it runs at the given
    clock reading. *)
Record Blob := mkBlob {
  b_ed : Doc;
  b_op : Z -> option File;
  b_upd : File -> Doc -> Doc
}.

Record ConvertResult := mkConvertResult {
  document : Doc;
  rawData : Value;
  mixins : list (string * Obj);
  extraDocs : list Doc;
  extraSync : list Doc;
  blobs : list Blob
}.

Definition setDocument (r : ConvertResult) (d : Doc) : ConvertResult :=
  mkConvertResult d (rawData r) (mixins r) (extraDocs r) (extraSync r) (blobs r).

(* ================================================================= *)
(** ** The merge engine *)

Module Merge.

(** *** The store client and the [ApplyOperations] of one merge *)

Section Client.

(** [hierarchy.isDerived(_class, from)], the class hierarchy of the
    workspace's model. *)
Variable isDerived : Value -> Value -> bool.

(** Modelled from the spec: [findAll(type, filter) -> list] answers the
    stored documents of the class (or of a class derived from it) that pass
    the filter. *)
Definition findAllIn (s : list Doc) (_class : Value) (q : Query) : list Doc :=
  filter (fun d => isDerived (get "_class" d) _class && matches q d) s.

(** Modelled from the spec: [client.findAll(_class, query)], a round
    trip to the store; it sees the durable documents only. *)
Definition findAll (_class : Value) (q : Query) : M (list Doc) :=
  emit (EvFindAll _class q) ;;
  roundTrip ;;
  w <- getWorld ;;
  ret (findAllIn (store w) _class q).

(** Modelled from the spec: a write made on the client itself
    ([client.remove], [client.createDoc], [client.addCollection]) is a
    round trip and takes effect at once. *)
Definition direct (op : WriteOp) : M unit :=
  emit (EvDirect op) ;;
  roundTrip ;;
  w <- getWorld ;;
  setStore (applyWrite (store w) op).

(** Modelled from the spec: [client.apply(scope)] opens a transaction, a
    fresh and empty [ApplyOperations]. *)
Definition apply (scope : string) : M unit :=
  emit (EvApply scope) ;;
  setPending [].

(** Modelled from the spec: a write handed to the [ApplyOperations] is
    only recorded, until the commit. *)
Definition issue (op : WriteOp) : M unit :=
  emit (EvTx op) ;;
  w <- getWorld ;;
  setPending (pending w ++ [op]).

(** Modelled from the spec: [applyOp.commit()] is the transaction
    boundary, all-or-nothing: a round trip that, accepted, makes the
    recorded writes reach the store together and, rejected, none. *)
Definition commit : M unit :=
  emit EvCommit ;;
  roundTrip ;;
  w <- getWorld ;;
  setStore (fold_left applyWrite (pending w) (store w)) ;;
  setPending [].

(** Modelled from the spec: [applyOp.createDoc(...)] creates "with a
    fresh or pre-assigned identity" and answers it: the one passed, or a
    generated one. *)
Definition createDoc (_class space : Value) (attributes : Obj)
           (id modifiedOn modifiedBy : Value) : M Value :=
  id' <- match id with
         | VUndefined => generateId
         | _ => ret id
         end ;;
  issue (WcreateDoc _class space attributes id' modifiedOn modifiedBy) ;;
  ret id'.

End Client.

(** *** Field diff: [updateDoc] and [updateMixin] *)

Definition protectedKeys : list string :=
  ["_class"; "_id"; "modifiedBy"; "modifiedOn"; "space"; "attachedTo"; "attachedToClass"].

Definition isProtected (k : string) : bool := existsb (String.eqb k) protectedKeys.

(** The loop that fills [documentUpdate]; [read k] is [(doc as any)[k]]. *)
Definition diffStep (read : string -> Value) (documentUpdate : Obj)
           (kv : string * Value) : Obj :=
  let '(k, v) := kv in
  if isProtected k then documentUpdate
  else if negb (deepEqual (read k) v) && notNullish v then set k v documentUpdate
  else documentUpdate.

Definition diffFields (read : string -> Value) (raw : Obj) : Obj :=
  fold_left (diffStep read) raw [].

Definition updateDoc (doc : Doc) (raw : Obj) : M Doc :=
  let documentUpdate := diffFields (fun k => get k doc) raw in
  if Nat.ltb 0 (List.length (keys documentUpdate)) then
    issue (Wupdate doc documentUpdate) ;;
    ret (applyUpdate doc documentUpdate)
  else ret doc.

Definition updateMixin (doc : MixinProxy) (raw : Obj) (mixin : string) : M unit :=
  if negb (hasMixin (target doc) mixin) then
    issue (WcreateMixin (proxyGet doc "_id") (proxyGet doc "_class") (proxyGet doc "space")
                        mixin raw VUndefined VUndefined)
  else
    let documentUpdate := diffFields (proxyGet doc) raw in
    if Nat.ltb 0 (List.length (keys documentUpdate)) then
      issue (WupdateMixin (proxyGet doc "_id") (proxyGet doc "_class") (proxyGet doc "space")
                          mixin documentUpdate)
    else ret tt.

Definition updateMixins (mixins : list (string * Obj)) (existing : Doc)
           (resultDoc : Doc) : M unit :=
  forEach mixins (fun mmv =>
    let '(m, mv) := mmv in
    if negb (hasMixin existing m) then
      issue (WcreateMixin (get "_id" resultDoc) (get "_class" resultDoc)
                          (get "space" resultDoc) m mv
                          (get "modifiedOn" resultDoc) (get "modifiedBy" resultDoc))
    else updateMixin (as_ existing m) mv m).

(** The sync trait written for a sub-document. *)
Definition syncTraitOf (valValue : Doc) : Obj :=
  [("type", get "type" valValue);
   ("bitrixId", get "bitrixId" valValue);
   ("rawData", get "rawData" valValue)].

(** [const { bitrixId, rawData, ...data } = d] *)
Definition withoutSyncFields (d : Doc) : Obj :=
  remove "rawData" (remove "bitrixId" d).

(** Answers [existing] as the in-place update of [updateDoc] leaves it. *)
Definition updateAttachedDoc (existing : option Doc) (valValue : Doc) : M (option Doc) :=
  match existing with
  | Some existing =>
      existing' <- updateDoc existing valValue ;;
      updateMixin (as_ existing' Ids.BitrixSyncDoc) (syncTraitOf valValue) Ids.BitrixSyncDoc ;;
      ret (Some existing')
  | None =>
      issue (WaddCollection (get "_class" valValue) (get "space" valValue)
                            (get "attachedTo" valValue) (get "attachedToClass" valValue)
                            (get "collection" valValue) (withoutSyncFields valValue)
                            (get "_id" valValue)
                            (get "modifiedOn" valValue) (get "modifiedBy" valValue)) ;;
      issue (WcreateMixin (get "_id" valValue) (get "_class" valValue) (get "space" valValue)
                          Ids.BitrixSyncDoc (syncTraitOf valValue)
                          (get "modifiedOn" valValue) (get "modifiedBy" valValue)) ;;
      ret None
  end.

(** Answers the local document and [resultDoc.document] as it leaves them. *)
Definition updateMainDoc (existing : option Doc) (resultDoc : ConvertResult) : M (Doc * Doc) :=
  match existing with
  | Some existing =>
      let document' := set "_id" (get "_id" existing) (document resultDoc) in
      existing' <- updateDoc existing document' ;;
      ret (existing', document')
  | None =>
      let d := document resultDoc in
      id <- createDoc (get "_class" d) (get "space" d) (withoutSyncFields d)
                      (get "_id" d) (get "modifiedOn" d) (get "modifiedBy" d) ;;
      let document' := set "_id" id d in
      ret (document', document')
  end.

(** *** [syncDocument] *)

(** The remote id a local document carries in its sync trait. *)
Definition bitrixIdOf (it : Doc) : Value :=
  proxyGet (as_ it Ids.BitrixSyncDoc) "bitrixId".

Fixpoint findIndex {A} (p : A -> bool) (xs : list A) : option nat :=
  match xs with
  | [] => None
  | x :: rest => if p x then Some 0%nat else option_map S (findIndex p rest)
  end.

(** [xs.splice(i, 1)]: what is left of [xs]. *)
Fixpoint removeAt {A} (i : nat) (xs : list A) : list A :=
  match i, xs with
  | _, [] => []
  | O, _ :: rest => rest
  | S j, x :: rest => x :: removeAt j rest
  end.

(** The [Map] from class to pending sub-documents, in insertion order. *)
Fixpoint mapGet {A} (k : Value) (m : list (Value * A)) : option A :=
  match m with
  | [] => None
  | (k', v) :: rest => if strictEq k k' then Some v else mapGet k rest
  end.

Fixpoint mapSet {A} (k : Value) (v : A) (m : list (Value * A)) : list (Value * A) :=
  match m with
  | [] => [(k, v)]
  | (k', v') :: rest =>
      if strictEq k k' then (k', v) :: rest else (k', v') :: mapSet k v rest
  end.

Definition groupStep (byClass : list (Value * list Doc)) (d : Doc) :=
  mapSet (get "_class" d)
         (match mapGet (get "_class" d) byClass with
          | Some ds => ds
          | None => []
          end ++ [d]) byClass.

Definition groupByClass (extraSync : list Doc) : list (Value * list Doc) :=
  fold_left groupStep extraSync [].

Definition sameFile (existingObj ed : Doc) : bool :=
  strictEq (get "name" existingObj) (get "name" ed)
  && strictEq (get "size" existingObj) (get "size" ed)
  && strictEq (get "type" existingObj) (get "type" ed).

(** The scan of the existing attachments for one pending descriptor.
    Answers [updated] and the existing attachments, the matched one as
    the update left it. *)
Fixpoint dedupExisting (existingBlobs : list Doc) (ed : Doc) (updated : bool)
  : M (bool * list Doc) :=
  match existingBlobs with
  | [] => ret (updated, [])
  | existingObj :: rest =>
      if sameFile existingObj ed then
        if negb updated then
          e' <- updateAttachedDoc (Some existingObj) ed ;;
          ' (u, rest') <- dedupExisting rest ed true ;;
          ret (u, match e' with Some x => x | None => existingObj end :: rest')
        else
          issue (Wremove existingObj) ;;
          ' (u, rest') <- dedupExisting rest ed updated ;;
          ret (u, existingObj :: rest')
      else
        ' (u, rest') <- dedupExisting rest ed updated ;;
        ret (u, existingObj :: rest')
  end.

Section Engine.

Variable isDerived : Value -> Value -> bool.

(** The blob endpoint's answer to an upload: status and body. *)
Variable uploadResp : File -> Z * string.

(** The loop over the pending sub-documents of one class; answers what
    is left of [existingByClass]. *)
Fixpoint reconcileVals (documentId : Value) (existingByClass vals : list Doc)
  : M (list Doc) :=
  match vals with
  | [] => ret existingByClass
  | valValue :: rest =>
      let existingIdx :=
        findIndex (fun it => strictEq (bitrixIdOf it) (get "bitrixId" valValue))
                  existingByClass in
      let valValue := set "attachedTo" documentId valValue in
      match existingIdx with
      | Some i =>
          updateAttachedDoc (nth_error existingByClass i) valValue ;;
          reconcileVals documentId (removeAt i existingByClass) rest
      | None =>
          updateAttachedDoc None valValue ;;
          reconcileVals documentId existingByClass rest
      end
  end.

Definition reconcileClass (documentId : Value) (entry : Value * list Doc) : M unit :=
  let '(cl, vals) := entry in
  if isDerived cl Ids.AttachedDoc then
    existingByClass <- findAll isDerived cl [(["attachedTo"], CEq documentId)] ;;
    left <- reconcileVals documentId existingByClass vals ;;
    forEach left (fun doc => direct (Wremove doc))
  else ret tt.

(** One pending binary attachment; answers the existing attachments. *)
Definition syncBlob (existingBlobs : list Doc) (blob : Blob) : M (list Doc) :=
  let ed := b_ed blob in
  match find (fun it => strictEq (bitrixIdOf it) (get "bitrixId" ed)) existingBlobs with
  | Some _ => ret existingBlobs
  | None =>
      attachmentId <- generateId ;;
      try_catch
        (emit (EvFetchBlob ed) ;;
         roundTrip ;;
         t <- dateNow ;;
         match b_op blob t with
         | None =>
             emit (EvLog "Failed to retrieve document data") ;;
             ret existingBlobs
         | Some edData =>
             let ed := b_upd blob edData ed in
             let ed := set "lastModified" (f_lastModified edData) ed in
             let ed := set "size" (f_size edData) ed in
             let ed := set "type" (f_type edData) ed in
             ' (updated, existingBlobs') <- dedupExisting existingBlobs ed false ;;
             if negb updated then
               emit (EvUpload edData) ;;
               roundTrip ;;
               let '(status, uuid) := uploadResp edData in
               if (status =? 200)%Z then
                 let ed := set "file" (VStr uuid) ed in
                 let ed := set "_id" attachmentId ed in
                 updateAttachedDoc None ed ;;
                 ret existingBlobs'
               else ret existingBlobs'
             else ret existingBlobs'
         end)
        (fun err => emit (EvLog err) ;; ret existingBlobs)
  end.

Fixpoint syncBlobs (existingBlobs : list Doc) (blobs : list Blob) : M unit :=
  match blobs with
  | [] => ret tt
  | blob :: rest =>
      existingBlobs' <- syncBlob existingBlobs blob ;;
      syncBlobs existingBlobs' rest
  end.

(** The sync trait of the primary document. *)
Definition mainSyncTrait (document : Doc) (rawData : Value) (syncTime : Z) : Obj :=
  [("type", get "type" document);
   ("bitrixId", get "bitrixId" document);
   ("rawData", rawData);
   ("syncTime", VNum syncTime)].

(** The [try] block from the sync trait on. *)
Definition mergeRest (existing document : Doc) (resultDoc : ConvertResult) : M unit :=
  syncTime <- dateNow ;;
  let mixins := set Ids.BitrixSyncDoc (mainSyncTrait document (rawData resultDoc) syncTime)
                    (mixins resultDoc) in
  updateMixins mixins existing document ;;
  forEach (extraDocs resultDoc) (fun ed =>
    createDoc (get "_class" ed) (get "space" ed) ed (get "_id" ed)
              (get "modifiedOn" document) (get "modifiedBy" document) ;;
    ret tt) ;;
  forEach (groupByClass (extraSync resultDoc)) (reconcileClass (get "_id" document)) ;;
  existingBlobs <- findAll isDerived Ids.Attachment
                           [(["attachedTo"], CEq (get "_id" document))] ;;
  syncBlobs existingBlobs (blobs resultDoc) ;;
  commit.

(** [syncDocument].  The [try] block is written in two parts with the
    same handler, so that the objects [updateMainDoc] changed in place
    ([existing] and [resultDoc.document]) reach the caller whatever
    happens afterwards; they are the answer. *)
Definition syncDocument (existing : option Doc) (resultDoc : ConvertResult)
           (monitor : option (ConvertResult -> M unit)) : M (option Doc * Doc) :=
  started <- try_catch
               (apply "bitrix" ;;
                m <- updateMainDoc existing resultDoc ;;
                ret (Some m))
               (fun err => emit (EvLog err) ;; ret None) ;;
  match started with
  | Some (existing', document') =>
      try_catch (mergeRest existing' document' resultDoc)
                (fun err => emit (EvLog err)) ;;
      match monitor with
      | Some f => f (setDocument resultDoc document')
      | None => ret tt
      end ;;
      ret (option_map (fun _ => existing') existing, document')
  | None =>
      match monitor with
      | Some f => f resultDoc
      | None => ret tt
      end ;;
      ret (existing, document resultDoc)
  end.

End Engine.

End Merge.

(* ================================================================= *)
(** ** The orchestration loop *)

Module Sync.
Import Merge JsString Markup.

Definition defaultSyncPeriod : Z := 1000 * 60 * 60 * 24.

(** [SyncOptions]; the store client, the remote client, the upload URL
    and the login are the world. *)
Record SyncOptions := mkSyncOptions {
  space : Value;
  mapping : Doc;
  limit : Z;
  direction : Value;
  monitor : Value -> M unit;
  blobProvider : option (Obj -> option File);
  extraFilter : option Obj;
  syncPeriod : option Z
}.

Record SyncOptionsExtra := mkSyncOptionsExtra {
  ownerTypeValues : Value;
  commentFieldKeys : list string;
  allMappings : list Doc;
  allEmployee : list Doc;
  userList : list (Value * Value)
}.

(** The arguments of the conversion function. *)
Record ConvertInput := mkConvertInput {
  ci_mapping : Doc;
  ci_space : Value;
  ci_fields : Value;
  ci_record : Value;
  ci_userList : list (Value * Value);
  ci_existingDoc : option Doc;
  ci_defaultCategories : list Doc;
  ci_allTagElements : list Doc;
  ci_blobProvider : option (Obj -> option File)
}.

(** The locals of [doPerformSync] that its loops assign. *)
Record LoopState := mkLoopState {
  added : Z;
  resultDocs : list Doc;
  allTagElements : list Doc;
  existingDocuments : list Doc
}.

Definition incAdded (st : LoopState) : LoopState :=
  mkLoopState (added st + 1) (resultDocs st) (allTagElements st) (existingDocuments st).

Definition setExistingDocuments (ds : list Doc) (st : LoopState) : LoopState :=
  mkLoopState (added st) (resultDocs st) (allTagElements st) ds.

Definition setAllTagElements (ts : list Doc) (st : LoopState) : LoopState :=
  mkLoopState (added st) (resultDocs st) ts (existingDocuments st).

(** [ops.mapping.$lookup?.fields] *)
Definition lookupFields (mapping : Doc) : Value :=
  match get "$lookup" mapping with
  | VObj l => get "fields" l
  | _ => VUndefined
  end.

Fixpoint replaceAt {A} (i : nat) (x : A) (xs : list A) : list A :=
  match i, xs with
  | _, [] => []
  | O, _ :: rest => x :: rest
  | S j, y :: rest => y :: replaceAt j x rest
  end.

(** The re-sync suppression test: [bd.syncTime !== undefined &&
    bd.syncTime + (ops.syncPeriod ?? defaultSyncPeriod) > syncTime].  The
    trait holds [syncTime] as a number; what else it may hold is added as
    the language adds it. *)
Definition suppressed (ops : SyncOptions) (syncTime : Z) (existingDoc : option Doc) : bool :=
  match existingDoc with
  | Some existingDoc =>
      match proxyGet (as_ existingDoc Ids.BitrixSyncDoc) "syncTime" with
      | VUndefined => false
      | VNum t =>
          (syncTime <? t + match syncPeriod ops with
                           | Some period => period
                           | None => defaultSyncPeriod
                           end)%Z
      | other =>
          lessThan (Some syncTime)
                   (plusNumber other match syncPeriod ops with
                                     | Some period => period
                                     | None => defaultSyncPeriod
                                     end)
      end
  | None => false
  end.

Definition asArray (v : Value) : M (list Value) :=
  match v with
  | VArr items => ret items
  | _ => throw "TypeError"
  end.

(** [for (const x of v)]: the items of an array, the characters of a
    string; nothing else is iterable. *)
Definition iterate (v : Value) : M (list Value) :=
  match v with
  | VArr items => ret items
  | VStr s => ret (chars s)
  | _ => throw "TypeError"
  end.

Section Orchestration.

Variable isDerived : Value -> Value -> bool.
Variable uploadResp : File -> Z * string.

(** The remote service: the answer to [call(method, params)]. *)
Variable remoteCall : string -> Obj -> Obj.

(** The conversion layer, a collaborator. *)
Variable convert : ConvertInput -> M ConvertResult.

(** [new Date(text).getTime()] and [combineName(first, last)]. *)
Variable dateMillis : Value -> Value.
Variable combineName : Value -> Value -> Value.

(** [bitrixClient.call(method, params)] *)
Definition remote (method : string) (params : Obj) : M Obj :=
  emit (EvRemote method params) ;;
  roundTrip ;;
  ret (remoteCall method params).

(** Modelled from the spec: [ops.client.createDoc(...)] without an
    identity: made at once, the identity generated. *)
Definition clientCreateDoc (_class space : Value) (attributes : Obj) : M Value :=
  id <- generateId ;;
  direct (WcreateDoc _class space attributes id VUndefined VUndefined) ;;
  ret id.

(** [new Date(created ?? new Date().toString()).getTime()]: the text of
    the current date has no milliseconds. *)
Definition createdOn (created : Value) (t : Z) : Value :=
  if notNullish created then dateMillis created else VNum (t - t mod 1000)%Z.

(** *** [synchronizeUsers] *)

(** [AccountRole.User], the first member of the enumeration. *)
Definition accountRoleUser : Value := VNum 0.

(** One user of the page.  On a user that is [null] or [undefined] the
    first access ([u.EMAIL] in the search, or [u.NAME] when there is no
    account to search) throws, before anything is created. *)
Definition synchronizeUser (allEmployee : list Doc) (userList : list (Value * Value))
           (u : Value) : M (list (Value * Value)) :=
  if negb (notNullish u) then throw "TypeError" else
  let found := match find (fun it => strictEq (get "email" it) (prop "EMAIL" u))
                           allEmployee with
               | Some it => get "_id" it
               | None => VUndefined
               end in
  accountId <- match found with
               | VUndefined =>
                   t <- dateNow ;;
                   employeeId <- clientCreateDoc Ids.Employee Ids.ContactsSpace
                     [("name", combineName (prop "NAME" u) (prop "LAST_NAME" u));
                      ("avatar", prop "PERSONAL_PHOTO" u);
                      ("active", prop "ACTIVE" u);
                      ("city", prop "PERSONAL_CITY" u);
                      ("createOn", VNum t)] ;;
                   clientCreateDoc Ids.EmployeeAccount Ids.ModelSpace
                     [("email", prop "EMAIL" u);
                      ("name", combineName (prop "NAME" u) (prop "LAST_NAME" u));
                      ("employee", employeeId);
                      ("role", accountRoleUser)]
               | _ => ret found
               end ;;
  ret (mapSet (prop "ID" u) accountId userList).

Fixpoint synchronizeUsersPage (allEmployee : list Doc) (userList : list (Value * Value))
         (us : list Value) : M (list (Value * Value)) :=
  match us with
  | [] => ret userList
  | u :: rest =>
      userList' <- synchronizeUser allEmployee userList u ;;
      synchronizeUsersPage allEmployee userList' rest
  end.

(** [userList.size < totalUsers].  The service reports the total as a
    number; what else it may report compares as the number it converts
    to, and as false when that is no number. *)
Definition sizeBelow (userList : list (Value * Value)) (totalUsers : Value) : bool :=
  match totalUsers with
  | VNum n => (Z.of_nat (List.length userList) <? n)%Z
  | other => lessThan (Some (Z.of_nat (List.length userList))) (toNumber other)
  end.

Fixpoint synchronizeUsersLoop (fuel : nat) (allEmployee : list Doc)
         (userList : list (Value * Value)) (totalUsers next : Value)
  : M (list (Value * Value)) :=
  match fuel with
  | O => fun w => (Diverge, w)
  | S fuel' =>
      if sizeBelow userList totalUsers then
        users <- remote "user.search" [("start", next)] ;;
        us <- iterate (get "result" users) ;;
        userList' <- synchronizeUsersPage allEmployee userList us ;;
        synchronizeUsersLoop fuel' allEmployee userList' (get "total" users) (get "next" users)
      else ret userList
  end.

Definition synchronizeUsers (fuel : nat) (allEmployee : list Doc) : M (list (Value * Value)) :=
  synchronizeUsersLoop fuel allEmployee [] (VNum 1) (VNum 0).

(** *** [downloadComments] *)

Definition authorOf (userList : list (Value * Value)) (authorId : Value) : Value :=
  match mapGet authorId userList with
  | Some a => if notNullish a then a else Ids.SystemAccount
  | None => Ids.SystemAccount
  end.

(** One entry of a comment's [FILES]: a line in the message, one more
    attachment counted, one pending binary attachment.  On an entry that
    is [null] or [undefined] the first access ([v.urlDownload]) throws. *)
Definition commentFile (ops : SyncOptions) (userList : list (Value * Value)) (it : Value)
           (acc : Doc * list Blob) (v : Value) : M (Doc * list Blob) :=
  if negb (notNullish v) then throw "TypeError" else
  let '(c, newBlobs) := acc in
  let message := (toTemplateString (get "message" c)
                  ++ "</br> Attachment: <a href='" ++ toTemplateString (prop "urlDownload" v)
                  ++ "'>" ++ toTemplateString (prop "name" v)
                  ++ " by " ++ toTemplateString (prop "authorName" v) ++ "</a>")%string in
  let attachments := match get "attachments" c with
                     | VNum n => VNum (n + 1)
                     | _ => VNum 1
                     end in
  let c' := set "attachments" attachments (set "message" (VStr message) c) in
  id <- generateId ;;
  t <- dateNow ;;
  let ed : Doc :=
    [("_id", id);
     ("_class", Ids.Attachment);
     ("attachedTo", get "_id" c);
     ("attachedToClass", get "_class" c);
     ("bitrixId", VStr ("attach-" ++ toTemplateString (prop "id" v))%string);
     ("collection", VStr "attachments");
     ("file", VStr EmptyString);
     ("lastModified", VNum t);
     ("modifiedBy", authorOf userList (prop "AUTHOR_ID" it));
     ("modifiedOn", createdOn (prop "CREATED" it) t);
     ("name", prop "name" v);
     ("size", prop "size" v);
     ("space", get "space" c);
     ("type", VStr "file")] in
  let op (t' : Z) : option File :=
    match blobProvider ops with
    | Some provider =>
        match provider [("file", prop "urlDownload" v);
                        ("id", VStr (toTemplateString (prop "id" v)))] with
        | Some blob =>
            Some (mkFile (VStr (toTemplateString (prop "name" v))) (f_size blob)
                         (VStr EmptyString) (VNum t'))
        | None => None
        end
    | None => None
    end in
  let upd (file : File) (attach : Doc) : Doc :=
    set "name" (f_name file)
      (set "size" (f_size file)
         (set "type" (f_type file) (set "attachedTo" (get "_id" c) attach))) in
  ret (c', newBlobs ++ [mkBlob ed op upd]).

Fixpoint commentFiles (ops : SyncOptions) (userList : list (Value * Value)) (it : Value)
         (acc : Doc * list Blob) (files : list (string * Value)) : M (Doc * list Blob) :=
  match files with
  | [] => ret acc
  | (_, v) :: rest =>
      acc' <- commentFile ops userList it acc v ;;
      commentFiles ops userList it acc' rest
  end.

Definition remoteComment (ops : SyncOptions) (userList : list (Value * Value))
           (res : ConvertResult) (it : Value) : M ConvertResult :=
  id <- generateId ;;
  message <- match prop "COMMENT" it with
             | VStr text => ret (processComment text)
             | _ => throw "TypeError"
             end ;;
  t <- dateNow ;;
  let c : Doc :=
    [("_id", id);
     ("_class", Ids.Comment);
     ("message", VStr message);
     ("bitrixId", prop "ID" it);
     ("type", prop "ENTITY_TYPE" it);
     ("attachedTo", get "_id" (document res));
     ("attachedToClass", get "_class" (document res));
     ("collection", VStr "comments");
     ("space", get "space" (document res));
     ("modifiedBy", authorOf userList (prop "AUTHOR_ID" it));
     ("modifiedOn", createdOn (prop "CREATED" it) t);
     ("attachments", VNum 0)] in
  ' (c', newBlobs) <- commentFiles ops userList it (c, []) (entries (prop "FILES" it)) ;;
  ret (mkConvertResult (document res) (rawData res) (mixins res) (extraDocs res)
                       (extraSync res ++ [c']) (blobs res ++ newBlobs)).

Definition skyblue (text : string) : string :=
  ("<span style=" ++ dquote ++ "color: var(--primary-color-skyblue);" ++ dquote ++ ">"
   ++ text ++ "</span><br/>" ++ String newline EmptyString)%string.

(** [it.ENTITY_SETTINGS?.LEAD_TITLE ?? ''], as [join] writes it; on an
    item that is [null] or [undefined] the access throws ([None]). *)
Definition leadTitle (it : Value) : option string :=
  if notNullish it then
    Some (match prop "LEAD_TITLE" (prop "ENTITY_SETTINGS" it) with
          | VUndefined | VNull => EmptyString
          | v => toTemplateString v
          end)
  else None.

(** [comm.COMMUNICATIONS?.map(...)?.join(',') ?? '']; [map] is there on
    arrays only. *)
Definition communicationTargets (communications : Value) : option string :=
  match communications with
  | VUndefined | VNull => Some EmptyString
  | VArr its => option_map (join ",") (allSome (map leadTitle its))
  | _ => None
  end.

(** One header: [v.trim()] throws ([None]) on a value that is not text. *)
Definition headerLine (kv : string * Value) : option string :=
  match snd kv with
  | VStr v => Some (if hasText v then skyblue (fst kv ++ ": " ++ v)%string else EmptyString)
  | _ => None
  end.

Definition headerLines (headers : Value) : option string :=
  option_map (String.concat EmptyString) (allSome (map headerLine (entries headers))).

(** The message of an activity; [None] where building it throws. *)
Definition activityMessage (comm : Value) : option string :=
  let indent := (String newline EmptyString ++ "        ")%string in
  if notNullish comm then
    match communicationTargets (prop "COMMUNICATIONS" comm),
          headerLines (prop "EMAIL_META" (prop "SETTINGS" comm)),
          headerLines (prop "MESSAGE_HEADERS" (prop "SETTINGS" comm)) with
    | Some targets, Some meta, Some headers =>
        Some ("<p>" ++ indent ++ skyblue ("e-mail: " ++ targets)
              ++ indent ++ skyblue ("Subject: " ++ toTemplateString (prop "SUBJECT" comm))
              ++ meta ++ headers
              ++ "</p>" ++ toTemplateString (prop "DESCRIPTION" comm))%string
    | _, _, _ => None
    end
  else None.

Definition remoteActivity (userList : list (Value * Value))
           (res : ConvertResult) (comm : Value) : M ConvertResult :=
  message <- match activityMessage comm with
             | Some m => ret m
             | None => throw "TypeError"
             end ;;
  id <- generateId ;;
  t <- dateNow ;;
  let c : Doc :=
    [("_id", id);
     ("_class", Ids.Comment);
     ("message", VStr message);
     ("bitrixId", prop "ID" comm);
     ("type", VStr "email");
     ("attachedTo", get "_id" (document res));
     ("attachedToClass", get "_class" (document res));
     ("collection", VStr "comments");
     ("space", get "space" (document res));
     ("modifiedBy", authorOf userList (prop "AUTHOR_ID" comm));
     ("modifiedOn", createdOn (prop "CREATED" comm) t)] in
  ret (mkConvertResult (document res) (rawData res) (mixins res) (extraDocs res)
                       (extraSync res ++ [c]) (blobs res)).

Fixpoint foldEach {A B} (f : A -> B -> M A) (a : A) (xs : list B) : M A :=
  match xs with
  | [] => ret a
  | x :: rest => a' <- f a x ;; foldEach f a' rest
  end.

(** [ownerTypeValues.find((it) => it.SYMBOL_CODE.toLowerCase() ===
    entityType)]: the search throws at the first owner type it visits whose
    symbol code is not text. *)
Fixpoint findOwner (entityType : string) (owners : list Value) : M (option Value) :=
  match owners with
  | [] => ret None
  | it :: rest =>
      match prop "SYMBOL_CODE" it with
      | VStr code =>
          if String.eqb (toLowerCase code) entityType then ret (Some it)
          else findOwner entityType rest
      | _ => throw "TypeError"
      end
  end.

Definition downloadComments (res : ConvertResult) (ops : SyncOptions)
           (commentFieldKeys : list string) (userList : list (Value * Value))
           (ownerTypeValues : Value) : M ConvertResult :=
  typeName <- match get "type" (mapping ops) with
              | VStr t => ret t
              | _ => throw "TypeError"
              end ;;
  let entityType := replaceFirst "crm." EmptyString typeName in
  owners <- asArray ownerTypeValues ;;
  found <- findOwner entityType owners ;;
  match found with
  | None => throw ("No owner type found for " ++ entityType)%string
  | Some ownerType =>
      commentsData <- remote (Ids.TypeComment ++ ".list")%string
        [("filter", VObj [("ENTITY_ID", get "bitrixId" (document res));
                          ("ENTITY_TYPE", VStr entityType)]);
         ("select", VArr (map VStr commentFieldKeys));
         ("order", VObj [("ID", direction ops)])] ;;
      its <- iterate (get "result" commentsData) ;;
      res1 <- foldEach (remoteComment ops userList) res its ;;
      communications <- remote "crm.activity.list"
        [("order", VObj [("ID", VStr "DESC")]);
         ("filter", VObj [("OWNER_ID", get "bitrixId" (document res));
                          ("OWNER_TYPE", prop "ID" ownerType)]);
         ("select", VArr [VStr "*"; VStr "COMMUNICATIONS"])] ;;
      let cr := match get "result" communications with
                | VArr comms => comms
                | one => [one]
                end in
      foldEach (remoteActivity userList) res1 cr
  end.

(** *** [doPerformSync] *)

Section Loop.

(** [doPerformSync] itself, for the contacts of an organisation. *)
Variable self : SyncOptions -> SyncOptionsExtra -> M (list Doc).

Definition performOrganizationContactSynchronization
           (ops : SyncOptions) (extra : SyncOptionsExtra) (res : ConvertResult) : M unit :=
  contacts <- self (mkSyncOptions (space ops) (mapping ops) (limit ops) (direction ops)
                                  (fun total => emit (EvLog "total"))
                                  (blobProvider ops)
                                  (Some [("COMPANY_ID", get "bitrixId" (document res))])
                                  (syncPeriod ops))
                   extra ;;
  existingContacts <- findAll isDerived Ids.Member
    [(["attachedTo"], CEq (get "_id" (document res)));
     (["contact"], CIn (map (get "_id") contacts))] ;;
  forEach contacts (fun c =>
    match find (fun e => strictEq (get "contact" e) (get "_id" c)) existingContacts with
    | Some _ => ret tt
    | None =>
        id <- generateId ;;
        direct (WaddCollection Ids.Member (get "space" (document res))
                               (get "_id" (document res)) (get "_class" (document res))
                               (VStr "members") [("contact", get "_id" c)]
                               id VUndefined VUndefined)
    end).

Definition contactsOfCompany (ops : SyncOptions) (extra : SyncOptionsExtra)
           (res : ConvertResult) : M unit :=
  if strictEq (get "type" (mapping ops)) (VStr Ids.TypeCompany) then
    match find (fun it => strictEq (get "type" it) (VStr Ids.TypeContact))
               (allMappings extra) with
    | Some contactMapping =>
        performOrganizationContactSynchronization
          (mkSyncOptions (space ops) contactMapping 100 (direction ops) (monitor ops)
                         (blobProvider ops) (extraFilter ops) (syncPeriod ops))
          extra res
    | None => ret tt
    end
  else ret tt.

(** After a merge: the result is recorded, the local document the
    merge updated in place is the one later records of the page see,
    new tag elements are remembered. *)
Definition recordResult (existingIdx : option nat) (existing' : option Doc)
           (res : ConvertResult) (st : LoopState) : LoopState :=
  mkLoopState (added st)
              (resultDocs st ++ [document res])
              (allTagElements st
               ++ filter (fun d => strictEq (get "_class" d) Ids.TagElement) (extraDocs res))
              (match existingIdx, existing' with
               | Some i, Some e => replaceAt i e (existingDocuments st)
               | _, _ => existingDocuments st
               end).

(** One turn of the inner loop for the record [r] at the head of
    [toProcess]; answers whether the loop is left ([break]). *)
Definition processRecord (ops : SyncOptions) (extra : SyncOptionsExtra)
           (fields : Value) (result : Obj) (syncTime : Z)
           (defaultCategories : list Doc) (r : Value) : ST LoopState bool :=
  (st <- getS ;;
   let existingIdx :=
     findIndex (fun it => strictEq (bitrixIdOf it) (prop "ID" r)) (existingDocuments st) in
   let existingDoc :=
     match existingIdx with
     | Some i => nth_error (existingDocuments st) i
     | None => None
     end in
   if suppressed ops syncTime existingDoc then
     modifyS incAdded ;;
     liftS (monitor ops (get "total" result)) ;;
     st <- getS ;;
     retS (limit ops <=? added st)%Z
   else
     try_catchS
       (res <- liftS (emit (EvConvert r) ;;
                      convert (mkConvertInput (mapping ops) (space ops) fields r
                                              (userList extra) existingDoc
                                              defaultCategories (allTagElements st)
                                              (blobProvider ops)))%eff ;;
        res <- liftS (if truthy (get "comments" (mapping ops))
                      then downloadComments res ops (commentFieldKeys extra)
                                            (userList extra) (ownerTypeValues extra)
                      else ret res) ;;
        modifyS incAdded ;;
        let total := get "total" result in
        m <- liftS (syncDocument isDerived uploadResp existingDoc res
                                 (Some (fun _ => monitor ops total))) ;;
        let '(existing', document') := m in
        let document' := match existingDoc with
                         | Some e => set "_id" (get "_id" e) document'
                         | None => document'
                         end in
        let res := setDocument res document' in
        modifyS (recordResult existingIdx existing' res) ;;
        liftS (contactsOfCompany ops extra res) ;;
        st <- getS ;;
        retS (limit ops <=? added st)%Z)
       (fun err =>
          liftS (emit (EvLog "failed to obtain data for") ;; sleep 1000)%eff ;;
          retS false))%st.

(** [while (toProcess.length > 0)] *)
Fixpoint pageLoop (ops : SyncOptions) (extra : SyncOptionsExtra)
         (fields : Value) (result : Obj) (syncTime : Z)
         (defaultCategories : list Doc) (toProcess : list Value) : ST LoopState unit :=
  match toProcess with
  | [] => retS tt
  | r :: rest =>
      (liftS (emit (EvLog "LOAD:")) ;;
       leave <- processRecord ops extra fields result syncTime defaultCategories r ;;
       if leave : bool then retS tt
       else pageLoop ops extra fields result syncTime defaultCategories rest)%st
  end.

Definition listQuery (ops : SyncOptions) (processed : Value) : Obj :=
  [("select", VArr [VStr "*"; VStr "UF_*"; VStr "EMAIL"; VStr "IM"]);
   ("order", VObj [("ID", direction ops)]);
   ("start", processed)]
  ++ match extraFilter ops with
     | Some f => [("filter", VObj f)]
     | None => []
     end.

(** [while (added < ops.limit)]; [fuel] bounds the number of pages. *)
Fixpoint pagesLoop (fuel : nat) (ops : SyncOptions) (extra : SyncOptionsExtra)
         (processed : Value) : ST LoopState unit :=
  match fuel with
  | O => divergeS
  | S fuel' =>
      (st <- getS ;;
       if (added st <? limit ops)%Z then
         result <- liftS (remote (toTemplateString (get "type" (mapping ops)) ++ ".list")%string
                                 (listQuery ops processed)) ;;
         let fields := lookupFields (mapping ops) in
         toProcess <- liftS (asArray (get "result" result)) ;;
         syncTime <- liftS dateNow ;;
         liftS (if existsb (fun it => negb (notNullish it)) toProcess
                then throw "TypeError" else ret tt) ;;
         existingDocuments <- liftS (findAll isDerived (get "ofClass" (mapping ops))
           [([Ids.BitrixSyncDoc; "bitrixId"],
             CIn (map (fun it => VStr (toTemplateString (prop "ID" it))) toProcess))]) ;;
         defaultCategories <- liftS (findAll isDerived Ids.TagCategory
                                             [(["default"], CEq (VBool true))]) ;;
         modifyS (setExistingDocuments existingDocuments) ;;
         pageLoop ops extra fields result syncTime defaultCategories toProcess ;;
         match get "next" result with
         | VUndefined => retS tt
         | processed' => pagesLoop fuel' ops extra processed'
         end
       else retS tt)%st
  end.

Definition doPerformSyncBody (fuel : nat) (ops : SyncOptions) (extra : SyncOptionsExtra)
  : M (list Doc) :=
  if strictEq (space ops) VUndefined || strictEq (lookupFields (mapping ops)) VUndefined
  then ret []
  else
    fun w =>
      match try_catchS
              (tagElements <- liftS (findAll isDerived Ids.TagElement []) ;;
               modifyS (setAllTagElements tagElements) ;;
               pagesLoop fuel ops extra (VNum 0))%st
              (fun err => liftS (emit (EvLog err)))
              (mkLoopState 0 [] [] []) w with
      | (Ok _, st, w') => (Ok (resultDocs st), w')
      | (Throw e, _, w') => (Throw e, w')
      | (Diverge, _, w') => (Diverge, w')
      end.

End Loop.

(** [doPerformSync]; [fuel] bounds the pages of a run and the nesting
    of runs. *)
Fixpoint doPerformSync (fuel : nat) (ops : SyncOptions) (extra : SyncOptionsExtra)
  : M (list Doc) :=
  match fuel with
  | O => fun w => (Diverge, w)
  | S fuel' => doPerformSyncBody (doPerformSync fuel') fuel ops extra
  end.

(** *** [performSynchronization] *)

(** [Object.keys(v)]: the keys of an object, the indices of an array or
    of a string, nothing for the other primitives. *)
Definition objectKeys (v : Value) : M (list string) :=
  match v with
  | VObj o => ret (keys o)
  | VArr xs =>
      ret (map (fun i => NilZero.string_of_uint (Nat.to_uint i)) (seq 0 (List.length xs)))
  | VStr s =>
      ret (map (fun i => NilZero.string_of_uint (Nat.to_uint i)) (seq 0 (String.length s)))
  | VUndefined | VNull => throw "TypeError"
  | _ => ret []
  end.

(** Everything [performSynchronization] does before [doPerformSync]. *)
Definition prepare (fuel : nat) : M SyncOptionsExtra :=
  commentFields <- remote (Ids.TypeComment ++ ".fields")%string [] ;;
  ownerTypes <- remote "crm.enum.ownertype" [] ;;
  commentFieldKeys <- objectKeys (get "result" commentFields) ;;
  allEmployee <- findAll isDerived Ids.EmployeeAccount [] ;;
  allMappings <- findAll isDerived Ids.EntityMapping [] ;;
  userList <- synchronizeUsers fuel allEmployee ;;
  ret (mkSyncOptionsExtra (get "result" ownerTypes) commentFieldKeys allMappings
                          allEmployee userList).

Definition performSynchronization (fuel : nat) (ops : SyncOptions) : M (list Doc) :=
  extra <- prepare fuel ;;
  doPerformSync fuel ops extra.

End Orchestration.

End Sync.

(* ================================================================= *)
(** ** Vocabulary of the properties *)

(** Induction over values, through the lists of arrays and objects. *)
Module ValueInd.

Section ValueInduction.
Variable P : Value -> Prop.
Hypothesis PUndefined : P VUndefined.
Hypothesis PNull : P VNull.
Hypothesis PBool : forall b, P (VBool b).
Hypothesis PNum : forall n, P (VNum n).
Hypothesis PStr : forall s, P (VStr s).
Hypothesis PArr : forall xs, Forall P xs -> P (VArr xs).
Hypothesis PObj : forall es, Forall (fun e => P (snd e)) es -> P (VObj es).

Fixpoint Value_nested_ind (v : Value) : P v :=
  match v with
  | VUndefined => PUndefined
  | VNull => PNull
  | VBool b => PBool b
  | VNum n => PNum n
  | VStr s => PStr s
  | VArr xs =>
      PArr ((fix each (xs : list Value) : Forall P xs :=
               match xs with
               | [] => Forall_nil P
               | x :: rest => Forall_cons x (Value_nested_ind x) (each rest)
               end) xs)
  | VObj es =>
      PObj ((fix each (es : list (string * Value)) : Forall (fun e => P (snd e)) es :=
               match es with
               | [] => Forall_nil _
               | e :: rest => Forall_cons e (Value_nested_ind (snd e)) (each rest)
               end) es)
  end.
End ValueInduction.

End ValueInd.

Module Props.
Import Merge.

(** [u] holds only entries of [raw] that the diff may take: not protected,
    not null or undefined, not deep-equal to what [read] gives. *)
Definition justified (read : string -> Value) (raw u : Obj) : Prop :=
  forall k v, In (k, v) u ->
    In (k, v) raw /\ isProtected k = false /\
    deepEqual (read k) v = false /\ notNullish v = true.

Definition nullishIn (X : string) (raw : Obj) : Prop :=
  forall v, In (X, v) raw -> notNullish v = false.

Definition updateJustified (e : Event) : Prop :=
  match e with
  | EvTx (Wupdate doc u) | EvDirect (Wupdate doc u) =>
      exists raw, justified (fun k => get k doc) raw u
  | EvTx (WupdateMixin _ _ _ _ u) | EvDirect (WupdateMixin _ _ _ _ u) =>
      exists p raw, justified (proxyGet p) raw u
  | _ => True
  end.

(** [c] only adds events that satisfy [P] to the trace. *)
Definition Emits (P : Event -> Prop) {A} (c : M A) : Prop :=
  forall w, exists evs, trace (snd (c w)) = trace w ++ evs /\ Forall P evs.

(** The events the merge engine can add to the trace. *)
Inductive MergeEvent : Event -> Prop :=
| ME_update doc raw :
    MergeEvent (EvTx (Wupdate doc (diffFields (fun k => get k doc) raw)))
| ME_updateMixin id c sp p raw mixin :
    MergeEvent (EvTx (WupdateMixin id c sp mixin (diffFields (proxyGet p) raw)))
| ME_createDoc c sp attrs id mo mb : MergeEvent (EvTx (WcreateDoc c sp attrs id mo mb))
| ME_createMixin id c sp mixin attrs mo mb :
    MergeEvent (EvTx (WcreateMixin id c sp mixin attrs mo mb))
| ME_addCollection c sp att attc coll attrs id mo mb :
    MergeEvent (EvTx (WaddCollection c sp att attc coll attrs id mo mb))
| ME_removeDuplicate doc : MergeEvent (EvTx (Wremove doc))
| ME_removeOrphan doc : MergeEvent (EvDirect (Wremove doc))
| ME_findAll c q : MergeEvent (EvFindAll c q)
| ME_apply scope : MergeEvent (EvApply scope)
| ME_commit : MergeEvent EvCommit
| ME_log what : MergeEvent (EvLog what)
| ME_fetchBlob ed : MergeEvent (EvFetchBlob ed)
| ME_upload file : MergeEvent (EvUpload file).

End Props.

Module SyncProps.
Import Merge Sync.

(** The events of the up-front phase of [performSynchronization]. *)
Definition upFrontEvent (e : Event) : Prop :=
  match e with
  | EvRemote method _ =>
      method = (Ids.TypeComment ++ ".fields")%string \/ method = "crm.enum.ownertype"
      \/ method = "user.search"
  | EvFindAll c _ => c = Ids.EmployeeAccount \/ c = Ids.EntityMapping
  | EvDirect (WcreateDoc c _ _ _ _ _) => c = Ids.Employee \/ c = Ids.EmployeeAccount
  | _ => False
  end.

(** [c] never ends in an exception. *)
Definition NoThrow {A} (c : M A) : Prop := forall w e, fst (c w) <> Throw e.

Definition NoThrowS {S A} (c : ST S A) : Prop := forall s w e, fst (fst (c s w)) <> Throw e.

(** The world after the loop's handler ran: the failure logged, one second
    slept. *)
Definition backoff (w : World) : World :=
  mkWorld (store w) (pending w) (now w + 1000) (nextId w) (faults w)
          ((trace w ++ [EvLog "failed to obtain data for"]) ++ [EvSleep 1000]).

Definition logged (e : Event) (w : World) : World :=
  mkWorld (store w) (pending w) (now w) (nextId w) (faults w) (trace w ++ [e]).

Section Conversion.
Variable remoteCall : string -> Obj -> Obj.
Variable convert : ConvertInput -> M ConvertResult.
Variable dateMillis : Value -> Value.

(** The conversion of one record: [convert], then the comment download
    when the mapping asks for comments. *)
Definition conversion (ops : SyncOptions) (extra : SyncOptionsExtra) (fields : Value)
           (defaultCategories tagElements : list Doc) (existingDoc : option Doc)
           (r : Value) : M ConvertResult :=
  res <- (emit (EvConvert r) ;;
          convert (mkConvertInput (mapping ops) (space ops) fields r (userList extra)
                                  existingDoc defaultCategories tagElements
                                  (blobProvider ops))) ;;
  if truthy (get "comments" (mapping ops))
  then downloadComments remoteCall dateMillis res ops (commentFieldKeys extra)
                        (userList extra) (ownerTypeValues extra)
  else ret res.
End Conversion.

End SyncProps.

Module MergeProps.
Import Merge.

(** A pending descriptor once its bytes are there: the mutator applied,
    then [lastModified], [size] and [type] taken from the file. *)
Definition finalized (blob : Blob) (edData : File) : Doc :=
  set "type" (f_type edData)
    (set "size" (f_size edData)
       (set "lastModified" (f_lastModified edData) (b_upd blob edData (b_ed blob)))).

(** ... and once it is uploaded: the blob reference and the identity set. *)
Definition uploaded (ed : Doc) (uuid : string) (attachmentId : Value) : Doc :=
  set "_id" attachmentId (set "file" (VStr uuid) ed).

(** The two writes that create a sub-document with its sync trait. *)
Definition creation (valValue : Doc) : list WriteOp :=
  [WaddCollection (get "_class" valValue) (get "space" valValue)
                  (get "attachedTo" valValue) (get "attachedToClass" valValue)
                  (get "collection" valValue) (withoutSyncFields valValue)
                  (get "_id" valValue)
                  (get "modifiedOn" valValue) (get "modifiedBy" valValue);
   WcreateMixin (get "_id" valValue) (get "_class" valValue) (get "space" valValue)
                Ids.BitrixSyncDoc (syncTraitOf valValue)
                (get "modifiedOn" valValue) (get "modifiedBy" valValue)].

(** The identity [generateId] gives when the counter stands at [n]. *)
Definition generated (n : nat) : Value :=
  VStr ("gen-" ++ NilEmpty.string_of_uint (Nat.to_uint n))%string.

(** The world with the writes [ops] handed to the [ApplyOperations]. *)
Definition issued (ops : list WriteOp) (w : World) : World :=
  mkWorld (store w) (pending w ++ ops) (now w) (nextId w) (faults w)
          (trace w ++ map EvTx ops).

(** One pending sub-document handled: diff-updated onto the local
    sub-document it was matched with, or created. *)
Definition step (mv : option Doc * Doc) : M unit :=
  updateAttachedDoc (fst mv) (snd mv) ;; ret tt.

(** What the update of a matched sub-document [e] may add to the trace: an
    update of [e] itself that leaves its identity alone, and writes of its
    sync trait. *)
Definition touches (e : Doc) (ev : Event) : Prop :=
  match ev with
  | EvTx (Wupdate d u) => d = e /\ ~ In "_id" (keys u)
  | EvTx (WupdateMixin _ _ _ mixin _) => mixin = Ids.BitrixSyncDoc
  | EvTx (WcreateMixin _ _ _ mixin _ _ _) => mixin = Ids.BitrixSyncDoc
  | _ => False
  end.

(** The matching the loop over the pending sub-documents performs: for
    each pending one the local sub-document it is paired with, and what is
    left of the existing ones. *)
Fixpoint plan (documentId : Value) (pool vals : list Doc)
  : list (option Doc * Doc) * list Doc :=
  match vals with
  | [] => ([], pool)
  | v :: rest =>
      match findIndex (fun it => strictEq (bitrixIdOf it) (get "bitrixId" v)) pool with
      | Some i =>
          ((nth_error pool i, set "attachedTo" documentId v)
             :: fst (plan documentId (removeAt i pool) rest),
           snd (plan documentId (removeAt i pool) rest))
      | None =>
          ((None, set "attachedTo" documentId v) :: fst (plan documentId pool rest),
           snd (plan documentId pool rest))
      end
  end.

(** Whether the diff takes the entry [(k, v)]. *)
Definition taken (read : string -> Value) (k : string) (v : Value) : bool :=
  negb (isProtected k) && (negb (deepEqual (read k) v) && notNullish v).

(** What [w'] has in its trace beyond the trace of [w]. *)
Definition newEvents (w w' : World) : list Event :=
  skipn (List.length (trace w)) (trace w').

(** [c] adds, in every world, an event that satisfies [Q] to the trace. *)
Definition HasSome (Q : Event -> Prop) {A} (c : M A) : Prop :=
  forall w, exists e, Q e /\ In e (newEvents w (snd (c w))).

(** [c] never throws and never diverges. *)
Definition AlwaysOk {A} (c : M A) : Prop :=
  forall w, exists a w', c w = (Ok a, w').

(** The creation of the extra document [ed], whatever identity it gets. *)
Definition createsExtra (ed document : Doc) (e : Event) : Prop :=
  exists id, e = EvTx (WcreateDoc (get "_class" ed) (get "space" ed) ed id
                                  (get "modifiedOn" document) (get "modifiedBy" document)).

(** The trait writes of [updateMixins] for one entry of the mixins. *)
Definition mixinOps (existing resultDoc : Doc) (mmv : string * Obj) : list WriteOp :=
  let '(m, mv) := mmv in
  if negb (hasMixin existing m) then
    [WcreateMixin (get "_id" resultDoc) (get "_class" resultDoc) (get "space" resultDoc)
                  m mv (get "modifiedOn" resultDoc) (get "modifiedBy" resultDoc)]
  else
    let p := as_ existing m in
    let u := diffFields (proxyGet p) mv in
    if Nat.ltb 0 (List.length (keys u)) then
      [WupdateMixin (proxyGet p "_id") (proxyGet p "_class") (proxyGet p "space") m u]
    else [].

Definition isUpload (e : Event) : bool :=
  match e with
  | EvUpload _ => true
  | _ => false
  end.

End MergeProps.


(** Further vocabulary: the transaction seen from the store, and how
    computations end. *)
Module MoreProps.
Import Merge Sync.

(** What [syncDocument] may do without a monitor: everything but calls to
    the remote service, conversions, sleeps and monitor calls; and on the
    client itself, outside the transaction, removals only. *)
Definition mergeOutside (e : Event) : Prop :=
  match e with
  | EvDirect (Wremove _) => True
  | EvDirect _ => False
  | EvRemote _ _ | EvConvert _ | EvSleep _ | EvMonitor _ => False
  | _ => True
  end.

(** The writes handed to the [ApplyOperations] among the events, in order. *)
Fixpoint txOps (evs : list Event) : list WriteOp :=
  match evs with
  | [] => []
  | EvTx op :: rest => op :: txOps rest
  | _ :: rest => txOps rest
  end.

(** [w'] comes after [w] inside one transaction: the trace grew, the
    writes handed to the transaction since then are pending, in order,
    and the store holds no document it did not hold. *)
Definition Buffered (w w' : World) : Prop :=
  exists evs, trace w' = trace w ++ evs
              /\ pending w' = pending w ++ txOps evs
              /\ forall d, In d (store w') -> In d (store w).

Definition Buffers {A} (c : M A) : Prop := forall w, Buffered w (snd (c w)).

(** [w'] comes after [w] and an accepted commit: the store of some
    buffered world [wm] with all the writes pending there applied, in
    order; nothing was handed to the transaction afterwards. *)
Definition Committed (w w' : World) : Prop :=
  exists wm evs', Buffered w wm
                  /\ store w' = fold_left applyWrite (pending wm) (store wm)
                  /\ pending w' = []
                  /\ trace w' = trace wm ++ evs' /\ txOps evs' = [].

Definition Atomic {A} (c : M A) : Prop :=
  forall w, Buffered w (snd (c w)) \/ Committed w (snd (c w)).

(** [c] touches neither the store nor the transaction. *)
Definition Quiet {A} (c : M A) : Prop :=
  forall w, store (snd (c w)) = store w /\ pending (snd (c w)) = pending w
            /\ exists evs, trace (snd (c w)) = trace w ++ evs /\ txOps evs = [].

(** The account the user synchronisation finds for a remote user among
    the accounts read before the run: the identity of the first one with
    the user's e-mail. *)
Definition accountOf (allEmployee : list Doc) (u : Value) : Value :=
  match find (fun it => strictEq (get "email" it) (prop "EMAIL" u)) allEmployee with
  | Some it => get "_id" it
  | None => VUndefined
  end.

Definition isKnown (allEmployee : list Doc) (u : Value) : bool :=
  match accountOf allEmployee u with
  | VUndefined => false
  | _ => true
  end.

Definition isCreate (e : Event) : bool :=
  match e with
  | EvDirect (WcreateDoc _ _ _ _ _ _) => true
  | _ => false
  end.

(** The counters of [doPerformSync] in order: no more results than
    records accepted, no more records accepted than the limit allows. *)
Definition countsInOrder (ops : SyncOptions) (st : LoopState) : Prop :=
  (Z.of_nat (List.length (resultDocs st)) <= added st)%Z
  /\ (added st <= Z.max 0 (limit ops))%Z.

Definition countsAfter {A} (ops : SyncOptions) (x : Res A * LoopState * World) : Prop :=
  countsInOrder ops (snd (fst x)).

(** After one turn of the inner loop: the counters in order, and room
    left under the limit when the loop goes on. *)
Definition recordPost (ops : SyncOptions) (x : Res bool * LoopState * World) : Prop :=
  countsInOrder ops (snd (fst x))
  /\ (fst (fst x) = Ok false -> (added (snd (fst x)) < limit ops)%Z).

(** ... and inside its [try] block, where an exception leads to the
    handler and the next record. *)
Definition tryPost (ops : SyncOptions) (x : Res bool * LoopState * World) : Prop :=
  match fst (fst x) with
  | Throw _ => countsInOrder ops (snd (fst x)) /\ (added (snd (fst x)) < limit ops)%Z
  | _ => recordPost ops x
  end.

(** The documents whose removal was handed to the transaction. *)
Definition removals (evs : list Event) : list Doc :=
  flat_map (fun e => match e with
                     | EvTx (Wremove d) => [d]
                     | _ => []
                     end) evs.


(** Every newline of [s] is followed by [</br>]. *)
Fixpoint linesBroken (s : string) : bool :=
  match s with
  | EmptyString => true
  | String c rest =>
      (if Ascii.eqb c JsString.newline then String.prefix "</br>" rest else true)
      && linesBroken rest
  end.

(** [c] returns or throws: it does not run for ever. *)
Definition Settles {A} (c : M A) : Prop := forall w, fst (c w) <> Diverge.

(** The values [f] gives on [xs] are pairwise different under [===]. *)
Fixpoint distinctBy {A} (f : A -> Value) (xs : list A) : Prop :=
  match xs with
  | [] => True
  | x :: rest => (forall y, In y rest -> strictEq (f x) (f y) = false) /\ distinctBy f rest
  end.

(** Whether a pending sub-document carries the remote id of [e]. *)
Definition carriedBy (vals : list Doc) (e : Doc) : bool :=
  existsb (fun v => strictEq (bitrixIdOf e) (get "bitrixId" v)) vals.



(** [c] goes through when no round trip is rejected, and then behaves
    as a step inside the transaction that neither uploads nor waits: no
    round trip left rejected, the clock as it was, the writes it handed to
    the transaction pending after those that were, no upload among its
    events, and no document in the store that was not there. *)
Definition Smooth {A} (c : M A) : Prop :=
  forall w, faults w = [] ->
    exists a w' evs,
      c w = (Ok a, w') /\ faults w' = [] /\ now w' = now w
      /\ trace w' = trace w ++ evs /\ filter MergeProps.isUpload evs = []
      /\ pending w' = pending w ++ txOps evs
      /\ (forall d, In d (store w') -> In d (store w)).

(** The identity of the primary document a merge works on: that of the
    local document, or else the one the converted document carries, or
    else the one generated for it. *)
Definition parentOf (existing : option Doc) (resultDoc : ConvertResult) (w : World) : Value :=
  match existing with
  | Some e => get "_id" e
  | None =>
      match get "_id" (document resultDoc) with
      | VUndefined => MergeProps.generated (nextId w)
      | id => id
      end
  end.

(** The attachments of the parent the store holds. *)
Definition attachmentsOf (isDerived : Value -> Value -> bool) (s : list Doc)
           (parent : Value) : list Doc :=
  findAllIn isDerived s Ids.Attachment [(["attachedTo"], CEq parent)].

(** The record the store holds once the sub-document [v] is created, and
    the trait written on it. *)
Definition attachedRecord (v : Doc) : Doc :=
  set "collection" (get "collection" v)
    (set "attachedToClass" (get "attachedToClass" v)
       (set "attachedTo" (get "attachedTo" v)
          (newDoc (withoutSyncFields v) (get "_id" v) (get "_class" v) (get "space" v)
                  (get "modifiedOn" v) (get "modifiedBy" v)))).

Definition withTrait (v : Doc) (d : Doc) : Doc :=
  applyMixin d Ids.BitrixSyncDoc (syncTraitOf v).

(** What the merge does, inside its [try] block, before it turns to the
    attachments: the traits, the extra documents, the reconciliation. *)
Definition beforeBlobs (isDerived : Value -> Value -> bool) (existing document : Doc)
           (resultDoc : ConvertResult) : M unit :=
  syncTime <- dateNow ;;
  updateMixins (set Ids.BitrixSyncDoc (mainSyncTrait document (rawData resultDoc) syncTime)
                    (mixins resultDoc)) existing document ;;
  forEach (extraDocs resultDoc) (fun ed =>
    createDoc (get "_class" ed) (get "space" ed) ed (get "_id" ed)
              (get "modifiedOn" document) (get "modifiedBy" document) ;;
    ret tt) ;;
  forEach (groupByClass (extraSync resultDoc)) (reconcileClass isDerived (get "_id" document)).


(** An event that is not a pause of the loop. *)
Definition notSleep (e : Event) : Prop := forall ms, e <> EvSleep ms.

(** The world in which [syncDocument] runs its first step, the
    transaction just opened. *)
Definition applied (w : World) : World :=
  mkWorld (store w) [] (now w) (nextId w) (faults w) (trace w ++ [EvApply "bitrix"]).

(** The world with the events [evs] added to its trace. *)
Definition traced (evs : list Event) (w : World) : World :=
  mkWorld (store w) (pending w) (now w) (nextId w) (faults w) (trace w ++ evs).

(** The loop state with [n] more records accepted. *)
Definition counted (n : nat) (st : LoopState) : LoopState :=
  mkLoopState (added st + Z.of_nat n) (resultDocs st) (allTagElements st)
              (existingDocuments st).

(** What the loop does for records it only counts: for each the line it
    logs on entering the turn, and the monitor's report of the total. *)
Definition reported (total : Value) (records : list Value) : list Event :=
  flat_map (fun _ => [EvLog "LOAD:"; EvMonitor total]) records.

(** The local document the loop finds for the record [r] among [docs]. *)
Definition localOf (docs : list Doc) (r : Value) : option Doc :=
  find (fun it => strictEq (bitrixIdOf it) (prop "ID" r)) docs.

(** The query of a page for the local documents of its records. *)
Definition pageQuery (toProcess : list Value) : Query :=
  [([Ids.BitrixSyncDoc; "bitrixId"],
    CIn (map (fun it => VStr (toTemplateString (prop "ID" it))) toProcess))].

End MoreProps.
(* ================================================================= *)
(** ** Concrete inputs used by the examples below *)

Module Examples.
Import JsString Markup JsObj Hierarchy Store Eff Merge Sync Props SyncProps MergeProps.

Definition c8_input : string :=
  ("Hello[URL=http://x]click[/URL]" ++ String newline "world")%string.

(** The output the specification gives for [c8_input]. *)
Definition c8_claimed : string :=
  ("Hello<a href=" ++ dquote ++ "http://x" ++ dquote ++ ">click</a></br>"
   ++ String newline "world")%string.

Definition c8_actual : string :=
  ("Hello<a href=" ++ dquote ++ "http://x" ++ dquote ++ ">click</a>"
   ++ String newline "</br>world")%string.

Definition c9_tag : string := ("a" ++ String newline "b")%string.

Definition c4_doc : Doc :=
  [("_id", VStr "d1"); ("title", VStr "kept"); ("name", VStr "old")].

Definition c4_raw : Obj :=
  [("title", VNull); ("name", VStr "new"); ("_id", VStr "other")].

Definition isDerived0 (a b : Value) : bool :=
  strictEq a b
  || (strictEq b Ids.AttachedDoc
      && (strictEq a Ids.Comment || strictEq a Ids.Attachment || strictEq a Ids.Member)).

Definition upload0 (f : File) : Z * string := (200%Z, "blob").

Definition remote0 (method : string) (params : Obj) : Obj :=
  if String.eqb method "user.search" then [("result", VArr []); ("total", VNum 0)]
  else [("result", VObj [])].

Definition dateMillis0 (v : Value) : Value := v.
Definition combineName0 (first last : Value) : Value := last.

Definition leadClass : Value := VStr "lead:class:Lead".

Definition lead (id : string) (name : string) : Doc :=
  [("_id", VStr id); ("_class", leadClass); ("space", VStr "sp"); ("name", VStr name)].

Definition converted (bitrixId name : string) : ConvertResult :=
  mkConvertResult
    [("_id", VStr "fresh"); ("_class", leadClass); ("space", VStr "sp");
     ("type", VStr "crm.lead"); ("bitrixId", VStr bitrixId); ("name", VStr name)]
    VUndefined [] [] [] [].

Definition convert0 (i : ConvertInput) : M ConvertResult :=
  ret (converted (toTemplateString (prop "ID" (ci_record i))) "new").

Definition convertFails (i : ConvertInput) : M ConvertResult := throw "conversion failed".

Definition progress (total : Value) : M unit := emit (EvMonitor total).

Definition leadMapping : Doc :=
  [("type", VStr "crm.lead"); ("ofClass", leadClass); ("comments", VBool false);
   ("$lookup", VObj [("fields", VArr [])])].

Definition ops0 : SyncOptions :=
  mkSyncOptions (VStr "sp") leadMapping 5 (VStr "ASC") progress None None None.

Definition opsNoSpace : SyncOptions :=
  mkSyncOptions VUndefined leadMapping 5 (VStr "ASC") progress None None None.

Definition extra0 : SyncOptionsExtra := mkSyncOptionsExtra (VArr []) [] [] [] [].

Definition world (s : list Doc) (t : Z) (fl : list bool) : World := mkWorld s [] t 0 fl [].

Definition noContacts (ops : SyncOptions) (extra : SyncOptionsExtra) : M (list Doc) := ret [].

Definition page1 : Obj := [("result", VArr [VObj [("ID", VStr "1")]]); ("total", VNum 1)].

(** A lead synchronised at clock reading [t]. *)
Definition syncedLead (id bitrixId : string) (t : Z) : Doc :=
  lead id "old"
  ++ [(Ids.BitrixSyncDoc,
       VObj [("type", VStr "crm.lead"); ("bitrixId", VStr bitrixId); ("syncTime", VNum t)])].

Definition comment (id bitrixId parent text : string) : Doc :=
  [("_id", VStr id); ("_class", Ids.Comment); ("space", VStr "sp");
   ("attachedTo", VStr parent); ("attachedToClass", leadClass);
   ("collection", VStr "comments"); ("message", VStr text);
   ("type", VStr "lead"); ("bitrixId", VStr bitrixId)].

(** A comment as the store holds it once merged: the remote id is in the
    sync trait. *)
Definition storedComment (id bitrixId parent text : string) : Doc :=
  [("_id", VStr id); ("_class", Ids.Comment); ("space", VStr "sp");
   ("attachedTo", VStr parent); ("attachedToClass", leadClass);
   ("collection", VStr "comments"); ("message", VStr text);
   (Ids.BitrixSyncDoc, VObj [("type", VStr "lead"); ("bitrixId", VStr bitrixId)])].

Definition withExtraSync (r : ConvertResult) (xs : list Doc) : ConvertResult :=
  mkConvertResult (document r) (rawData r) (mixins r) (extraDocs r) xs (blobs r).

Definition withBlobs (r : ConvertResult) (bs : list Blob) : ConvertResult :=
  mkConvertResult (document r) (rawData r) (mixins r) (extraDocs r) (extraSync r) bs.

Definition withExtraDocs (r : ConvertResult) (xs : list Doc) : ConvertResult :=
  mkConvertResult (document r) (rawData r) (mixins r) xs (extraSync r) (blobs r).

Definition report : File := mkFile (VStr "report.pdf") (VNum 10) (VStr "application/pdf") (VNum 0).

Definition pendingAttachment (id bitrixId parent : string) : Blob :=
  mkBlob [("_id", VStr id); ("_class", Ids.Attachment); ("space", VStr "sp");
          ("attachedTo", VStr parent); ("attachedToClass", leadClass);
          ("collection", VStr "attachments"); ("bitrixId", VStr bitrixId);
          ("name", VStr "report.pdf"); ("size", VNum 10); ("type", VStr "application/pdf")]
         (fun _ => Some report)
         (fun _ attach => attach).

Definition record1 : Value := VObj [("ID", VStr "1")].

Definition emptyLoop : LoopState := mkLoopState 0 [] [] [].

Definition pageOf (existing : list Doc) : LoopState := mkLoopState 0 [] [] existing.

Definition tag1 : Doc :=
  [("_id", VStr "t1"); ("_class", Ids.TagElement); ("space", VStr "sp"); ("title", VStr "vip")].

Definition twoAttachments : ConvertResult :=
  withBlobs (converted "1" "new")
            [pendingAttachment "a1" "attach-1" "P"; pendingAttachment "a2" "attach-2" "P"].

Definition parentWithComment : list Doc :=
  [lead "P" "old"; storedComment "c-b" "b" "P" "bye"].

Definition withTag : ConvertResult := withExtraDocs (converted "1" "new") [tag1].

(** The store after a first run for the lead [P] with [withTag], and the
    lead as that store holds it. *)
Definition afterFirstRun : World :=
  snd (syncDocument isDerived0 upload0 (Some (lead "P" "old")) withTag None
                    (world [lead "P" "old"] 1000 [])).

Definition leadAfterFirstRun : Doc := hd [] (store afterFirstRun).

End Examples.


(** Further inputs, for the examples of the later sections. *)
Module MoreExamples.
Import JsString Markup JsObj Hierarchy Store Eff Merge Sync Props SyncProps MergeProps Examples.

(** The blob endpoint out of service. *)
Definition uploadRefused (f : File) : Z * string := (503%Z, "busy").

(** An attachment as the store holds it once merged. *)
Definition storedAttachment (id bitrixId parent : string) : Doc :=
  [("_id", VStr id); ("_class", Ids.Attachment); ("space", VStr "sp");
   ("attachedTo", VStr parent); ("attachedToClass", leadClass);
   ("collection", VStr "attachments");
   ("name", VStr "report.pdf"); ("size", VNum 10); ("type", VStr "application/pdf");
   ("file", VStr "blob");
   (Ids.BitrixSyncDoc, VObj [("type", VStr "application/pdf"); ("bitrixId", VStr bitrixId)])].

(** A remote service that reports three users and lists none. *)
Definition remoteNoUsers (method : string) (params : Obj) : Obj :=
  [("result", VArr []); ("total", VNum 3); ("next", VNum 50)].

(** The owner types of a portal that knows deals only. *)
Definition dealOwners : list Value :=
  [VObj [("ID", VStr "2"); ("SYMBOL_CODE", VStr "DEAL")]].

(** A local account, and remote users: one with that account's e-mail,
    and one unknown user that the service lists twice. *)
Definition account (id email : string) : Doc :=
  [("_id", VStr id); ("_class", Ids.EmployeeAccount); ("email", VStr email)].

Definition remoteUser (id email : string) : Value :=
  VObj [("ID", VStr id); ("EMAIL", VStr email); ("NAME", VStr "n"); ("LAST_NAME", VStr "l")].

Definition usersPage : list Value :=
  [remoteUser "7" "ann@x"; remoteUser "8" "bob@x"; remoteUser "8" "bob@x"].

(** A remote comment with two files. *)
Definition remoteCommentWithFiles : Value :=
  VObj [("ID", VStr "31"); ("ENTITY_TYPE", VStr "lead"); ("COMMENT", VStr "see [B]this[/B]");
        ("AUTHOR_ID", VStr "7"); ("CREATED", VStr "2023-01-01");
        ("FILES", VObj [("5", VObj [("id", VNum 5); ("name", VStr "a.pdf"); ("size", VNum 10);
                                    ("urlDownload", VStr "http://x/5")]);
                        ("6", VObj [("id", VNum 6); ("name", VStr "b.pdf"); ("size", VNum 20);
                                    ("urlDownload", VStr "http://x/6")])])].

(** A remote service with three leads on one page, and a run limited to
    two records. *)
Definition remoteLeads (method : string) (params : Obj) : Obj :=
  [("result", VArr [VObj [("ID", VStr "1")]; VObj [("ID", VStr "2")]; VObj [("ID", VStr "3")]]);
   ("total", VNum 3)].

Definition opsLimit2 : SyncOptions :=
  mkSyncOptions (VStr "sp") leadMapping 2 (VStr "ASC") progress None None None.

(** A local attachment that was not merged from the remote side (no sync
    trait), with the name, size and type of [report]. *)
Definition localAttachment (id parent : string) : Doc :=
  [("_id", VStr id); ("_class", Ids.Attachment); ("space", VStr "sp");
   ("attachedTo", VStr parent); ("attachedToClass", leadClass);
   ("collection", VStr "attachments");
   ("name", VStr "report.pdf"); ("size", VNum 10); ("type", VStr "application/pdf");
   ("file", VStr "blob")].




(** A remote service that lists its two users on one page. *)
Definition remoteTwoUsers (method : string) (params : Obj) : Obj :=
  [("result", VArr [remoteUser "7" "ann@x"; remoteUser "8" "bob@x"]); ("total", VNum 2)].

(** The parent [P] with three comments merged from the remote comments
    [a], [b] and [c], and a new fetch that holds [a] and [c] only. *)
Definition parentWithThreeComments : list Doc :=
  [lead "P" "old"; storedComment "c-a" "a" "P" "one"; storedComment "c-b" "b" "P" "two";
   storedComment "c-c" "c" "P" "three"].

Definition fetchedAC : list Doc :=
  [comment "n-a" "a" "P" "one"; comment "n-c" "c" "P" "three, edited"].

(** A remote service that answers every call with the one-record page. *)
Definition remotePage1 (method : string) (params : Obj) : Obj := page1.

End MoreExamples.
(* ================================================================= *)
(** ** The markup translator: properties *)

Module MarkupFacts.
Import JsString Markup Examples.
Local Open Scope string_scope.

Lemma append_assoc (a b c : string) : (a ++ b) ++ c = a ++ (b ++ c).
Proof. induction a as [|x a IH]; simpl; [reflexivity | now rewrite IH]. Qed.

Lemma length_append (a b : string) : String.length (a ++ b) = String.length a + String.length b.
Proof. induction a as [|x a IH]; simpl; [reflexivity | now rewrite IH]. Qed.

Lemma replaceAllChar_app c by_ (a b : string) :
  replaceAllChar c by_ (a ++ b) = replaceAllChar c by_ a ++ replaceAllChar c by_ b.
Proof.
  induction a as [|x a IH]; simpl; [reflexivity|].
  destruct (Ascii.eqb x c); rewrite IH; [now rewrite append_assoc | reflexivity].
Qed.

Lemma expandNewlines_app (a b : string) :
  expandNewlines (a ++ b) = expandNewlines a ++ expandNewlines b.
Proof. apply replaceAllChar_app. Qed.

Lemma noBracket_app (a b : string) :
  noBracket (a ++ b) = noBracket a && noBracket b.
Proof.
  unfold noBracket. induction a as [|x a IH]; simpl; [reflexivity|].
  now rewrite IH, andb_assoc.
Qed.

Lemma replaceAllChar_cons c by_ x (t : string) :
  replaceAllChar c by_ (String x t) =
  if Ascii.eqb x c then by_ ++ replaceAllChar c by_ t else String x (replaceAllChar c by_ t).
Proof. reflexivity. Qed.

Lemma noBracket_cons x (t : string) :
  noBracket (String x t) = negb (isBracket x) && noBracket t.
Proof. reflexivity. Qed.

Lemma expandNewlines_noBracket (t : string) :
  noBracket t = true -> noBracket (expandNewlines t) = true.
Proof.
  unfold expandNewlines. induction t as [|x t IH]; [reflexivity|].
  rewrite noBracket_cons, replaceAllChar_cons. intros H.
  apply andb_true_iff in H as [Hx Ht].
  destruct (Ascii.eqb x newline).
  - rewrite noBracket_app, (IH Ht). reflexivity.
  - rewrite noBracket_cons, Hx, (IH Ht). reflexivity.
Qed.

Lemma expandNewlines_nonempty (t : string) : t <> "" -> expandNewlines t <> "".
Proof.
  destruct t as [|x t]; [congruence|]. intros _. unfold expandNewlines. simpl.
  destruct (Ascii.eqb x newline); discriminate.
Qed.

Lemma expandNewlines_id (t : string) :
  noNewline t = true -> expandNewlines t = t.
Proof.
  unfold expandNewlines, noNewline. induction t as [|x t IH]; simpl; [reflexivity|].
  intros H. apply andb_true_iff in H as [Hx Ht].
  apply negb_true_iff in Hx. rewrite Hx. now rewrite IH.
Qed.

(** The bracket-free run stops at the first bracket. *)
Lemma spanNoBracket_run (t rest : string) (c : ascii) :
  noBracket t = true -> isBracket c = true ->
  spanNoBracket (t ++ String c rest) = (t, String c rest).
Proof.
  intros Ht Hc. induction t as [|x t IH]; simpl.
  - now rewrite Hc.
  - change (noBracket (String x t)) with (negb (isBracket x) && noBracket t) in Ht.
    apply andb_true_iff in Ht as [Hx Ht]. apply negb_true_iff in Hx.
    rewrite Hx, (IH Ht). reflexivity.
Qed.

Lemma matchTag_tag (t post : string) :
  t <> "" -> noBracket t = true ->
  matchTag ("[" ++ t ++ "]" ++ post) = Some t.
Proof.
  intros Hne Ht. simpl.
  rewrite (spanNoBracket_run t post "]"%char Ht eq_refl).
  destruct t; [congruence | reflexivity].
Qed.

(** A match found in front of an opening bracket lies before it. *)
Lemma spanNoBracket_before (a s : string) :
  spanNoBracket (a ++ String "["%char s) =
  match spanNoBracket a with
  | (run, EmptyString) => (run, String "["%char s)
  | (run, after) => (run, after ++ String "["%char s)
  end.
Proof.
  induction a as [|x a IH]; simpl; [reflexivity|].
  destruct (isBracket x) eqn:Hx; [reflexivity|].
  rewrite IH. destruct (spanNoBracket a) as [run [|y after]]; reflexivity.
Qed.

Lemma spanNoBracket_after_bracket (a : string) :
  match snd (spanNoBracket a) with
  | EmptyString => True
  | String y _ => isBracket y = true
  end.
Proof.
  induction a as [|x a IH]; simpl; [exact I|].
  destruct (isBracket x) eqn:Hx; simpl; [exact Hx|].
  destruct (spanNoBracket a) as [run after]; exact IH.
Qed.

Lemma matchTag_before (a s : string) :
  a <> "" -> matchTag (a ++ String "["%char s) = matchTag a.
Proof.
  destruct a as [|x a]; [congruence|]. intros _. simpl.
  destruct (Ascii.eqb_spec x "["%char) as [->|Hx].
  - rewrite spanNoBracket_before.
    destruct (spanNoBracket a) as [run [|y after]]; simpl.
    + destruct run; reflexivity.
    + destruct run; [reflexivity|].
      destruct (Ascii.eqb_spec y "]"%char) as [->|Hy]; [reflexivity|].
      destruct y as [[] [] [] [] [] [] [] []]; try reflexivity; congruence.
  - destruct x as [[] [] [] [] [] [] [] []]; try reflexivity; congruence.
Qed.

Lemma matchTag_length (s args : string) :
  matchTag s = Some args -> S (String.length args) < String.length s.
Proof.
  destruct s as [|x s]; [discriminate|]. simpl.
  destruct x as [[] [] [] [] [] [] [] []]; try discriminate.
  assert (Hlen : forall a, String.length a =
            String.length (fst (spanNoBracket a)) + String.length (snd (spanNoBracket a))).
  { induction a as [|y a IH]; simpl; [reflexivity|].
    destruct (isBracket y); simpl; [reflexivity|].
    destruct (spanNoBracket a); simpl in *. now rewrite IH. }
  specialize (Hlen s). destruct (spanNoBracket s) as [run after]. simpl in Hlen.
  destruct run as [|c run]; [discriminate|].
  destruct after as [|y after]; [discriminate|].
  destruct y as [[] [] [] [] [] [] [] []]; try discriminate.
  intros [= <-]. simpl in *. lia.
Qed.

Lemma replaceTags_skip (a b : string) :
  replaceTags (String.length a) (a ++ b) = replaceTags 0 b.
Proof.
  induction a as [|x a IH]; simpl; [destruct b; reflexivity | exact IH].
Qed.

Lemma replaceTags_before (a s : string) (k : nat) :
  k <= String.length a ->
  replaceTags k (a ++ String "["%char s) = replaceTags k a ++ replaceTags 0 (String "["%char s).
Proof.
  revert k. induction a as [|x a IH]; intros k Hk.
  - simpl in Hk. assert (k = 0) by lia. subst. reflexivity.
  - destruct k as [|k].
    + change (String x a ++ String "["%char s) with (String x (a ++ String "["%char s)).
      unfold replaceTags at 1 2; fold replaceTags.
      change (String x (a ++ String "["%char s)) with (String x a ++ String "["%char s).
      rewrite matchTag_before by discriminate.
      destruct (matchTag (String x a)) as [args|] eqn:Hm.
      * apply matchTag_length in Hm. simpl in Hm.
        rewrite IH by lia. now rewrite append_assoc.
      * rewrite IH by lia. reflexivity.
    + simpl in Hk. simpl. apply IH. lia.
Qed.

Lemma tagReplacement_passthrough (args : string) :
  recognized args = false -> tagReplacement args = "<" ++ args ++ ">".
Proof.
  unfold recognized, tagReplacement. intros H.
  repeat (apply orb_false_iff in H as [H ?]).
  repeat match goal with Hx : _ = false |- _ => rewrite Hx; clear Hx end.
  reflexivity.
Qed.

Lemma replaceTags_tag (t post : string) :
  t <> "" -> noBracket t = true ->
  replaceTags 0 ("[" ++ t ++ "]" ++ post) = tagReplacement t ++ replaceTags 0 post.
Proof.
  intros Hne Ht.
  change ("[" ++ t ++ "]" ++ post) with (String "["%char (t ++ "]" ++ post)).
  unfold replaceTags at 1; fold replaceTags.
  change (String "["%char (t ++ "]" ++ post)) with ("[" ++ t ++ "]" ++ post).
  rewrite (matchTag_tag post Hne Ht). f_equal.
  rewrite <- append_assoc.
  replace (S (String.length t)) with (String.length (t ++ "]")).
  - apply replaceTags_skip.
  - rewrite length_append. simpl. lia.
Qed.

(** C8 (counterexample): on the specification's own example the translator
    does not produce the output the specification gives: the line break
    follows the newline, it does not precede it. *)
Lemma processComment_example_not_as_claimed : processComment c8_input <> c8_claimed.
Proof. vm_compute. discriminate. Qed.

(** C8 (amended): the translator maps
    [Hello[URL=http://x]click[/URL]\nworld] to
    [Hello<a href="http://x">click</a>\n</br>world]. *)
Theorem processComment_example : processComment c8_input = c8_actual.
Proof. vm_compute. reflexivity. Qed.

(** C9 (counterexample): a bracket tag whose content holds a newline and
    matches no recognised rule is not emitted as the literal [<t>]. *)
Lemma unknown_tag_with_newline_not_literal :
  c9_tag <> "" /\ noBracket c9_tag = true /\ recognized c9_tag = false /\
  processComment ("[" ++ c9_tag ++ "]") <> "<" ++ c9_tag ++ ">".
Proof. repeat split; vm_compute; discriminate. Qed.

(** C9 (amended): wherever a bracket tag [[t]] stands in a comment, with
    [t] not empty and free of brackets, and its content after the newline
    rule matches none of the recognised rules, the translator emits [<t'>]
    where [t'] is [t] with [</br>] inserted after each newline, and the text
    before and after the tag is translated on its own; for [t] without a
    newline, [t'] is [t] and the output is the literal [<t>]. *)
Theorem unknown_tag_passthrough (pre t post : string) :
  t <> "" -> noBracket t = true -> recognized (expandNewlines t) = false ->
  processComment (pre ++ "[" ++ t ++ "]" ++ post)
  = processComment pre ++ "<" ++ expandNewlines t ++ ">" ++ processComment post
  /\ (noNewline t = true -> expandNewlines t = t).
Proof.
  intros Hne Hnb Hrec. split; [|apply expandNewlines_id].
  unfold processComment.
  rewrite !expandNewlines_app.
  change (expandNewlines "[") with "[". change (expandNewlines "]") with "]".
  change ("[" ++ expandNewlines t ++ "]" ++ expandNewlines post)
    with (String "["%char (expandNewlines t ++ "]" ++ expandNewlines post)).
  rewrite replaceTags_before by lia.
  change (String "["%char (expandNewlines t ++ "]" ++ expandNewlines post))
    with ("[" ++ expandNewlines t ++ "]" ++ expandNewlines post).
  rewrite replaceTags_tag
    by (auto using expandNewlines_nonempty, expandNewlines_noBracket).
  rewrite (tagReplacement_passthrough _ Hrec).
  now rewrite !append_assoc.
Qed.

Lemma unknown_tag_passthrough_witness :
  processComment ("see [note] here") = processComment "see " ++ "<note>" ++ processComment " here".
Proof.
  destruct (@unknown_tag_passthrough "see " "note" " here") as [H _];
    [discriminate | reflexivity | reflexivity | exact H].
Defined.

End MarkupFacts.

(* ================================================================= *)
(** ** Objects, the diff loop and the trace: lemmas *)

Import Merge Props.

Module ObjFacts.

Lemma find_entry_set_same {A} k (v : A) o : find_entry k (set k v o) = Some v.
Proof.
  induction o as [|[k' v'] o IH]; simpl.
  - now rewrite String.eqb_refl.
  - destruct (String.eqb k k') eqn:E; simpl; rewrite E; [reflexivity | exact IH].
Qed.

Lemma find_entry_set_other {A} k k' (v : A) o :
  k <> k' -> find_entry k' (set k v o) = find_entry k' o.
Proof.
  intros Hne. induction o as [|[k0 v0] o IH]; simpl.
  - destruct (String.eqb_spec k' k); [congruence | reflexivity].
  - destruct (String.eqb_spec k k0) as [->|Hk]; simpl.
    + destruct (String.eqb_spec k' k0); [congruence | reflexivity].
    + now rewrite IH.
Qed.

Lemma get_set_same k v o : get k (set k v o) = v.
Proof. unfold get. now rewrite find_entry_set_same. Qed.

Lemma get_set_other k k' v o : k <> k' -> get k' (set k v o) = get k' o.
Proof. intros H. unfold get. now rewrite find_entry_set_other. Qed.

Lemma in_set {A} k (v : A) o k' v' :
  In (k', v') (set k v o) -> (k' = k /\ v' = v) \/ In (k', v') o.
Proof.
  induction o as [|[k0 v0] o IH]; simpl.
  - intros [[= <- <-]|[]]. now left.
  - destruct (String.eqb_spec k k0) as [->|Hk]; simpl.
    + intros [[= <- <-]|H]; [now left | right; now right].
    + intros [H|H]; [right; now left|]. destruct (IH H); [now left | right; now right].
Qed.

Lemma keys_set_in {A} k (v : A) o k' :
  In k' (map fst (set k v o)) -> k' = k \/ In k' (map fst o).
Proof.
  intros H. apply in_map_iff in H as [[k0 v0] [<- H]]. simpl.
  destruct (in_set _ _ _ _ _ H) as [[-> _]|H']; [now left|].
  right. apply in_map_iff. now exists (k0, v0).
Qed.

Lemma find_entry_none {A} k (o : list (string * A)) :
  ~ In k (map fst o) -> find_entry k o = None.
Proof.
  induction o as [|[k' v'] o IH]; simpl; [reflexivity|].
  intros H. destruct (String.eqb_spec k k') as [->|Hk]; [tauto|]. apply IH. tauto.
Qed.

Lemma get_assign_absent X d u :
  ~ In X (keys u) -> get X (assign d u) = get X d.
Proof.
  unfold assign, keys. revert d. induction u as [|[k v] u IH]; intros d H; simpl; [reflexivity|].
  simpl in H. rewrite IH by tauto. apply get_set_other. intros ->. tauto.
Qed.

End ObjFacts.

Module DiffFacts.
Import ObjFacts.

Lemma diffStep_in read acc kv k v :
  In (k, v) (diffStep read acc kv) ->
  In (k, v) acc \/
  (kv = (k, v) /\ isProtected k = false /\ deepEqual (read k) v = false /\ notNullish v = true).
Proof.
  destruct kv as [k0 v0]. unfold diffStep.
  destruct (isProtected k0) eqn:Hp; [now left|].
  destruct (deepEqual (read k0) v0) eqn:Hd; simpl; [now left|].
  destruct (notNullish v0) eqn:Hn; [|now left].
  intros H. destruct (in_set _ _ _ _ _ H) as [[-> ->]|H']; [right|now left].
  repeat split; assumption.
Qed.

Lemma diffFields_justified read raw : justified read raw (diffFields read raw).
Proof.
  unfold diffFields.
  assert (G : forall l acc, incl l raw -> justified read raw acc ->
                            justified read raw (fold_left (diffStep read) l acc)).
  { induction l as [|kv l IH]; intros acc Hl Hacc; simpl; [exact Hacc|].
    apply IH; [intros x Hx; apply Hl; now right|].
    intros k v H. destruct (diffStep_in _ _ _ _ _ H) as [H'|[-> H']].
    - now apply Hacc.
    - split; [apply Hl; now left | exact H']. }
  apply G; [apply incl_refl | intros k v []].
Qed.

Lemma justified_nullish_absent read raw u X :
  justified read raw u -> nullishIn X raw -> ~ In X (keys u).
Proof.
  intros Hj Hn H. apply in_map_iff in H as [[k v] [Hk H]]. simpl in Hk. subst k.
  destruct (Hj _ _ H) as (Hraw & _ & _ & Hnn). rewrite (Hn _ Hraw) in Hnn. discriminate.
Qed.

End DiffFacts.

Module EmitsFacts.

Lemma Emits_ret P {A} (a : A) : Emits P (ret a).
Proof. intros w. exists []. simpl. now rewrite app_nil_r. Qed.

Lemma Emits_throw P {A} e : Emits P (@throw A e).
Proof. intros w. exists []. simpl. now rewrite app_nil_r. Qed.

Lemma Emits_bind P {A B} (c : M A) (k : A -> M B) :
  Emits P c -> (forall a, Emits P (k a)) -> Emits P (bind c k).
Proof.
  intros Hc Hk w. unfold bind. destruct (Hc w) as (evs & Ht & Hp).
  destruct (c w) as [[a|e|] w1]; simpl in Ht.
  - destruct (Hk a w1) as (evs' & Ht' & Hp'). exists (evs ++ evs').
    rewrite Ht', Ht, app_assoc. split; [reflexivity | now apply Forall_app].
  - exists evs. now split.
  - exists evs. now split.
Qed.

Lemma Emits_try_catch P {A} (body : M A) (handler : string -> M A) :
  Emits P body -> (forall e, Emits P (handler e)) -> Emits P (try_catch body handler).
Proof.
  intros Hc Hk w. unfold try_catch. destruct (Hc w) as (evs & Ht & Hp).
  destruct (body w) as [[a|e|] w1]; simpl in Ht.
  - exists evs. now split.
  - destruct (Hk e w1) as (evs' & Ht' & Hp'). exists (evs ++ evs').
    rewrite Ht', Ht, app_assoc. split; [reflexivity | now apply Forall_app].
  - exists evs. now split.
Qed.

Lemma Emits_emit (P : Event -> Prop) e : P e -> Emits P (emit e).
Proof. intros H w. exists [e]. simpl. split; [reflexivity | now constructor]. Qed.

Lemma Emits_roundTrip P : Emits P roundTrip.
Proof.
  intros w. exists []. unfold roundTrip. rewrite app_nil_r.
  destruct (faults w) as [|[] fl]; split; auto.
Qed.

Lemma Emits_getWorld P : Emits P getWorld.
Proof. intros w. exists []. simpl. now rewrite app_nil_r. Qed.

Lemma Emits_dateNow P : Emits P dateNow.
Proof. intros w. exists []. simpl. now rewrite app_nil_r. Qed.

Lemma Emits_setStore P s : Emits P (setStore s).
Proof. intros w. exists []. simpl. now rewrite app_nil_r. Qed.

Lemma Emits_setPending P p : Emits P (setPending p).
Proof. intros w. exists []. simpl. now rewrite app_nil_r. Qed.

Lemma Emits_generateId P : Emits P generateId.
Proof. intros w. exists []. simpl. now rewrite app_nil_r. Qed.

Lemma Emits_sleep (P : Event -> Prop) ms : P (EvSleep ms) -> Emits P (sleep ms).
Proof. intros H w. exists [EvSleep ms]. simpl. split; [reflexivity | now constructor]. Qed.

Lemma Emits_forEach P {A} (xs : list A) (body : A -> M unit) :
  (forall x, In x xs -> Emits P (body x)) -> Emits P (forEach xs body).
Proof.
  induction xs as [|x xs IH]; intros H; simpl; [apply Emits_ret|].
  apply Emits_bind; [apply H; now left|]. intros _. apply IH. intros y Hy. apply H. now right.
Qed.

Lemma Emits_weaken (P Q : Event -> Prop) {A} (c : M A) :
  (forall e, P e -> Q e) -> Emits P c -> Emits Q c.
Proof.
  intros H Hc w. destruct (Hc w) as (evs & Ht & Hp). exists evs. split; [exact Ht|].
  eapply Forall_impl; eauto.
Qed.

Lemma Emits_issue (P : Event -> Prop) op : P (EvTx op) -> Emits P (issue op).
Proof.
  intros H. unfold issue. apply Emits_bind; [now apply Emits_emit|]. intros _.
  apply Emits_bind; [apply Emits_getWorld|]. intros w. apply Emits_setPending.
Qed.

Lemma Emits_direct (P : Event -> Prop) op : P (EvDirect op) -> Emits P (direct op).
Proof.
  intros H. unfold direct. apply Emits_bind; [now apply Emits_emit|]. intros _.
  apply Emits_bind; [apply Emits_roundTrip|]. intros _.
  apply Emits_bind; [apply Emits_getWorld|]. intros w. apply Emits_setStore.
Qed.

Lemma Emits_findAll (P : Event -> Prop) isDerived c q :
  P (EvFindAll c q) -> Emits P (findAll isDerived c q).
Proof.
  intros H. unfold findAll. apply Emits_bind; [now apply Emits_emit|]. intros _.
  apply Emits_bind; [apply Emits_roundTrip|]. intros _.
  apply Emits_bind; [apply Emits_getWorld|]. intros w. apply Emits_ret.
Qed.

Lemma Emits_commit (P : Event -> Prop) : P EvCommit -> Emits P commit.
Proof.
  intros H. unfold commit. apply Emits_bind; [now apply Emits_emit|]. intros _.
  apply Emits_bind; [apply Emits_roundTrip|]. intros _.
  apply Emits_bind; [apply Emits_getWorld|]. intros w.
  apply Emits_bind; [apply Emits_setStore|]. intros _. apply Emits_setPending.
Qed.

Lemma Emits_apply (P : Event -> Prop) scope : P (EvApply scope) -> Emits P (apply scope).
Proof.
  intros H. unfold apply. apply Emits_bind; [now apply Emits_emit|]. intros _.
  apply Emits_setPending.
Qed.

Lemma Emits_createDoc (P : Event -> Prop) c sp attrs id mo mb :
  (forall id', P (EvTx (WcreateDoc c sp attrs id' mo mb))) ->
  Emits P (createDoc c sp attrs id mo mb).
Proof.
  intros H. unfold createDoc. apply Emits_bind.
  - destruct id; try apply Emits_ret. apply Emits_generateId.
  - intros id'. apply Emits_bind; [apply Emits_issue, H|]. intros _. apply Emits_ret.
Qed.

End EmitsFacts.
Module MergeFacts.
Import ObjFacts DiffFacts EmitsFacts.

Create HintDb merge.
#[export] Hint Constructors MergeEvent : merge.
#[export] Hint Resolve Emits_ret Emits_throw Emits_roundTrip Emits_getWorld Emits_dateNow
  Emits_setStore Emits_setPending Emits_generateId : merge.

Ltac emits_step :=
  first [ apply Emits_ret | apply Emits_throw | apply Emits_roundTrip | apply Emits_getWorld
        | apply Emits_dateNow | apply Emits_generateId
        | apply Emits_issue; auto with merge
        | apply Emits_direct; auto with merge
        | apply Emits_findAll; auto with merge
        | apply Emits_commit; auto with merge
        | apply Emits_apply; auto with merge
        | apply Emits_emit; auto with merge
        | apply Emits_createDoc; auto with merge
        | apply Emits_bind; [|intros ?]
        | apply Emits_try_catch; [|intros ?] ].

Lemma updateDoc_emits doc raw : Emits MergeEvent (updateDoc doc raw).
Proof.
  unfold updateDoc. destruct (Nat.ltb _ _); repeat emits_step.
Qed.

Lemma updateMixin_emits p raw mixin : Emits MergeEvent (updateMixin p raw mixin).
Proof.
  unfold updateMixin. destruct (negb _); [repeat emits_step|].
  destruct (Nat.ltb _ _); repeat emits_step.
Qed.

Lemma updateMixins_emits mixins existing resultDoc :
  Emits MergeEvent (updateMixins mixins existing resultDoc).
Proof.
  unfold updateMixins. apply Emits_forEach. intros [m mv] _.
  destruct (negb _); [repeat emits_step | apply updateMixin_emits].
Qed.

Lemma updateAttachedDoc_emits existing valValue :
  Emits MergeEvent (updateAttachedDoc existing valValue).
Proof.
  unfold updateAttachedDoc. destruct existing as [e|].
  - apply Emits_bind; [apply updateDoc_emits|]. intros e'.
    apply Emits_bind; [apply updateMixin_emits|]. intros _. apply Emits_ret.
  - repeat emits_step.
Qed.

Lemma updateMainDoc_emits existing resultDoc :
  Emits MergeEvent (updateMainDoc existing resultDoc).
Proof.
  unfold updateMainDoc. destruct existing as [e|].
  - apply Emits_bind; [apply updateDoc_emits|]. intros e'. apply Emits_ret.
  - repeat emits_step.
Qed.

Lemma dedupExisting_emits existingBlobs ed updated :
  Emits MergeEvent (dedupExisting existingBlobs ed updated).
Proof.
  revert updated. induction existingBlobs as [|e rest IH]; intros updated; cbn [dedupExisting].
  - apply Emits_ret.
  - destruct (sameFile e ed).
    + destruct (negb updated).
      * apply Emits_bind; [apply updateAttachedDoc_emits|]. intros e'.
        apply Emits_bind; [apply IH|]. intros [u rest']. apply Emits_ret.
      * apply Emits_bind; [repeat emits_step|]. intros _.
        apply Emits_bind; [apply IH|]. intros [u rest']. apply Emits_ret.
    + apply Emits_bind; [apply IH|]. intros [u rest']. apply Emits_ret.
Qed.

Section Engine.
Variable isDerived : Value -> Value -> bool.
Variable uploadResp : File -> Z * string.

Lemma reconcileVals_emits documentId pool vals :
  Emits MergeEvent (reconcileVals documentId pool vals).
Proof.
  revert pool. induction vals as [|v vals IH]; intros pool; cbn [reconcileVals];
    [apply Emits_ret|].
  destruct (findIndex _ pool) as [i|];
    (apply Emits_bind; [apply updateAttachedDoc_emits | intros _; apply IH]).
Qed.

Lemma reconcileClass_emits documentId entry :
  Emits MergeEvent (reconcileClass isDerived documentId entry).
Proof.
  destruct entry as [cl vals]. unfold reconcileClass.
  destruct (isDerived cl Ids.AttachedDoc); [|apply Emits_ret].
  apply Emits_bind; [repeat emits_step|]. intros pool.
  apply Emits_bind; [apply reconcileVals_emits|]. intros left.
  apply Emits_forEach. intros d _. repeat emits_step.
Qed.

Lemma syncBlob_emits existingBlobs blob :
  Emits MergeEvent (syncBlob uploadResp existingBlobs blob).
Proof.
  unfold syncBlob. destruct (find _ existingBlobs); [apply Emits_ret|].
  apply Emits_bind; [apply Emits_generateId|]. intros attachmentId.
  apply Emits_try_catch.
  - apply Emits_bind; [repeat emits_step|]. intros _.
    apply Emits_bind; [apply Emits_roundTrip|]. intros _.
    apply Emits_bind; [apply Emits_dateNow|]. intros t.
    destruct (b_op blob t) as [edData|]; [|repeat emits_step].
    apply Emits_bind; [apply dedupExisting_emits|]. intros [updated existingBlobs'].
    destruct (negb updated); [|apply Emits_ret].
    apply Emits_bind; [repeat emits_step|]. intros _.
    apply Emits_bind; [apply Emits_roundTrip|]. intros _.
    destruct (uploadResp edData) as [status uuid].
    destruct (Z.eqb status 200); [|apply Emits_ret].
    apply Emits_bind; [apply updateAttachedDoc_emits|]. intros _. apply Emits_ret.
  - intros err. repeat emits_step.
Qed.

Lemma syncBlobs_emits existingBlobs blobs :
  Emits MergeEvent (syncBlobs uploadResp existingBlobs blobs).
Proof.
  revert existingBlobs. induction blobs as [|b blobs IH]; intros existingBlobs;
    cbn [syncBlobs].
  - apply Emits_ret.
  - apply Emits_bind; [apply syncBlob_emits | intros e'; apply IH].
Qed.

Lemma mergeRest_emits existing document resultDoc :
  Emits MergeEvent (mergeRest isDerived uploadResp existing document resultDoc).
Proof.
  unfold mergeRest.
  apply Emits_bind; [apply Emits_dateNow|]. intros syncTime.
  apply Emits_bind; [apply updateMixins_emits|]. intros _.
  apply Emits_bind.
  { apply Emits_forEach. intros ed _. repeat emits_step. }
  intros _. apply Emits_bind.
  { apply Emits_forEach. intros entry _. apply reconcileClass_emits. }
  intros _. apply Emits_bind; [repeat emits_step|]. intros existingBlobs.
  apply Emits_bind; [apply syncBlobs_emits|]. intros _. repeat emits_step.
Qed.

Lemma syncDocument_emits (P : Event -> Prop) existing resultDoc monitor :
  (forall e, MergeEvent e -> P e) ->
  (forall f r, monitor = Some f -> Emits P (f r)) ->
  Emits P (syncDocument isDerived uploadResp existing resultDoc monitor).
Proof.
  intros HP Hmon. unfold syncDocument.
  apply Emits_bind.
  { apply Emits_weaken with (P := MergeEvent); [exact HP|].
    apply Emits_try_catch; [|intros err; repeat emits_step].
    apply Emits_bind; [repeat emits_step|]. intros _.
    apply Emits_bind; [apply updateMainDoc_emits|]. intros m. apply Emits_ret. }
  intros [[existing' document']|].
  - apply Emits_bind.
    { apply Emits_weaken with (P := MergeEvent); [exact HP|].
      apply Emits_try_catch; [apply mergeRest_emits | intros err; repeat emits_step]. }
    intros _. apply Emits_bind; [|intros _; apply Emits_ret].
    destruct monitor as [f|]; [now apply Hmon | apply Emits_ret].
  - apply Emits_bind; [|intros _; apply Emits_ret].
    destruct monitor as [f|]; [now apply Hmon | apply Emits_ret].
Qed.

End Engine.

Lemma MergeEvent_updateJustified e : MergeEvent e -> updateJustified e.
Proof.
  intros H. destruct H; simpl; auto.
  - exists raw. apply diffFields_justified.
  - exists p, raw. apply diffFields_justified.
Qed.

End MergeFacts.

(* ================================================================= *)
(** ** The field diff: properties *)

Module DiffProps.
Import ObjFacts DiffFacts EmitsFacts MergeFacts Examples.

Lemma updateDoc_run doc raw w :
  updateDoc doc raw w =
  let u := diffFields (fun k => get k doc) raw in
  if Nat.ltb 0 (List.length (keys u)) then
    (Ok (applyUpdate doc u),
     mkWorld (store w) (pending w ++ [Wupdate doc u]) (now w) (nextId w) (faults w)
             (trace w ++ [EvTx (Wupdate doc u)]))
  else (Ok doc, w).
Proof. unfold updateDoc. cbv zeta. destruct (Nat.ltb _ _); reflexivity. Qed.

Lemma updateMixin_run p raw mixin w :
  updateMixin p raw mixin w =
  if negb (hasMixin (target p) mixin) then
    let op := WcreateMixin (proxyGet p "_id") (proxyGet p "_class") (proxyGet p "space")
                           mixin raw VUndefined VUndefined in
    (Ok tt, mkWorld (store w) (pending w ++ [op]) (now w) (nextId w) (faults w)
                    (trace w ++ [EvTx op]))
  else
    let u := diffFields (proxyGet p) raw in
    if Nat.ltb 0 (List.length (keys u)) then
      let op := WupdateMixin (proxyGet p "_id") (proxyGet p "_class") (proxyGet p "space")
                             mixin u in
      (Ok tt, mkWorld (store w) (pending w ++ [op]) (now w) (nextId w) (faults w)
                      (trace w ++ [EvTx op]))
    else (Ok tt, w).
Proof.
  unfold updateMixin. destruct (negb _); [reflexivity|].
  cbv zeta. destruct (Nat.ltb _ _); reflexivity.
Qed.

Lemma mixinAttrs_applyMixin d mixin u :
  mixinAttrs (applyMixin d mixin u) mixin = assign (mixinAttrs d mixin) u.
Proof. unfold applyMixin. unfold mixinAttrs at 1. now rewrite get_set_same. Qed.

(** C4: every update the merge engine issues carries a field only when the
    incoming value is not null or undefined, is not deep-equal to the value
    read from the document, and the field is not a protected one; a field
    whose incoming value is null or undefined is in no update, so the stored
    value of that field stays as it is, in the document and in the trait. *)
Theorem updates_carry_only_changed_non_null_fields :
  (forall isDerived uploadResp existing resultDoc,
     Emits updateJustified (syncDocument isDerived uploadResp existing resultDoc None))
  /\ (forall doc raw w,
        exists evs, trace (snd (updateDoc doc raw w)) = trace w ++ evs /\
          forall op, In (EvTx op) evs ->
            exists u, op = Wupdate doc u /\ justified (fun k => get k doc) raw u)
  /\ (forall p raw mixin w,
        exists evs, trace (snd (updateMixin p raw mixin w)) = trace w ++ evs /\
          forall id c sp m u, In (EvTx (WupdateMixin id c sp m u)) evs ->
            m = mixin /\ justified (proxyGet p) raw u)
  /\ (forall read raw u X, justified read raw u -> nullishIn X raw ->
        (forall d, get X (applyUpdate d u) = get X d) /\
        (forall d mixin, get X (mixinAttrs (applyMixin d mixin u) mixin)
                         = get X (mixinAttrs d mixin)))
  /\ (forall doc raw w X, nullishIn X raw ->
        forall doc', fst (updateDoc doc raw w) = Ok doc' -> get X doc' = get X doc).
Proof.
  split; [|split; [|split; [|split]]].
  - intros. apply syncDocument_emits; [apply MergeEvent_updateJustified | discriminate].
  - intros doc raw w. rewrite updateDoc_run. cbv zeta.
    destruct (Nat.ltb _ _).
    + eexists. split; [reflexivity|]. intros op [[= <-]|[]].
      eexists. split; [reflexivity | apply diffFields_justified].
    + exists []. split; [now rewrite app_nil_r | intros op []].
  - intros p raw mixin w. rewrite updateMixin_run.
    destruct (negb _).
    + eexists. split; [reflexivity|]. intros id c sp m u [[=]|[]].
    + cbv zeta. destruct (Nat.ltb _ _).
      * eexists. split; [reflexivity|]. intros id c sp m u [[= <- <- <- <- <-]|[]].
        split; [reflexivity | apply diffFields_justified].
      * exists []. split; [now rewrite app_nil_r | intros id c sp m u []].
  - intros read raw u X Hj Hn.
    pose proof (justified_nullish_absent Hj Hn) as Habs. split.
    + intros d. now apply get_assign_absent.
    + intros d mixin. rewrite mixinAttrs_applyMixin. now apply get_assign_absent.
  - intros doc raw w X Hn doc'. rewrite updateDoc_run. cbv zeta.
    destruct (Nat.ltb _ _); simpl; intros [= <-]; [|reflexivity].
    apply get_assign_absent.
    exact (justified_nullish_absent (diffFields_justified _ raw) Hn).
Qed.

Lemma updates_carry_only_changed_non_null_fields_witness :
  nullishIn "title" c4_raw /\
  get "title" (applyUpdate c4_doc (diffFields (fun k => get k c4_doc) c4_raw))
  = VStr "kept".
Proof.
  assert (Hn : nullishIn "title" c4_raw).
  { intros v [[= <-]|[H|[H|[]]]]; try reflexivity; discriminate. }
  split; [exact Hn|].
  destruct updates_carry_only_changed_non_null_fields as (_ & _ & _ & H & _).
  destruct (H (fun k => get k c4_doc) c4_raw _ "title"
              (diffFields_justified _ c4_raw) Hn) as [Hd _].
  rewrite Hd. reflexivity.
Defined.

End DiffProps.

(* ================================================================= *)
(** ** The orchestration loop: lemmas and properties *)

Import Sync SyncProps.

Module NoThrowFacts.

Lemma NoThrow_ret {A} (a : A) : NoThrow (ret a).
Proof. intros w e. discriminate. Qed.

Lemma NoThrow_bind {A B} (c : M A) (k : A -> M B) :
  NoThrow c -> (forall a, NoThrow (k a)) -> NoThrow (bind c k).
Proof.
  intros Hc Hk w e. unfold bind. specialize (Hc w).
  destruct (c w) as [[a|e'|] w1]; simpl in *.
  - apply Hk.
  - exfalso. now apply (Hc e').
  - discriminate.
Qed.

(** A [try] whose handler cannot throw cannot throw, whatever its body. *)
Lemma NoThrow_try_catch {A} (body : M A) (handler : string -> M A) :
  (forall e, NoThrow (handler e)) -> NoThrow (try_catch body handler).
Proof.
  intros Hh w e. unfold try_catch.
  destruct (body w) as [[a|e'|] w1]; simpl; try discriminate. apply Hh.
Qed.

Lemma NoThrow_emit e : NoThrow (emit e).
Proof. intros w e'. discriminate. Qed.

Lemma NoThrow_sleep ms : NoThrow (sleep ms).
Proof. intros w e'. discriminate. Qed.

Lemma NoThrowS_ret {S A} (a : A) : NoThrowS (@retS S A a).
Proof. intros s w e. discriminate. Qed.

Lemma NoThrowS_bind {S A B} (c : ST S A) (k : A -> ST S B) :
  NoThrowS c -> (forall a, NoThrowS (k a)) -> NoThrowS (bindS c k).
Proof.
  intros Hc Hk s w e. unfold bindS. specialize (Hc s w).
  destruct (c s w) as [[[a|e'|] s1] w1]; simpl in *.
  - apply Hk.
  - exfalso. now apply (Hc e').
  - discriminate.
Qed.

Lemma NoThrowS_try_catch {S A} (body : ST S A) (handler : string -> ST S A) :
  (forall e, NoThrowS (handler e)) -> NoThrowS (try_catchS body handler).
Proof.
  intros Hh s w e. unfold try_catchS.
  destruct (body s w) as [[[a|e'|] s1] w1]; simpl; try discriminate. apply Hh.
Qed.

Lemma NoThrowS_lift {S A} (c : M A) : NoThrow c -> NoThrowS (@liftS S A c).
Proof.
  intros Hc s w e. unfold liftS. specialize (Hc w e). destruct (c w) as [r w1]. exact Hc.
Qed.

Lemma NoThrowS_getS {S} : NoThrowS (@getS S).
Proof. intros s w e. discriminate. Qed.

Lemma NoThrowS_modifyS {S} (f : S -> S) : NoThrowS (modifyS f).
Proof. intros s w e. discriminate. Qed.

Section Engine.
Variable isDerived : Value -> Value -> bool.
Variable uploadResp : File -> Z * string.

(** What goes wrong inside the merge stays inside the merge. *)
Lemma syncDocument_NoThrow existing resultDoc monitor :
  (forall f r, monitor = Some f -> NoThrow (f r)) ->
  NoThrow (syncDocument isDerived uploadResp existing resultDoc monitor).
Proof.
  intros Hmon. unfold syncDocument. apply NoThrow_bind.
  - apply NoThrow_try_catch. intros e. apply NoThrow_bind; [apply NoThrow_emit|].
    intros _. apply NoThrow_ret.
  - intros [[existing' document']|].
    + apply NoThrow_bind.
      * apply NoThrow_try_catch. intros e. apply NoThrow_emit.
      * intros _. apply NoThrow_bind; [|intros _; apply NoThrow_ret].
        destruct monitor as [f|]; [now apply Hmon | apply NoThrow_ret].
    + apply NoThrow_bind; [|intros _; apply NoThrow_ret].
      destruct monitor as [f|]; [now apply Hmon | apply NoThrow_ret].
Qed.

End Engine.
End NoThrowFacts.

Module SyncFacts.
Import ObjFacts EmitsFacts MergeFacts NoThrowFacts Examples.

Lemma find_findIndex {A} (p : A -> bool) (l : list A) :
  match findIndex p l with
  | Some i => nth_error l i
  | None => None
  end = find p l.
Proof.
  induction l as [|x l IH]; simpl; [reflexivity|].
  destruct (p x); [reflexivity|].
  destruct (findIndex p l); simpl in *; exact IH.
Qed.

Section Orchestration.
Variable isDerived : Value -> Value -> bool.
Variable uploadResp : File -> Z * string.
Variable remoteCall : string -> Obj -> Obj.
Variable convert : ConvertInput -> M ConvertResult.
Variable dateMillis : Value -> Value.
Variable combineName : Value -> Value -> Value.

Lemma Emits_remote (P : Event -> Prop) method params :
  P (EvRemote method params) -> Emits P (remote remoteCall method params).
Proof.
  intros H. unfold remote. apply Emits_bind; [now apply Emits_emit|]. intros _.
  apply Emits_bind; [apply Emits_roundTrip|]. intros _. apply Emits_ret.
Qed.

Lemma clientCreateDoc_emits (P : Event -> Prop) c sp attrs :
  (forall id, P (EvDirect (WcreateDoc c sp attrs id VUndefined VUndefined))) ->
  Emits P (clientCreateDoc c sp attrs).
Proof.
  intros H. unfold clientCreateDoc. apply Emits_bind; [apply Emits_generateId|]. intros id.
  apply Emits_bind; [apply Emits_direct, H|]. intros _. apply Emits_ret.
Qed.

Lemma synchronizeUser_emits allEmployee userList u :
  Emits upFrontEvent (synchronizeUser combineName allEmployee userList u).
Proof.
  unfold synchronizeUser. destruct (negb (notNullish u)); [apply Emits_throw|].
  cbv zeta. apply Emits_bind; [|intros a; apply Emits_ret].
  match goal with |- Emits _ (match ?f with VUndefined => _ | _ => _ end) => destruct f end;
    try apply Emits_ret.
  apply Emits_bind; [apply Emits_dateNow|]. intros t.
  apply Emits_bind; [apply clientCreateDoc_emits; intros; now left|]. intros employeeId.
  apply clientCreateDoc_emits; intros; now right.
Qed.

Lemma synchronizeUsersPage_emits allEmployee userList us :
  Emits upFrontEvent (synchronizeUsersPage combineName allEmployee userList us).
Proof.
  revert userList. induction us as [|u us IH]; intros userList; cbn [synchronizeUsersPage].
  - apply Emits_ret.
  - apply Emits_bind; [apply synchronizeUser_emits | intros ul; apply IH].
Qed.

Lemma Emits_asArray P v : Emits P (asArray v).
Proof. destruct v; simpl; try apply Emits_throw. apply Emits_ret. Qed.

Lemma Emits_iterate P v : Emits P (iterate v).
Proof. destruct v; simpl; try apply Emits_throw; apply Emits_ret. Qed.

Lemma synchronizeUsersLoop_emits fuel allEmployee userList totalUsers next :
  Emits upFrontEvent
        (synchronizeUsersLoop remoteCall combineName fuel allEmployee userList totalUsers next).
Proof.
  revert userList totalUsers next.
  induction fuel as [|fuel IH]; intros userList totalUsers next; cbn [synchronizeUsersLoop].
  - intros w. exists []. simpl. now rewrite app_nil_r.
  - destruct (sizeBelow userList totalUsers); [|apply Emits_ret].
    apply Emits_bind; [apply Emits_remote; simpl; auto|]. intros users.
    apply Emits_bind; [apply Emits_iterate|]. intros us.
    apply Emits_bind; [apply synchronizeUsersPage_emits|]. intros ul. apply IH.
Qed.

Lemma prepare_emits fuel :
  Emits upFrontEvent (prepare isDerived remoteCall combineName fuel).
Proof.
  unfold prepare.
  apply Emits_bind; [apply Emits_remote; simpl; auto|]. intros commentFields.
  apply Emits_bind; [apply Emits_remote; simpl; auto|]. intros ownerTypes.
  apply Emits_bind.
  { unfold objectKeys. destruct (get "result" commentFields);
      first [apply Emits_ret | apply Emits_throw]. }
  intros ks.
  apply Emits_bind; [apply Emits_findAll; simpl; auto|]. intros allEmployee.
  apply Emits_bind; [apply Emits_findAll; simpl; auto|]. intros allMappings.
  apply Emits_bind; [apply synchronizeUsersLoop_emits|]. intros ul. apply Emits_ret.
Qed.

Lemma doPerformSync_guard fuel ops extra w :
  space ops = VUndefined \/ lookupFields (mapping ops) = VUndefined ->
  doPerformSync isDerived uploadResp remoteCall convert dateMillis (S fuel) ops extra w
  = (Ok [], w).
Proof.
  intros H. cbn [doPerformSync]. unfold doPerformSyncBody.
  replace (strictEq (space ops) VUndefined || strictEq (lookupFields (mapping ops)) VUndefined)
    with true; [reflexivity|].
  symmetry. destruct H as [-> | ->]; [reflexivity | apply orb_true_r].
Qed.

Lemma lastChar_app (a b : string) :
  b <> EmptyString -> JsString.lastChar (a ++ b) = JsString.lastChar b.
Proof.
  intros Hb. induction a as [|c a IH]; [reflexivity|].
  change (String c a ++ b)%string with (String c (a ++ b)).
  cbn [JsString.lastChar]. destruct (a ++ b)%string eqn:E; [|exact IH].
  destruct a; [cbn in E; contradiction | discriminate E].
Qed.

Lemma list_call_not_up_front (type : string) (params : Obj) :
  ~ upFrontEvent (EvRemote (type ++ ".list") params).
Proof.
  assert (Hl : JsString.lastChar (type ++ ".list") = "t"%char)
    by (rewrite lastChar_app; [reflexivity | discriminate]).
  cbn. intros [E | [E | E]]; rewrite E in Hl; vm_compute in Hl; discriminate Hl.
Qed.

Section Loop.
Variable self : SyncOptions -> SyncOptionsExtra -> M (list Doc).

Lemma lift_bind_throw {S A B C} (c1 : M A) (c2 : A -> M B) (k : B -> ST S C) s w e w2 :
  bind c1 c2 w = (Throw e, w2) ->
  bindS (liftS c1) (fun a => bindS (liftS (c2 a)) k) s w = (Throw e, s, w2).
Proof.
  unfold bind, bindS, liftS. destruct (c1 w) as [[a|e1|] w1].
  - intros ->. reflexivity.
  - intros [= <- <-]. reflexivity.
  - discriminate.
Qed.

Lemma handler_NoThrowS :
  NoThrowS (bindS (liftS (S := LoopState)
                         (bind (emit (EvLog "failed to obtain data for"))
                               (fun _ => sleep 1000)))
                  (fun _ => retS false)).
Proof.
  apply NoThrowS_bind; [|intros _; apply NoThrowS_ret].
  apply NoThrowS_lift. apply NoThrow_bind; [apply NoThrow_emit | intros _; apply NoThrow_sleep].
Qed.

Lemma processRecord_NoThrowS ops extra fields result syncTime cats r :
  (forall total, NoThrow (monitor ops total)) ->
  NoThrowS (processRecord isDerived uploadResp remoteCall convert dateMillis self
                          ops extra fields result syncTime cats r).
Proof.
  intros Hmon. unfold processRecord. apply NoThrowS_bind; [apply NoThrowS_getS|].
  intros st. cbv zeta. destruct (suppressed _ _ _).
  - apply NoThrowS_bind; [apply NoThrowS_modifyS|]. intros _.
    apply NoThrowS_bind; [apply NoThrowS_lift, Hmon|]. intros _.
    apply NoThrowS_bind; [apply NoThrowS_getS|]. intros st'. apply NoThrowS_ret.
  - apply NoThrowS_try_catch. intros err. apply handler_NoThrowS.
Qed.

Lemma pageLoop_NoThrowS ops extra fields result syncTime cats toProcess :
  (forall total, NoThrow (monitor ops total)) ->
  NoThrowS (pageLoop isDerived uploadResp remoteCall convert dateMillis self
                     ops extra fields result syncTime cats toProcess).
Proof.
  intros Hmon. induction toProcess as [|r rest IH]; cbn [pageLoop].
  - apply NoThrowS_ret.
  - apply NoThrowS_bind; [apply NoThrowS_lift, NoThrow_emit|]. intros _.
    apply NoThrowS_bind; [now apply processRecord_NoThrowS|].
    intros [|]; [apply NoThrowS_ret | exact IH].
Qed.

End Loop.

End Orchestration.
(** C7 (counterexample): the merge of a record raises (the commit is
    rejected, [syncDocument] logs it, nothing reaches the store), yet the
    loop counts the record as accepted and does not back off. *)
Lemma merge_failure_is_counted_without_backoff :
  let '(r, st, w) :=
    processRecord isDerived0 upload0 remote0 convert0 dateMillis0 noContacts
                  ops0 extra0 (VArr []) page1 1000 [] record1 emptyLoop
                  (world [] 1000 [false; true]) in
  r = Ok false
  /\ In EvCommit (trace w) /\ In (EvLog "rejected") (trace w) /\ store w = []
  /\ added st = 1%Z
  /\ ~ In (EvSleep 1000) (trace w).
Proof.
  vm_compute. repeat split; auto 20.
  intros H. repeat (destruct H as [H|H]; [discriminate H|]). exact H.
Qed.

End SyncFacts.

(* ================================================================= *)
(** ** The merge engine: properties *)

Import MergeProps.

Module MergeRuns.
Import ObjFacts DiffFacts EmitsFacts MergeFacts Examples.

Lemma issue_run op w :
  issue op w = (Ok tt, mkWorld (store w) (pending w ++ [op]) (now w) (nextId w) (faults w)
                               (trace w ++ [EvTx op])).
Proof. reflexivity. Qed.

Lemma updateAttachedDoc_create_run valValue w :
  updateAttachedDoc None valValue w
  = (Ok None,
     mkWorld (store w) ((pending w ++ [hd (Wremove []) (creation valValue)])
                        ++ tl (creation valValue))
             (now w) (nextId w) (faults w)
             ((trace w ++ [EvTx (hd (Wremove []) (creation valValue))])
              ++ map EvTx (tl (creation valValue)))).
Proof. reflexivity. Qed.

Lemma dedupExisting_no_match existingBlobs ed updated w :
  (forall e, In e existingBlobs -> sameFile e ed = false) ->
  dedupExisting existingBlobs ed updated w = (Ok (updated, existingBlobs), w).
Proof.
  induction existingBlobs as [|e rest IH]; intros H; cbn [dedupExisting]; [reflexivity|].
  rewrite (H e) by now left. unfold bind. rewrite IH by (intros x Hx; apply H; now right).
  reflexivity.
Qed.

Lemma find_none {A} (p : A -> bool) (l : list A) :
  (forall x, In x l -> p x = false) -> find p l = None.
Proof.
  induction l as [|x l IH]; intros H; simpl; [reflexivity|].
  rewrite (H x) by now left. apply IH. intros y Hy. apply H. now right.
Qed.

Section Engine.
Variable isDerived : Value -> Value -> bool.
Variable uploadResp : File -> Z * string.

(** One pending attachment that matches nothing that exists: its bytes are
    fetched and uploaded and a new attachment record is created; the
    existing attachments the next descriptor is compared with are the
    same. *)
Lemma syncBlob_upload_run existingBlobs blob edData uuid s p t n tr :
  (forall e, In e existingBlobs ->
             strictEq (bitrixIdOf e) (get "bitrixId" (b_ed blob)) = false) ->
  b_op blob t = Some edData ->
  (forall e, In e existingBlobs -> sameFile e (finalized blob edData) = false) ->
  uploadResp edData = (200%Z, uuid) ->
  syncBlob uploadResp existingBlobs blob (mkWorld s p t n [] tr)
  = (Ok existingBlobs,
     mkWorld s (p ++ creation (uploaded (finalized blob edData) uuid (generated n)))
             t (S n) []
             (tr ++ [EvFetchBlob (b_ed blob); EvUpload edData]
                 ++ map EvTx (creation (uploaded (finalized blob edData) uuid (generated n))))).
Proof.
  intros Hid Hop Hsame Hup. unfold syncBlob.
  rewrite find_none by exact Hid.
  unfold bind at 1. cbn [generateId nextId store pending now faults trace].
  unfold try_catch. unfold bind at 1. cbn [emit nextId store pending now faults trace].
  unfold bind at 1. cbn [roundTrip faults].
  unfold bind at 1. cbn [dateNow now]. rewrite Hop.
  fold (finalized blob edData).
  unfold bind at 1. rewrite dedupExisting_no_match by exact Hsame. cbn [negb].
  unfold bind at 1. cbn [emit nextId store pending now faults trace].
  unfold bind at 1. cbn [roundTrip faults]. rewrite Hup. cbn [Z.eqb Pos.eqb].
  fold (uploaded (finalized blob edData) uuid (generated n)).
  unfold bind at 1. rewrite updateAttachedDoc_create_run.
  cbn [ret nextId store pending now faults trace creation hd tl map].
  rewrite <- !app_assoc. reflexivity.
Qed.

Lemma creation_adds_one valValue st :
  List.length (fold_left applyWrite (creation valValue) st) = S (List.length st).
Proof.
  unfold creation. cbn [fold_left applyWrite]. unfold onDoc.
  rewrite length_map, length_app. simpl. lia.
Qed.

End Engine.

(** C6 (counterexample): two pending attachments with the same name, size
    and type, no local attachment existing: the merge uploads twice and the
    parent ends with two attachment records. *)
Lemma identical_pending_attachments_are_not_deduplicated :
  let w0 := world [lead "P" "old"] 1000 [] in
  let w := snd (syncDocument isDerived0 upload0 (Some (lead "P" "old")) twoAttachments None w0) in
  sameFile (b_ed (pendingAttachment "a1" "attach-1" "P"))
           (b_ed (pendingAttachment "a2" "attach-2" "P")) = true
  /\ findAllIn isDerived0 (store w0) Ids.Attachment [(["attachedTo"], CEq (VStr "P"))] = []
  /\ List.length (filter isUpload (trace w)) = 2
  /\ List.length (findAllIn isDerived0 (store w) Ids.Attachment
                             [(["attachedTo"], CEq (VStr "P"))]) = 2.
Proof. vm_compute. repeat split. Qed.

End MergeRuns.

Module Reconcile.
Import ObjFacts DiffFacts EmitsFacts MergeFacts MergeRuns Examples.

Lemma findIndex_some {A} (p : A -> bool) l i :
  findIndex p l = Some i -> exists x, nth_error l i = Some x /\ p x = true /\ In x l.
Proof.
  revert i. induction l as [|y l IH]; intros i; simpl; [discriminate|].
  destruct (p y) eqn:Hp.
  - intros [= <-]. exists y. simpl. auto.
  - destruct (findIndex p l) as [j|]; [|discriminate]. intros [= <-].
    destruct (IH j eq_refl) as (x & Hn & Hx & Hin). exists x. simpl. auto.
Qed.

Lemma in_removeAt {A} (l : list A) i x : In x (removeAt i l) -> In x l.
Proof.
  revert i. induction l as [|y l IH]; intros [|i]; simpl; auto.
  intros [->|H]; [now left | right; eauto].
Qed.


Lemma bind_bind {A B C} (c : M A) (k : A -> M B) (h : B -> M C) w :
  bind (bind c k) h w = bind c (fun a => bind (k a) h) w.
Proof. unfold bind. destruct (c w) as [[a|e|] w1]; reflexivity. Qed.

Lemma bind_ext {A B} (c : M A) (k k' : A -> M B) w :
  (forall a w', k a w' = k' a w') -> bind c k w = bind c k' w.
Proof. intros H. unfold bind. destruct (c w) as [[a|e|] w1]; auto. Qed.

Lemma reconcileVals_plan documentId vals pool w :
  reconcileVals documentId pool vals w
  = bind (forEach (fst (plan documentId pool vals)) step)
         (fun _ => ret (snd (plan documentId pool vals))) w.
Proof.
  revert pool w. induction vals as [|v vals IH]; intros pool w; [reflexivity|].
  cbn [reconcileVals plan].
  destruct (findIndex _ pool) as [i|]; cbn [fst snd forEach]; unfold step at 1;
    cbn [fst snd]; rewrite !bind_bind; apply bind_ext; intros a w'; apply IH.
Qed.




(** Handling the pending sub-documents only hands writes to the
    [ApplyOperations]: no exception, the store and the round trips to come
    untouched. *)
Lemma updateDoc_quiet doc raw w :
  exists doc' w', updateDoc doc raw w = (Ok doc', w')
                  /\ store w' = store w /\ faults w' = faults w.
Proof.
  unfold updateDoc. destruct (Nat.ltb _ _); eexists; eexists; split; reflexivity || auto.
Qed.

Lemma updateMixin_quiet p raw mixin w :
  exists w', updateMixin p raw mixin w = (Ok tt, w')
             /\ store w' = store w /\ faults w' = faults w.
Proof.
  unfold updateMixin. destruct (negb _); [eexists; split; reflexivity || auto|].
  destruct (Nat.ltb _ _); eexists; split; reflexivity || auto.
Qed.

Lemma updateAttachedDoc_quiet existing valValue w :
  exists r w', updateAttachedDoc existing valValue w = (Ok r, w')
               /\ store w' = store w /\ faults w' = faults w.
Proof.
  unfold updateAttachedDoc. destruct existing as [e|].
  - unfold bind. destruct (updateDoc_quiet e valValue w) as (e' & w1 & -> & Hs & Hf).
    destruct (updateMixin_quiet (as_ e' Ids.BitrixSyncDoc) (syncTraitOf valValue)
                                Ids.BitrixSyncDoc w1) as (w2 & -> & Hs2 & Hf2).
    eexists; eexists; split; [reflexivity|]. split; congruence.
  - eexists; eexists; split; [reflexivity|]. split; reflexivity.
Qed.


Lemma direct_run op w :
  faults w = [] ->
  direct op w = (Ok tt, mkWorld (applyWrite (store w) op) (pending w) (now w) (nextId w) []
                                (trace w ++ [EvDirect op])).
Proof.
  intros Hf. unfold direct, bind. cbn [emit]. unfold roundTrip. cbn [faults]. rewrite Hf.
  reflexivity.
Qed.


Lemma removed_stays_removed left s e d :
  In e left -> In d (fold_left (fun s d => applyWrite s (Wremove d)) left s) ->
  strictEq (idOf d) (idOf e) = false.
Proof.
  revert s. induction left as [|x left IH]; intros s; [intros []|].
  cbn [fold_left]. intros [->|Hin] Hd.
  - assert (G : forall l s0, In d (fold_left (fun s d => applyWrite s (Wremove d)) l s0) ->
                             In d s0).
    { induction l as [|y l IHl]; intros s0; cbn [fold_left]; [auto|].
      intros H. apply IHl in H. cbn [applyWrite] in H. apply filter_In in H. tauto. }
    apply G in Hd. cbn [applyWrite] in Hd. apply filter_In in Hd as [_ Hd].
    now apply negb_true_iff in Hd.
  - eapply IH; eauto.
Qed.

Lemma strictEq_eq a b : strictEq a b = true -> a = b.
Proof.
  destruct a, b; simpl; try discriminate; intros H; try reflexivity.
  - apply Bool.eqb_prop in H. now subst.
  - apply Z.eqb_eq in H. now subst.
  - apply String.eqb_eq in H. now subst.
Qed.




Lemma updateAttachedDoc_touches e v : Emits (touches e) (updateAttachedDoc (Some e) v).
Proof.
  unfold updateAttachedDoc. apply Emits_bind; [|intros e'; apply Emits_bind;
                                                 [|intros _; apply Emits_ret]].
  - unfold updateDoc. destruct (Nat.ltb _ _); [|apply Emits_ret].
    apply Emits_bind; [|intros _; apply Emits_ret]. apply Emits_issue.
    split; [reflexivity|]. intros Hin. apply in_map_iff in Hin as [[k x] [Hk Hin]].
    simpl in Hk. subst k. apply diffFields_justified in Hin as (_ & Hp & _). discriminate Hp.
  - unfold updateMixin. destruct (negb _); [apply Emits_issue; reflexivity|].
    destruct (Nat.ltb _ _); [apply Emits_issue; reflexivity | apply Emits_ret].
Qed.


(** C2 (failing input): the merge is aborted (the commit is rejected and
    logged): the primary document is not updated and the new comment is not
    created, but the local comment the merge took for an orphan is gone from
    the store, because it was removed on the client and not through the
    transaction. *)
Lemma orphan_removal_survives_aborted_merge :
  let w0 := world parentWithComment 1000 [false; false; false; true] in
  let w := snd (syncDocument isDerived0 upload0 (Some (lead "P" "old"))
                             (withExtraSync (converted "1" "new")
                                            [comment "c-a" "a" "P" "hello"])
                             None w0) in
  In EvCommit (trace w) /\ In (EvLog "rejected") (trace w)
  /\ In (storedComment "c-b" "b" "P" "bye") (store w0)
  /\ store w = [lead "P" "old"].
Proof. vm_compute. repeat split; auto 20. Qed.

End Reconcile.

(* ================================================================= *)
(** ** Running the merge again *)

Module Values.
Import ObjFacts ValueInd.

Lemma find_entry_in {A} k (v : A) o : find_entry k o = Some v -> In (k, v) o.
Proof.
  induction o as [|[k' v'] o IH]; simpl; [discriminate|].
  destruct (String.eqb_spec k k') as [->|Hk]; [intros [= ->]; now left | right; auto].
Qed.

Lemma find_entry_absent {A} k (o : list (string * A)) :
  find_entry k o = None -> ~ In k (map fst o).
Proof.
  induction o as [|[k' v'] o IH]; simpl; [tauto|].
  destruct (String.eqb_spec k k') as [->|Hk]; [discriminate|].
  intros H [Heq|Hin]; [congruence | now apply IH].
Qed.

Lemma noDupKeys_cons {A} k (v : A) o :
  noDupKeys ((k, v) :: o) = true -> find_entry k o = None /\ noDupKeys o = true.
Proof. simpl. destruct (find_entry k o); [discriminate | auto]. Qed.

Lemma noDupKeys_find {A} k (v : A) o :
  noDupKeys o = true -> In (k, v) o -> find_entry k o = Some v.
Proof.
  induction o as [|[k' v'] o IH]; [intros _ []|].
  intros Hnd. apply noDupKeys_cons in Hnd as [Hk' Hnd]. simpl.
  intros [[= -> ->]|Hin].
  - now rewrite String.eqb_refl.
  - destruct (String.eqb_spec k k') as [->|Hk]; [|auto].
    exfalso. eapply find_entry_absent; [exact Hk'|]. apply in_map_iff. now exists (k', v).
Qed.

Lemma noDupKeys_set {A} k (v : A) o : noDupKeys o = true -> noDupKeys (set k v o) = true.
Proof.
  induction o as [|[k' v'] o IH]; [reflexivity|].
  intros Hnd. apply noDupKeys_cons in Hnd as [Hk' Hnd]. simpl.
  destruct (String.eqb_spec k k') as [->|Hk]; simpl.
  - now rewrite Hk'.
  - rewrite find_entry_set_other by auto. rewrite Hk'. auto.
Qed.

Lemma wfValue_obj es :
  wfValue (VObj es) = true ->
  noDupKeys es = true /\ Forall (fun e => wfValue (snd e) = true) es.
Proof.
  cbn [wfValue]. intros H. apply andb_true_iff in H as [Hnd H]. split; [exact Hnd|].
  clear Hnd. induction es as [|[k x] es IH]; [constructor|].
  apply andb_true_iff in H as [Hx H]. constructor; [exact Hx | auto].
Qed.

Lemma wfValue_arr xs :
  wfValue (VArr xs) = true -> Forall (fun x => wfValue x = true) xs.
Proof.
  cbn [wfValue]. induction xs as [|x xs IH]; [constructor|].
  intros H. apply andb_true_iff in H as [Hx H]. constructor; [exact Hx | auto].
Qed.

(** A well-formed value is deep-equal to itself. *)
Lemma deepEqual_refl v : wfValue v = true -> deepEqual v v = true.
Proof.
  induction v as [| |b|n|s|xs IH|es IH] using Value_nested_ind; intros Hwf; cbn [deepEqual].
  - reflexivity.
  - reflexivity.
  - apply Bool.eqb_reflx.
  - apply Z.eqb_refl.
  - apply String.eqb_refl.
  - apply wfValue_arr in Hwf. induction xs as [|x xs IHxs]; [reflexivity|].
    inversion IH; subst. inversion Hwf; subst. apply andb_true_iff. auto.
  - apply wfValue_obj in Hwf as [Hnd Hwf]. rewrite Nat.eqb_refl. cbn [andb].
    assert (G : forall l, incl l es ->
                (fix props (xs : list (string * Value)) : bool :=
                   match xs with
                   | [] => true
                   | (k, x) :: xs' =>
                       match find_entry k es with
                       | Some y => deepEqual x y && props xs'
                       | None => false
                       end
                   end) l = true).
    { induction l as [|[k x] l IHl]; intros Hl; [reflexivity|].
      assert (Hin : In (k, x) es) by (apply Hl; now left).
      erewrite noDupKeys_find by eassumption.
      rewrite Forall_forall in IH, Hwf.
      pose proof (IH _ Hin (Hwf _ Hin)) as Hx. cbn [snd] in Hx. rewrite Hx.
      cbn [andb]. apply IHl.
      intros y Hy. apply Hl. now right. }
    apply G, incl_refl.
Qed.

End Values.

Module Again.
Import ObjFacts DiffFacts EmitsFacts MergeFacts DiffProps MergeRuns Reconcile Values Examples.

Lemma diffStep_taken read acc k v :
  diffStep read acc (k, v) = if taken read k v then set k v acc else acc.
Proof.
  unfold diffStep, taken. destruct (isProtected k); [reflexivity|].
  cbn [negb andb]. destruct (negb _ && _); reflexivity.
Qed.

(** With every key once in [raw], the update holds exactly the entries the
    diff takes. *)
Lemma diffFields_find read raw k :
  noDupKeys raw = true ->
  find_entry k (diffFields read raw)
  = match find_entry k raw with
    | Some v => if taken read k v then Some v else None
    | None => None
    end.
Proof.
  unfold diffFields.
  assert (G : forall l acc,
             noDupKeys l = true ->
             (forall k', In k' (map fst l) -> find_entry k' acc = None) ->
             find_entry k (fold_left (diffStep read) l acc)
             = match find_entry k l with
               | Some v => if taken read k v then Some v else find_entry k acc
               | None => find_entry k acc
               end).
  { induction l as [|[k0 v0] l IH]; intros acc Hnd Hacc; [reflexivity|].
    apply noDupKeys_cons in Hnd as [Hk0 Hnd]. cbn [fold_left].
    rewrite IH; [|exact Hnd|].
    - cbn [find_entry]. rewrite diffStep_taken.
      destruct (String.eqb_spec k k0) as [->|Hk].
      + rewrite Hk0. destruct (taken read k0 v0); [apply find_entry_set_same | reflexivity].
      + destruct (find_entry k l) as [v|];
          destruct (taken read k0 v0); try reflexivity;
            rewrite find_entry_set_other by congruence; reflexivity.
    - intros k' Hk'. rewrite diffStep_taken.
      assert (Hne : k0 <> k').
      { intros <-. eapply find_entry_absent; eauto. }
      destruct (taken read k0 v0);
        [rewrite find_entry_set_other by exact Hne|]; apply Hacc; now right. }
  intros Hnd. rewrite G; [|exact Hnd | reflexivity].
  destruct (find_entry k raw) as [v|]; [|reflexivity]. destruct (taken read k v); reflexivity.
Qed.

Lemma noDupKeys_diffFields read raw : noDupKeys (diffFields read raw) = true.
Proof.
  unfold diffFields. generalize (@nil (string * Value)) (eq_refl : noDupKeys (@nil (string * Value)) = true).
  induction raw as [|[k v] raw IH]; intros acc Hacc; cbn [fold_left]; [exact Hacc|].
  apply IH. rewrite diffStep_taken. destruct (taken read k v); [now apply noDupKeys_set | exact Hacc].
Qed.

Lemma diffFields_nil read raw :
  (forall k v, In (k, v) raw -> taken read k v = false) -> diffFields read raw = [].
Proof.
  unfold diffFields. generalize (@nil (string * Value)).
  induction raw as [|[k v] raw IH]; intros acc H; cbn [fold_left]; [reflexivity|].
  rewrite diffStep_taken, (H k v) by now left. apply IH. intros k' v' Hin. apply H. now right.
Qed.

Lemma get_assign d u k :
  noDupKeys u = true ->
  get k (assign d u) = match find_entry k u with
                       | Some v => v
                       | None => get k d
                       end.
Proof.
  unfold assign. revert d. induction u as [|[k0 v0] u IH]; intros d Hnd; [reflexivity|].
  apply noDupKeys_cons in Hnd as [Hk0 Hnd]. cbn [fold_left fst snd find_entry].
  rewrite IH by exact Hnd.
  destruct (String.eqb_spec k k0) as [->|Hk].
  - rewrite Hk0. apply get_set_same.
  - destruct (find_entry k u); [reflexivity|]. apply get_set_other. congruence.
Qed.

Lemma wfObj_set_id id doc :
  wfObj doc = true ->
  noDupKeys (set "_id" id doc) = true
  /\ forall k v, In (k, v) (set "_id" id doc) -> k = "_id" \/ wfValue v = true.
Proof.
  intros Hwf. apply wfValue_obj in Hwf as [Hnd Hwf]. split; [now apply noDupKeys_set|].
  intros k v Hin. destruct (in_set _ _ _ _ _ Hin) as [[-> _]|Hin']; [now left|].
  right. rewrite Forall_forall in Hwf. exact (Hwf _ Hin').
Qed.

(** The primary document as an update left it gives the same diff nothing
    to take. *)
Lemma diff_after_update d d2 raw :
  noDupKeys raw = true ->
  (forall k v, In (k, v) raw -> isProtected k = true \/ wfValue v = true) ->
  (forall k, In k (keys raw) ->
             get k d2 = get k (applyUpdate d (diffFields (fun k => get k d) raw))) ->
  diffFields (fun k => get k d2) raw = [].
Proof.
  intros Hnd Hwf Hsame. apply diffFields_nil. intros k v Hin.
  unfold taken. destruct (isProtected k) eqn:Hp; [reflexivity|]. cbn [negb andb].
  destruct (notNullish v) eqn:Hn; [|apply andb_false_r]. rewrite andb_true_r.
  apply negb_false_iff.
  assert (Hk : In k (keys raw)) by (apply in_map_iff; now exists (k, v)).
  rewrite (Hsame k Hk). unfold applyUpdate.
  rewrite get_assign by apply noDupKeys_diffFields.
  rewrite diffFields_find by exact Hnd.
  erewrite noDupKeys_find by eassumption.
  unfold taken. rewrite Hp, Hn. cbn [negb andb]. rewrite andb_true_r.
  destruct (deepEqual (get k d) v) eqn:Hd; cbn [negb].
  - exact Hd.
  - apply deepEqual_refl. destruct (Hwf k v Hin) as [H|H]; [congruence | exact H].
Qed.

Lemma issued_nil w : issued [] w = w.
Proof. destruct w. unfold issued. cbn. now rewrite !app_nil_r. Qed.

Lemma issued_app ops1 ops2 w : issued ops2 (issued ops1 w) = issued (ops1 ++ ops2) w.
Proof. unfold issued. cbn. now rewrite map_app, !app_assoc. Qed.

Lemma issue_issued op w : issue op w = (Ok tt, issued [op] w).
Proof. reflexivity. Qed.

Lemma keys_empty (u : Obj) : Nat.ltb 0 (List.length (keys u)) = false -> u = [].
Proof. destruct u; [reflexivity | discriminate]. Qed.

Lemma updateMainDoc_existing d r w :
  let raw := set "_id" (get "_id" d) (document r) in
  let u := diffFields (fun k => get k d) raw in
  updateMainDoc (Some d) r w
  = (Ok (applyUpdate d u, raw),
     if Nat.ltb 0 (List.length (keys u)) then issued [Wupdate d u] w else w).
Proof.
  intros raw u. unfold updateMainDoc. fold raw. unfold bind. rewrite updateDoc_run.
  fold u. cbv zeta. destruct (Nat.ltb _ _) eqn:Hu; [reflexivity|].
  apply keys_empty in Hu. rewrite Hu. reflexivity.
Qed.

Lemma updateMixin_issued p raw mixin w :
  hasMixin (target p) mixin = true ->
  updateMixin p raw mixin w
  = (Ok tt,
     issued (let u := diffFields (proxyGet p) raw in
             if Nat.ltb 0 (List.length (keys u)) then
               [WupdateMixin (proxyGet p "_id") (proxyGet p "_class") (proxyGet p "space")
                             mixin u]
             else []) w).
Proof.
  intros H. unfold updateMixin. rewrite H. cbn [negb]. cbv zeta.
  destruct (Nat.ltb _ _); [reflexivity | now rewrite issued_nil].
Qed.

Lemma updateMixins_run mixins existing resultDoc w :
  updateMixins mixins existing resultDoc w
  = (Ok tt, issued (flat_map (mixinOps existing resultDoc) mixins) w).
Proof.
  unfold updateMixins. revert w.
  induction mixins as [|[m mv] mixins IH]; intros w; cbn [forEach flat_map].
  - cbn [ret]. now rewrite issued_nil.
  - unfold bind at 1.
    assert (Hstep : (if negb (hasMixin existing m)
                     then issue (WcreateMixin (get "_id" resultDoc) (get "_class" resultDoc)
                                              (get "space" resultDoc) m mv
                                              (get "modifiedOn" resultDoc)
                                              (get "modifiedBy" resultDoc))
                     else updateMixin (as_ existing m) mv m) w
                    = (Ok tt, issued (mixinOps existing resultDoc (m, mv)) w)).
    { unfold mixinOps. destruct (hasMixin existing m) eqn:Hm; cbn [negb].
      - now rewrite updateMixin_issued.
      - reflexivity. }
    rewrite Hstep, IH, issued_app. reflexivity.
Qed.

Lemma newEvents_app w w' evs : trace w' = trace w ++ evs -> newEvents w w' = evs.
Proof.
  intros H. unfold newEvents. rewrite H, skipn_app, skipn_all, Nat.sub_diag. reflexivity.
Qed.

Lemma in_skipn {A} n (l : list A) x : In x (skipn n l) -> In x l.
Proof.
  revert l. induction n as [|n IH]; intros [|y l]; cbn; auto.
Qed.

(** What came since [w0] stays when [c] runs. *)
Lemma newEvents_grow (P : Event -> Prop) {A} (c : M A) w0 w e :
  Emits P c -> In e (newEvents w0 w) -> In e (newEvents w0 (snd (c w))).
Proof.
  intros Hc Hin. destruct (Hc w) as (evs & Ht & _). unfold newEvents in *.
  rewrite Ht, skipn_app. apply in_or_app. now left.
Qed.

(** What came since a later world came since an earlier one. *)
Lemma newEvents_since (P : Event -> Prop) {A} (c : M A) w w2 e :
  Emits P c -> In e (newEvents (snd (c w)) w2) -> In e (newEvents w w2).
Proof.
  intros Hc Hin. destruct (Hc w) as (evs & Ht & _). unfold newEvents in *.
  rewrite Ht, length_app, Nat.add_comm, <- skipn_skipn in Hin. eapply in_skipn; eauto.
Qed.

Lemma HasSome_bind_l (P Q : Event -> Prop) {A B} (c : M A) (k : A -> M B) :
  HasSome Q c -> (forall a, Emits P (k a)) -> HasSome Q (bind c k).
Proof.
  intros Hc Hk w. destruct (Hc w) as (e & Hq & Hin). exists e. split; [exact Hq|].
  unfold bind. destruct (c w) as [[a|err|] w1]; cbn [snd] in *; try exact Hin.
  eapply newEvents_grow; eauto.
Qed.

Lemma HasSome_bind_r (P Q : Event -> Prop) {A B} (c : M A) (k : A -> M B) :
  AlwaysOk c -> Emits P c -> (forall a, HasSome Q (k a)) -> HasSome Q (bind c k).
Proof.
  intros Hok Hc Hk w. unfold bind. destruct (Hok w) as (a & w1 & Hrun). rewrite Hrun.
  destruct (Hk a w1) as (e & Hq & Hin). exists e. split; [exact Hq|].
  replace w1 with (snd (c w)) in Hin at 1 by now rewrite Hrun.
  eapply newEvents_since; eauto.
Qed.

Lemma HasSome_try_catch (P Q : Event -> Prop) {A} (body : M A) (handler : string -> M A) :
  HasSome Q body -> (forall err, Emits P (handler err)) -> HasSome Q (try_catch body handler).
Proof.
  intros Hc Hk w. destruct (Hc w) as (e & Hq & Hin). exists e. split; [exact Hq|].
  unfold try_catch. destruct (body w) as [[a|err|] w1]; cbn [snd] in *; try exact Hin.
  eapply newEvents_grow; eauto.
Qed.

Lemma AlwaysOk_issue op : AlwaysOk (issue op).
Proof. intros w. eexists; eexists; reflexivity. Qed.

Lemma AlwaysOk_createDoc c sp attrs id mo mb :
  AlwaysOk (bind (createDoc c sp attrs id mo mb) (fun _ => ret tt)).
Proof. intros w. unfold createDoc. destruct id; eexists; eexists; reflexivity. Qed.

Lemma createDoc_has ed document :
  HasSome (createsExtra ed document)
          (bind (createDoc (get "_class" ed) (get "space" ed) ed (get "_id" ed)
                           (get "modifiedOn" document) (get "modifiedBy" document))
                (fun _ => ret tt)).
Proof.
  intros w. unfold createDoc.
  destruct (get "_id" ed) eqn:Hid;
    (eexists; split; [eexists; reflexivity|];
     erewrite newEvents_app by (cbn; reflexivity); now left).
Qed.

Lemma extraDocs_have eds ed document :
  In ed eds ->
  HasSome (createsExtra ed document)
          (forEach eds (fun ed =>
             bind (createDoc (get "_class" ed) (get "space" ed) ed (get "_id" ed)
                             (get "modifiedOn" document) (get "modifiedBy" document))
                  (fun _ => ret tt))).
Proof.
  induction eds as [|x eds IH]; [intros []|]. intros Hin. cbn [forEach].
  destruct Hin as [->|Hin].
  - eapply HasSome_bind_l with (P := MergeEvent); [apply createDoc_has|].
    intros _. apply Emits_forEach. intros y _. repeat emits_step.
  - apply HasSome_bind_r with (P := MergeEvent);
      [apply AlwaysOk_createDoc | repeat emits_step | intros _; now apply IH].
Qed.

Section Engine.
Variable isDerived : Value -> Value -> bool.
Variable uploadResp : File -> Z * string.

Lemma afterExtraDocs_emits document r :
  Emits MergeEvent
        (bind (forEach (groupByClass (extraSync r)) (reconcileClass isDerived (get "_id" document)))
              (fun _ =>
                 bind (findAll isDerived Ids.Attachment
                               [(["attachedTo"], CEq (get "_id" document))])
                      (fun existingBlobs =>
                         bind (syncBlobs uploadResp existingBlobs (blobs r))
                              (fun _ => commit)))).
Proof.
  apply Emits_bind.
  { apply Emits_forEach. intros entry _. apply reconcileClass_emits. }
  intros _. apply Emits_bind; [repeat emits_step|]. intros existingBlobs.
  apply Emits_bind; [apply syncBlobs_emits|]. intros _. repeat emits_step.
Qed.

Lemma mergeRest_creates_extra existing document r ed :
  In ed (extraDocs r) ->
  HasSome (createsExtra ed document) (mergeRest isDerived uploadResp existing document r).
Proof.
  intros Hin. unfold mergeRest.
  apply HasSome_bind_r with (P := MergeEvent);
    [intros w; eexists; eexists; reflexivity | apply Emits_dateNow |]. intros t.
  apply HasSome_bind_r with (P := MergeEvent);
    [intros w; rewrite updateMixins_run; eexists; eexists; reflexivity
    | apply updateMixins_emits |].
  intros _. eapply HasSome_bind_l; [now apply extraDocs_have|].
  intros _. apply afterExtraDocs_emits.
Qed.

Lemma updateMainDoc_ok existing r w :
  exists m w2, updateMainDoc existing r w = (Ok m, w2).
Proof.
  destruct existing as [d|].
  - rewrite updateMainDoc_existing. eexists; eexists; reflexivity.
  - unfold updateMainDoc, createDoc.
    destruct (get "_id" (document r)); eexists; eexists; reflexivity.
Qed.

(** The first part of the [try] block always gets through. *)
Lemma started_run existing r w :
  exists m w2,
    try_catch (bind (apply "bitrix")
                    (fun _ => bind (updateMainDoc existing r) (fun m => ret (Some m))))
              (fun err => bind (emit (EvLog err)) (fun _ => ret None)) w
    = (Ok (Some m), w2).
Proof.
  unfold try_catch, apply, bind. cbn [emit setPending].
  match goal with |- context [updateMainDoc existing r ?w1] =>
    destruct (updateMainDoc_ok existing r w1) as (m & w2 & ->) end.
  exists m, w2. reflexivity.
Qed.

Lemma started_emits existing r :
  Emits MergeEvent
        (try_catch (bind (apply "bitrix")
                         (fun _ => bind (updateMainDoc existing r) (fun m => ret (Some m))))
                   (fun err => bind (emit (EvLog err)) (fun _ => ret None))).
Proof.
  apply Emits_try_catch; [|intros err; repeat emits_step].
  apply Emits_bind; [repeat emits_step|]. intros _.
  apply Emits_bind; [apply updateMainDoc_emits|]. intros m. apply Emits_ret.
Qed.

Lemma syncDocument_creates_extra existing r ed w :
  In ed (extraDocs r) ->
  exists e, (exists document, createsExtra ed document e)
            /\ In e (newEvents w (snd (syncDocument isDerived uploadResp existing r None w))).
Proof.
  intros Hin. unfold syncDocument. unfold bind at 1.
  destruct (started_run existing r w) as ([existing' document'] & w2 & Hrun). rewrite Hrun.
  assert (H : HasSome (createsExtra ed document')
                      (bind (try_catch (mergeRest isDerived uploadResp existing' document' r)
                                       (fun err => emit (EvLog err)))
                            (fun _ => bind (ret tt)
                                           (fun _ => ret (option_map (fun _ => existing') existing,
                                                          document'))))).
  { eapply HasSome_bind_l with (P := MergeEvent).
    - eapply HasSome_try_catch with (P := MergeEvent);
        [now apply mergeRest_creates_extra | intros err; repeat emits_step].
    - intros _. repeat emits_step. }
  destruct (H w2) as (e & Hq & He). exists e. split; [now exists document'|].
  pose proof (started_emits existing r) as Hst.
  replace w2 with (snd (try_catch
                          (bind (apply "bitrix")
                                (fun _ => bind (updateMainDoc existing r)
                                               (fun m => ret (Some m))))
                          (fun err => bind (emit (EvLog err)) (fun _ => ret None)) w))
    in He at 1 by now rewrite Hrun.
  eapply newEvents_since; eauto.
Qed.

(** With a sync trait whose [syncTime] is not the clock reading, the merge
    writes the trait again, with the reading. *)
Lemma mergeRest_refreshes_syncTime existing document r w :
  hasMixin existing Ids.BitrixSyncDoc = true ->
  deepEqual (proxyGet (as_ existing Ids.BitrixSyncDoc) "syncTime") (VNum (now w)) = false ->
  exists id c sp u,
    In (EvTx (WupdateMixin id c sp Ids.BitrixSyncDoc u))
       (newEvents w (snd (mergeRest isDerived uploadResp existing document r w)))
    /\ In ("syncTime", VNum (now w)) u.
Proof.
  intros Hm Hd. unfold mergeRest. unfold bind at 1. cbn [dateNow].
  unfold bind at 1. rewrite updateMixins_run.
  set (trait := mainSyncTrait document (rawData r) (now w)).
  set (p := as_ existing Ids.BitrixSyncDoc).
  set (u := diffFields (proxyGet p) trait).
  assert (Hu : find_entry "syncTime" u = Some (VNum (now w))).
  { unfold u. rewrite diffFields_find by reflexivity. cbn [trait mainSyncTrait find_entry String.eqb Ascii.eqb Bool.eqb].
    unfold taken. cbn [isProtected]. unfold p. rewrite Hd. reflexivity. }
  assert (Hne : Nat.ltb 0 (List.length (keys u)) = true).
  { destruct u; [discriminate Hu | reflexivity]. }
  exists (proxyGet p "_id"), (proxyGet p "_class"), (proxyGet p "space"), u.
  split; [|now apply find_entry_in].
  match goal with |- In ?e (newEvents _ (snd (?k ?x ?w1))) =>
    apply (@newEvents_grow MergeEvent _ (k x) w w1 e) end.
  - apply Emits_bind.
    { apply Emits_forEach. intros ed _. repeat emits_step. }
    intros _. apply afterExtraDocs_emits.
  - erewrite newEvents_app by (unfold issued; cbn [trace]; reflexivity). apply in_map.
    apply in_flat_map. exists (Ids.BitrixSyncDoc, trait). split.
    + destruct (mixins r) as [|x l] eqn:E.
      * now left.
      * clear E. generalize (x :: l). intros o.
        induction o as [|[k0 v0] o IHo]; cbn [set]; [now left|].
        destruct (String.eqb Ids.BitrixSyncDoc k0) eqn:Ek.
        -- apply String.eqb_eq in Ek. subst k0. now left.
        -- right. exact IHo.
    + unfold mixinOps. rewrite Hm. cbn [negb]. fold p. fold u. rewrite Hne. now left.
Qed.

End Engine.
(** C1 (amended): the primary document as the first run's update left it
    gives a second run with the identical conversion result no field to
    update: the primary-document step issues nothing.  The second run is
    all the same not free of writes: [syncDocument] issues [createDoc] for
    every extra document on every run, and, the sync trait's [syncTime] not
    being the current clock reading, an [updateMixin] of the sync trait
    that carries the new [syncTime]. *)
Theorem second_run_leaves_primary_alone_but_writes :
  (forall d r d2 w w2,
      wfObj (document r) = true ->
      get "_id" d2 = get "_id" d ->
      (forall k, In k (keys (set "_id" (get "_id" d) (document r))) ->
                 get k d2
                 = get k (applyUpdate d (diffFields (fun k => get k d)
                                                    (set "_id" (get "_id" d) (document r))))) ->
      fst (updateMainDoc (Some d) r w)
      = Ok (applyUpdate d (diffFields (fun k => get k d)
                                      (set "_id" (get "_id" d) (document r))),
            set "_id" (get "_id" d) (document r))
      /\ updateMainDoc (Some d2) r w2
         = (Ok (d2, set "_id" (get "_id" d) (document r)), w2))
  /\ (forall isDerived uploadResp existing r ed w,
        In ed (extraDocs r) ->
        exists e, (exists document, createsExtra ed document e)
                  /\ In e (newEvents w (snd (syncDocument isDerived uploadResp
                                                          existing r None w))))
  /\ (forall isDerived uploadResp existing document r w,
        hasMixin existing Ids.BitrixSyncDoc = true ->
        deepEqual (proxyGet (as_ existing Ids.BitrixSyncDoc) "syncTime") (VNum (now w))
        = false ->
        exists id c sp u,
          In (EvTx (WupdateMixin id c sp Ids.BitrixSyncDoc u))
             (newEvents w (snd (mergeRest isDerived uploadResp existing document r w)))
          /\ In ("syncTime", VNum (now w)) u).
Proof.
  split; [|split].
  - intros d r d2 w w2 Hwf Hid Hsame. split.
    + now rewrite updateMainDoc_existing.
    + rewrite updateMainDoc_existing. rewrite Hid.
      destruct (wfObj_set_id (get "_id" d) _ Hwf) as [Hnd Hvals].
      rewrite (@diff_after_update d d2 _ Hnd); [reflexivity | | exact Hsame].
      intros k v Hin. destruct (Hvals k v Hin) as [->|H]; [now left | now right].
  - intros. now apply syncDocument_creates_extra.
  - intros. now apply mergeRest_refreshes_syncTime.
Qed.

Lemma second_run_leaves_primary_alone_but_writes_witness :
  updateMainDoc (Some leadAfterFirstRun) withTag (world (store afterFirstRun) 2000 [])
  = (Ok (leadAfterFirstRun, set "_id" (VStr "P") (document withTag)),
     world (store afterFirstRun) 2000 []).
Proof.
  refine (proj2 (proj1 second_run_leaves_primary_alone_but_writes
                       (lead "P" "old") withTag leadAfterFirstRun
                       (world [lead "P" "old"] 1000 []) (world (store afterFirstRun) 2000 [])
                       _ _ _)).
  - reflexivity.
  - reflexivity.
  - intros k Hin. cbn in Hin.
    repeat (destruct Hin as [<-|Hin]; [reflexivity|]). destruct Hin.
Defined.

(** C1 (counterexample): a second run with the identical conversion result
    on the store as the first run committed it, nothing changed in between:
    it writes the sync trait again, with the new [syncTime], and creates
    the extra document again. *)
Lemma second_run_still_writes :
  let w2 := snd (syncDocument isDerived0 upload0 (Some leadAfterFirstRun) withTag None
                              (world (store afterFirstRun) 2000 [])) in
  pending afterFirstRun = [] /\ In EvCommit (trace afterFirstRun)
  /\ get "_id" leadAfterFirstRun = VStr "P"
  /\ In (EvTx (WupdateMixin (VStr "P") leadClass (VStr "sp") Ids.BitrixSyncDoc
                            [("syncTime", VNum 2000)])) (trace w2)
  /\ In (EvTx (WcreateDoc Ids.TagElement (VStr "sp") tag1 (VStr "t1")
                          VUndefined VUndefined)) (trace w2).
Proof. vm_compute. repeat split; auto 20. Qed.

End Again.

(* ================================================================= *)
(** ** The markup translator: tags in context, links, plain text *)

Module MarkupMore.
Import JsString Markup MarkupFacts MoreExamples MoreProps.
Local Open Scope string_scope.

Lemma processComment_tag (pre t post : string) :
  t <> "" -> noBracket t = true ->
  processComment (pre ++ "[" ++ t ++ "]" ++ post)
  = processComment pre ++ tagReplacement (expandNewlines t) ++ processComment post.
Proof.
  intros Hne Hnb. unfold processComment.
  rewrite !expandNewlines_app.
  change (expandNewlines "[") with "[". change (expandNewlines "]") with "]".
  change ("[" ++ expandNewlines t ++ "]" ++ expandNewlines post)
    with (String "["%char (expandNewlines t ++ "]" ++ expandNewlines post)).
  rewrite replaceTags_before by lia.
  change (String "["%char (expandNewlines t ++ "]" ++ expandNewlines post))
    with ("[" ++ expandNewlines t ++ "]" ++ expandNewlines post).
  rewrite replaceTags_tag
    by (auto using expandNewlines_nonempty, expandNewlines_noBracket).
  reflexivity.
Qed.

Lemma matchTag_not_open (c : ascii) (s : string) :
  Ascii.eqb c "["%char = false -> matchTag (String c s) = None.
Proof.
  intros H. destruct (Ascii.eqb_spec c "["%char) as [|Hc]; [discriminate|].
  destruct c as [[] [] [] [] [] [] [] []]; try reflexivity; congruence.
Qed.

Lemma replaceTags_plain (s : string) : noBracket s = true -> replaceTags 0 s = s.
Proof.
  induction s as [|c s IH]; [reflexivity|].
  rewrite noBracket_cons. intros H. apply andb_true_iff in H as [Hc Hs].
  apply negb_true_iff in Hc. unfold isBracket in Hc. apply orb_false_iff in Hc as [Hc _].
  unfold replaceTags; fold replaceTags.
  rewrite (@matchTag_not_open c s Hc). now rewrite (IH Hs).
Qed.

Lemma append_empty_r (s : string) : s ++ "" = s.
Proof. induction s as [|c s IH]; simpl; [reflexivity | now rewrite IH]. Qed.

(** X1: a well-formed tag (content not empty, free of brackets) is
    replaced where it stands by what the callback gives for its content
    (after the newline rule), whatever text comes before and after; the
    text before and the text after are translated on their own. *)
Theorem tag_is_translated_where_it_stands (pre t post : string) :
  t <> "" -> noBracket t = true ->
  processComment (pre ++ "[" ++ t ++ "]" ++ post)
  = processComment pre ++ tagReplacement (expandNewlines t) ++ processComment post.
Proof. exact (@processComment_tag pre t post). Qed.

Lemma tag_is_translated_where_it_stands_witness :
  processComment ("a[B]c[/B]") = processComment "a" ++ tagReplacement "B" ++ processComment "c[/B]".
Proof.
  apply (@tag_is_translated_where_it_stands "a" "B" "c[/B]"); [discriminate | reflexivity].
Defined.

Lemma tagReplacement_url (h : string) :
  tagReplacement ("URL=" ++ h) = "<a href=" ++ dquote ++ h ++ dquote ++ ">".
Proof. unfold tagReplacement, startsWith. cbn. destruct h; reflexivity. Qed.

(** X2: a link: [[URL=h]text[/URL]] becomes [<a href="h">text'</a>], where
    [text'] is the translation of [text], for every target [h] without
    brackets and newlines (the empty one included) and every [text]. *)
Theorem link_becomes_anchor (h text : string) :
  noBracket h = true -> noNewline h = true ->
  processComment ("[URL=" ++ h ++ "]" ++ text ++ "[/URL]")
  = "<a href=" ++ dquote ++ h ++ dquote ++ ">" ++ processComment text ++ "</a>".
Proof.
  intros Hb Hn.
  change ("[URL=" ++ h ++ "]" ++ text ++ "[/URL]")
    with ("" ++ "[" ++ ("URL=" ++ h) ++ "]" ++ (text ++ "[" ++ "/URL" ++ "]" ++ "")).
  rewrite processComment_tag; [|discriminate|exact Hb].
  rewrite processComment_tag; [|discriminate|reflexivity].
  rewrite expandNewlines_app, (expandNewlines_id _ Hn).
  change (processComment "") with "". change (expandNewlines "URL=") with "URL=".
  change (expandNewlines "/URL") with "/URL".
  change (tagReplacement "/URL") with "</a>".
  rewrite tagReplacement_url.
  cbn [append]. rewrite !append_assoc. cbn [append]. reflexivity.
Qed.

Lemma link_becomes_anchor_witness :
  processComment "[URL=http://x/y?z=1]here[/URL]"
  = "<a href=" ++ dquote ++ "http://x/y?z=1" ++ dquote ++ ">" ++ "here" ++ "</a>".
Proof.
  exact (@link_becomes_anchor "http://x/y?z=1" "here" eq_refl eq_refl).
Defined.

(** X3: text without square brackets only gets the line-break rule: every
    newline is followed by [</br>], nothing else changes; text without
    brackets and without newlines is returned as it is. *)
Theorem plain_text_only_gets_line_breaks (s : string) :
  noBracket s = true ->
  processComment s = replaceAllChar newline (String newline "</br>") s
  /\ (noNewline s = true -> processComment s = s).
Proof.
  intros Hb.
  assert (H : processComment s = expandNewlines s).
  { unfold processComment. apply replaceTags_plain. now apply expandNewlines_noBracket. }
  split; [exact H|]. intros Hn. rewrite H. now apply expandNewlines_id.
Qed.

Lemma plain_text_only_gets_line_breaks_witness :
  processComment "price: 10 < 20" = "price: 10 < 20".
Proof.
  exact (proj2 (@plain_text_only_gets_line_breaks "price: 10 < 20" eq_refl) eq_refl).
Defined.

(** X4: square brackets that form no tag stay as they are: an empty pair
    [[]] anywhere in the text, and an opening bracket that is never closed
    (only bracket-free text follows it). *)
Theorem brackets_that_form_no_tag_stay (pre post t : string) :
  processComment (pre ++ "[]" ++ post) = processComment pre ++ "[]" ++ processComment post
  /\ (noBracket t = true ->
      processComment (pre ++ "[" ++ t) = processComment pre ++ "[" ++ processComment t).
Proof.
  split.
  - unfold processComment. rewrite !expandNewlines_app.
    change (expandNewlines "[]") with "[]".
    change ("[]" ++ expandNewlines post) with (String "["%char ("]" ++ expandNewlines post)).
    rewrite replaceTags_before by lia. reflexivity.
  - intros Hb. unfold processComment. rewrite !expandNewlines_app.
    change (expandNewlines "[") with "[".
    change ("[" ++ expandNewlines t) with (String "["%char (expandNewlines t)).
    rewrite replaceTags_before by lia. f_equal.
    pose proof (expandNewlines_noBracket _ Hb) as Hb'.
    rewrite (replaceTags_plain _ Hb').
    unfold replaceTags; fold replaceTags. rewrite (replaceTags_plain _ Hb').
    replace (matchTag (String "["%char (expandNewlines t))) with (@None string); [reflexivity|].
    cbn [matchTag]. 
    replace (expandNewlines t) with (expandNewlines t ++ "") by apply append_empty_r.
    destruct (expandNewlines t) as [|c u] eqn:E; [reflexivity|].
    assert (Hs : forall a, noBracket a = true -> spanNoBracket a = (a, "")).
    { induction a as [|x a IH]; [reflexivity|]. rewrite noBracket_cons. intros H.
      apply andb_true_iff in H as [Hx Ha]. apply negb_true_iff in Hx.
      cbn [spanNoBracket]. rewrite Hx, (IH Ha). reflexivity. }
    rewrite append_empty_r, (Hs _ Hb'). reflexivity.
Qed.

Lemma brackets_that_form_no_tag_stay_witness :
  processComment ("see [" ++ "1, 2") = processComment "see " ++ "[" ++ processComment "1, 2".
Proof.
  exact (proj2 (@brackets_that_form_no_tag_stay "see " "" "1, 2") eq_refl).
Defined.

(** *** Line breaks in the output *)

Lemma prefix_app (p a b : string) : String.prefix p a = true -> String.prefix p (a ++ b) = true.
Proof.
  revert a. induction p as [|x p IH]; intros a; [intros _; destruct (a ++ b); reflexivity|].
  destruct a as [|y a]; cbn [String.prefix append]; [discriminate|].
  destruct (ascii_dec x y); [apply IH | discriminate].
Qed.

Lemma linesBroken_app (a b : string) :
  linesBroken a = true -> linesBroken b = true -> linesBroken (a ++ b) = true.
Proof.
  intros Ha Hb. induction a as [|c a IH]; [exact Hb|].
  cbn [linesBroken append] in *. apply andb_true_iff in Ha as [Hc Ha].
  rewrite (IH Ha), andb_true_r.
  destruct (Ascii.eqb c newline); [now apply prefix_app | reflexivity].
Qed.

Lemma linesBroken_tail (a b : string) : linesBroken (a ++ b) = true -> linesBroken b = true.
Proof.
  induction a as [|c a IH]; [auto|]. cbn [linesBroken append].
  intros H. apply andb_true_iff in H as [_ H]. auto.
Qed.

Lemma linesBroken_substring n (s : string) :
  linesBroken s = true -> linesBroken (substring n s) = true.
Proof.
  revert s. induction n as [|n IH]; intros s; [destruct s; auto|].
  destruct s as [|c s]; cbn [substring]; [auto|].
  cbn [linesBroken]. intros H. apply andb_true_iff in H as [_ H]. auto.
Qed.

Lemma linesBroken_expandNewlines (s : string) : linesBroken (expandNewlines s) = true.
Proof.
  unfold expandNewlines. induction s as [|c s IH]; [reflexivity|].
  rewrite replaceAllChar_cons. destruct (Ascii.eqb c newline) eqn:Hc.
  - apply linesBroken_app; [reflexivity | exact IH].
  - cbn [linesBroken]. now rewrite Hc, IH.
Qed.

Lemma linesBroken_tagReplacement (args : string) :
  linesBroken args = true -> linesBroken (tagReplacement args) = true.
Proof.
  intros H. unfold tagReplacement.
  repeat match goal with
         | |- context [if ?b then _ else _] => destruct b
         end;
    repeat (apply linesBroken_app; [try reflexivity|]);
    try reflexivity; try exact H; try (apply linesBroken_substring; exact H).
Qed.

Lemma spanNoBracket_spec (a : string) :
  a = fst (spanNoBracket a) ++ snd (spanNoBracket a)
  /\ noBracket (fst (spanNoBracket a)) = true.
Proof.
  induction a as [|c a [IH1 IH2]]; [split; reflexivity|].
  cbn [spanNoBracket]. destruct (isBracket c) eqn:Hc; cbn [fst snd append].
  - split; reflexivity.
  - destruct (spanNoBracket a) as [run after]. cbn [fst snd append] in *.
    split; [now rewrite <- IH1 | rewrite noBracket_cons, Hc, IH2; reflexivity].
Qed.

Lemma matchTag_some (s args : string) :
  matchTag s = Some args ->
  exists post, s = "[" ++ args ++ "]" ++ post /\ args <> "" /\ noBracket args = true.
Proof.
  destruct s as [|x s]; [discriminate|]. cbn [matchTag].
  destruct (Ascii.eqb_spec x "["%char) as [->|Hx].
  - destruct (spanNoBracket_spec s) as [Hs Hnb].
    destruct (spanNoBracket s) as [run after]. cbn [fst snd] in *.
    destruct run as [|c run]; [discriminate|].
    destruct after as [|y post]; [discriminate|].
    destruct (Ascii.eqb_spec y "]"%char) as [->|Hy].
    + intros [= <-]. exists post. split; [now rewrite Hs|]. split; [discriminate | exact Hnb].
    + destruct y as [[] [] [] [] [] [] [] []]; try discriminate. congruence.
  - destruct x as [[] [] [] [] [] [] [] []]; try discriminate. congruence.
Qed.

Lemma prefix_br_before_bracket (x post : string) :
  noBracket x = true ->
  String.prefix "</br>" (x ++ "]" ++ post) = true -> String.prefix "</br>" x = true.
Proof.
  intros Hx H.
  do 5 (destruct x as [|? x];
        [cbn in H; repeat match type of H with
                          | (if ?d then _ else _) = true => destruct d; try discriminate
                          end; discriminate|]).
  cbn in H |- *.
  repeat match type of H with
         | (if ?d then _ else _) = true => destruct d; try discriminate
         end.
  destruct x; reflexivity.
Qed.

Lemma linesBroken_before_bracket (t post : string) :
  noBracket t = true -> linesBroken (t ++ "]" ++ post) = true -> linesBroken t = true.
Proof.
  induction t as [|c t IH]; [reflexivity|].
  rewrite noBracket_cons. intros Hnb H. apply andb_true_iff in Hnb as [_ Hnb].
  cbn [linesBroken append] in *. apply andb_true_iff in H as [Hc H].
  rewrite (IH Hnb H), andb_true_r.
  destruct (Ascii.eqb c newline); [|reflexivity].
  now apply (prefix_br_before_bracket t post).
Qed.

Lemma replaceTags_br (rest : string) :
  replaceTags 0 ("</br>" ++ rest) = "</br>" ++ replaceTags 0 rest.
Proof. reflexivity. Qed.

Lemma prefix_spec (p s : string) : String.prefix p s = true -> exists rest, s = p ++ rest.
Proof.
  revert s. induction p as [|x p IH]; intros s; [exists s; reflexivity|].
  destruct s as [|y s]; cbn [String.prefix]; [discriminate|].
  destruct (ascii_dec x y) as [->|]; [|discriminate].
  intros H. destruct (IH s H) as [rest ->]. exists rest. reflexivity.
Qed.

Lemma replaceTags_linesBroken n :
  forall s, String.length s <= n -> linesBroken s = true ->
            linesBroken (replaceTags 0 s) = true.
Proof.
  induction n as [|n IH]; intros s Hlen Hs.
  - destruct s; [reflexivity | cbn in Hlen; lia].
  - destruct s as [|c rest]; [reflexivity|].
    destruct (matchTag (String c rest)) as [args|] eqn:Hm.
    + destruct (matchTag_some _ Hm) as (post & Heq & Hne & Hnb).
      rewrite Heq in Hs |- *. rewrite replaceTags_tag by assumption.
      assert (Hlen' : String.length post <= n).
      { rewrite Heq in Hlen. cbn [append String.length] in Hlen.
        rewrite !length_append in Hlen. cbn [String.length] in Hlen. lia. }
      change ("[" ++ args ++ "]" ++ post) with (String "["%char (args ++ "]" ++ post)) in Hs.
      cbn [linesBroken] in Hs. apply andb_true_iff in Hs as [_ Hs].
      apply linesBroken_app.
      * apply linesBroken_tagReplacement. now apply (linesBroken_before_bracket args post).
      * apply IH; [exact Hlen'|].
        rewrite <- append_assoc in Hs. now apply linesBroken_tail in Hs.
    + unfold replaceTags; fold replaceTags. rewrite Hm.
      cbn [linesBroken] in Hs |- *. apply andb_true_iff in Hs as [Hc Hs].
      cbn [String.length] in Hlen.
      rewrite (IH rest) by (lia || assumption). rewrite andb_true_r.
      destruct (Ascii.eqb c newline); [|reflexivity].
      destruct (prefix_spec _ _ Hc) as [rest' ->]. rewrite replaceTags_br.
      apply prefix_app. reflexivity.
Qed.

(** X25: in the output of [processComment] every newline is followed by
    [</br>], whatever the comment: inside and outside the tags, and also
    where a tag's content is cut by the translation. *)
Theorem every_newline_of_the_output_is_followed_by_a_break (comment : string) :
  linesBroken (processComment comment) = true.
Proof.
  unfold processComment.
  apply (@replaceTags_linesBroken (String.length (expandNewlines comment))); [lia|].
  apply linesBroken_expandNewlines.
Qed.

End MarkupMore.

(* ================================================================= *)
(** ** The field diff: what [updateDoc] leaves behind *)

Module DiffMore.
Import ObjFacts DiffFacts DiffProps Values Again Examples MoreExamples.

Lemma updateDoc_result doc raw w :
  exists w', updateDoc doc raw w
             = (Ok (applyUpdate doc (diffFields (fun k => get k doc) raw)), w').
Proof.
  rewrite updateDoc_run. cbv zeta. destruct (Nat.ltb _ _) eqn:Hu.
  - eexists. reflexivity.
  - apply keys_empty in Hu. rewrite Hu. eexists. reflexivity.
Qed.

(** X5: after [updateDoc], the document carries every incoming field that is
    not protected and not null or undefined: the incoming value itself when
    it differed from the stored one, else the stored value, which is
    deep-equal to the incoming one. *)
Theorem updateDoc_leaves_the_incoming_values doc raw w k v :
  noDupKeys raw = true -> In (k, v) raw -> isProtected k = false -> notNullish v = true ->
  exists doc' w',
    updateDoc doc raw w = (Ok doc', w')
    /\ (get k doc' = v \/ (get k doc' = get k doc /\ deepEqual (get k doc) v = true)).
Proof.
  intros Hnd Hin Hp Hn. destruct (updateDoc_result doc raw w) as [w' Hrun].
  eexists. exists w'. split; [exact Hrun|].
  unfold applyUpdate. rewrite get_assign by apply noDupKeys_diffFields.
  rewrite diffFields_find by exact Hnd. erewrite noDupKeys_find by eassumption.
  unfold taken. rewrite Hp, Hn. cbn [negb andb]. rewrite andb_true_r.
  destruct (deepEqual (get k doc) v); cbn [negb]; [right; split; reflexivity | now left].
Qed.

Lemma updateDoc_leaves_the_incoming_values_witness :
  exists doc' w',
    updateDoc c4_doc c4_raw (world [] 0 []) = (Ok doc', w')
    /\ (get "name" doc' = VStr "new"
        \/ (get "name" doc' = get "name" c4_doc
            /\ deepEqual (get "name" c4_doc) (VStr "new") = true)).
Proof.
  apply (@updateDoc_leaves_the_incoming_values c4_doc c4_raw (world [] 0 []) "name" (VStr "new"));
    [reflexivity | right; now left | reflexivity | reflexivity].
Defined.

Lemma applyUpdate_protected doc raw k :
  isProtected k = true ->
  get k (applyUpdate doc (diffFields (fun k => get k doc) raw)) = get k doc.
Proof.
  intros Hp. apply get_assign_absent. intros Hin.
  apply in_map_iff in Hin as [[k' v] [Hk Hin]]. simpl in Hk. subst k'.
  apply diffFields_justified in Hin as (_ & Hp' & _). congruence.
Qed.

(** X6: [updateDoc] always returns, and the document it returns has the
    identity, class, space, parent, parent class and modification stamps
    it had: whatever the incoming data says, the protected attributes are
    not changed. *)
Theorem updateDoc_keeps_the_protected_attributes doc raw w :
  exists doc' w',
    updateDoc doc raw w = (Ok doc', w')
    /\ Forall (fun k => get k doc' = get k doc)
              ["_class"; "_id"; "modifiedBy"; "modifiedOn"; "space"; "attachedTo";
               "attachedToClass"].
Proof.
  destruct (updateDoc_result doc raw w) as [w' Hrun].
  eexists. exists w'. split; [exact Hrun|].
  repeat constructor; apply applyUpdate_protected; reflexivity.
Qed.

(** X7: [updateDoc] is idempotent: run again on the document it returned,
    with the same incoming data (an object whose values hold no key
    twice), it issues no write and returns the document unchanged. *)
Theorem updateDoc_again_writes_nothing doc raw w :
  wfObj raw = true ->
  exists doc' w',
    updateDoc doc raw w = (Ok doc', w')
    /\ forall w2, updateDoc doc' raw w2 = (Ok doc', w2).
Proof.
  intros Hwf. destruct (updateDoc_result doc raw w) as [w' Hrun].
  eexists. exists w'. split; [exact Hrun|]. intros w2.
  apply wfValue_obj in Hwf as [Hnd Hvals].
  rewrite updateDoc_run. cbv zeta.
  rewrite (@diff_after_update doc _ raw Hnd); [reflexivity | | reflexivity].
  intros k v Hin. right. rewrite Forall_forall in Hvals. exact (Hvals _ Hin).
Qed.

Lemma updateDoc_again_writes_nothing_witness :
  exists doc' w',
    updateDoc c4_doc c4_raw (world [] 0 []) = (Ok doc', w')
    /\ forall w2, updateDoc doc' c4_raw w2 = (Ok doc', w2).
Proof.
  exact (@updateDoc_again_writes_nothing c4_doc c4_raw (world [] 0 []) eq_refl).
Defined.

End DiffMore.

(* ================================================================= *)
(** ** The merge engine: what reaches the store, and when *)

Module MergeMore.
Import ObjFacts DiffFacts EmitsFacts MergeFacts DiffProps MergeRuns Reconcile Values Again.
Import DiffMore.
Import Examples MoreExamples MoreProps.

(** *** Inside the transaction *)

Lemma txOps_app evs1 evs2 : txOps (evs1 ++ evs2) = txOps evs1 ++ txOps evs2.
Proof.
  induction evs1 as [|e evs1 IH]; [reflexivity|].
  destruct e; cbn [txOps app]; rewrite ?IH; reflexivity.
Qed.

Lemma Buffered_refl w : Buffered w w.
Proof. exists []. cbn. now rewrite !app_nil_r. Qed.

Lemma Buffered_trans w1 w2 w3 : Buffered w1 w2 -> Buffered w2 w3 -> Buffered w1 w3.
Proof.
  intros (evs1 & Ht1 & Hp1 & Hs1) (evs2 & Ht2 & Hp2 & Hs2). exists (evs1 ++ evs2).
  rewrite Ht2, Ht1, Hp2, Hp1, txOps_app, !app_assoc. auto.
Qed.

Lemma Buffers_ret {A} (a : A) : Buffers (ret a).
Proof. intros w. apply Buffered_refl. Qed.

Lemma Buffers_throw {A} e : Buffers (@throw A e).
Proof. intros w. apply Buffered_refl. Qed.

Lemma Buffers_bind {A B} (c : M A) (k : A -> M B) :
  Buffers c -> (forall a, Buffers (k a)) -> Buffers (bind c k).
Proof.
  intros Hc Hk w. unfold bind. pose proof (Hc w) as H.
  destruct (c w) as [[a|e|] w1]; cbn [snd] in *; try exact H.
  eapply Buffered_trans; [exact H | apply Hk].
Qed.

Lemma Buffers_try_catch {A} (body : M A) (handler : string -> M A) :
  Buffers body -> (forall e, Buffers (handler e)) -> Buffers (try_catch body handler).
Proof.
  intros Hc Hk w. unfold try_catch. pose proof (Hc w) as H.
  destruct (body w) as [[a|e|] w1]; cbn [snd] in *; try exact H.
  eapply Buffered_trans; [exact H | apply Hk].
Qed.

Lemma Buffers_emit e : txOps [e] = [] -> Buffers (emit e).
Proof. intros H w. exists [e]. cbn [emit snd trace pending store]. rewrite H, app_nil_r. auto. Qed.

Lemma Buffers_roundTrip : Buffers roundTrip.
Proof.
  intros w. exists []. unfold roundTrip.
  destruct (faults w) as [|[] fl]; cbn; rewrite !app_nil_r; auto.
Qed.

Lemma Buffers_getWorld : Buffers getWorld.
Proof. intros w. apply Buffered_refl. Qed.

Lemma Buffers_dateNow : Buffers dateNow.
Proof. intros w. apply Buffered_refl. Qed.

Lemma Buffers_generateId : Buffers generateId.
Proof. intros w. exists []. cbn. now rewrite !app_nil_r. Qed.

Lemma Buffers_issue op : Buffers (issue op).
Proof. intros w. exists [EvTx op]. cbn. auto. Qed.

Lemma Buffers_remove doc : Buffers (direct (Wremove doc)).
Proof.
  intros w. exists [EvDirect (Wremove doc)]. unfold direct, bind, emit, roundTrip.
  cbn [faults store pending trace now nextId].
  destruct (faults w) as [|[] fl]; cbn; rewrite app_nil_r;
    repeat split; auto; intros d Hd; apply filter_In in Hd; tauto.
Qed.

Lemma Buffers_findAll isDerived c q : Buffers (findAll isDerived c q).
Proof.
  intros w. exists [EvFindAll c q]. unfold findAll, bind, emit, roundTrip.
  cbn [faults store pending trace now nextId].
  destruct (faults w) as [|[] fl]; cbn; rewrite app_nil_r; auto.
Qed.

Lemma Buffers_forEach {A} (xs : list A) (body : A -> M unit) :
  (forall x, Buffers (body x)) -> Buffers (forEach xs body).
Proof.
  intros H. induction xs as [|x xs IH]; cbn [forEach]; [apply Buffers_ret|].
  apply Buffers_bind; [apply H | intros _; exact IH].
Qed.

Lemma Buffers_createDoc c sp attrs id mo mb : Buffers (createDoc c sp attrs id mo mb).
Proof.
  unfold createDoc. apply Buffers_bind.
  - destruct id; try apply Buffers_ret. apply Buffers_generateId.
  - intros id'. apply Buffers_bind; [apply Buffers_issue | intros _; apply Buffers_ret].
Qed.

Ltac buffers_step :=
  first [ apply Buffers_ret | apply Buffers_throw | apply Buffers_roundTrip
        | apply Buffers_getWorld | apply Buffers_dateNow | apply Buffers_generateId
        | apply Buffers_issue | apply Buffers_remove | apply Buffers_findAll
        | apply Buffers_createDoc
        | apply Buffers_emit; reflexivity
        | apply Buffers_bind; [|intros ?]
        | apply Buffers_try_catch; [|intros ?] ].

Lemma updateDoc_buffers doc raw : Buffers (updateDoc doc raw).
Proof. unfold updateDoc. destruct (Nat.ltb _ _); repeat buffers_step. Qed.

Lemma updateMixin_buffers p raw mixin : Buffers (updateMixin p raw mixin).
Proof.
  unfold updateMixin. destruct (negb _); [repeat buffers_step|].
  destruct (Nat.ltb _ _); repeat buffers_step.
Qed.

Lemma updateMixins_buffers mixins existing resultDoc :
  Buffers (updateMixins mixins existing resultDoc).
Proof.
  unfold updateMixins. apply Buffers_forEach. intros [m mv].
  destruct (negb _); [repeat buffers_step | apply updateMixin_buffers].
Qed.

Lemma updateAttachedDoc_buffers existing valValue :
  Buffers (updateAttachedDoc existing valValue).
Proof.
  unfold updateAttachedDoc. destruct existing as [e|].
  - apply Buffers_bind; [apply updateDoc_buffers|]. intros e'.
    apply Buffers_bind; [apply updateMixin_buffers|]. intros _. apply Buffers_ret.
  - repeat buffers_step.
Qed.

Lemma updateMainDoc_buffers existing resultDoc : Buffers (updateMainDoc existing resultDoc).
Proof.
  unfold updateMainDoc. destruct existing as [e|].
  - apply Buffers_bind; [apply updateDoc_buffers|]. intros e'. apply Buffers_ret.
  - repeat buffers_step.
Qed.

Lemma dedupExisting_buffers existingBlobs ed updated :
  Buffers (dedupExisting existingBlobs ed updated).
Proof.
  revert updated. induction existingBlobs as [|e rest IH]; intros updated; cbn [dedupExisting].
  - apply Buffers_ret.
  - destruct (sameFile e ed).
    + destruct (negb updated).
      * apply Buffers_bind; [apply updateAttachedDoc_buffers|]. intros e'.
        apply Buffers_bind; [apply IH|]. intros [u rest']. apply Buffers_ret.
      * apply Buffers_bind; [repeat buffers_step|]. intros _.
        apply Buffers_bind; [apply IH|]. intros [u rest']. apply Buffers_ret.
    + apply Buffers_bind; [apply IH|]. intros [u rest']. apply Buffers_ret.
Qed.

Section Engine.
Variable isDerived : Value -> Value -> bool.
Variable uploadResp : File -> Z * string.

Lemma reconcileVals_buffers documentId pool vals :
  Buffers (reconcileVals documentId pool vals).
Proof.
  revert pool. induction vals as [|v vals IH]; intros pool; cbn [reconcileVals];
    [apply Buffers_ret|].
  destruct (findIndex _ pool) as [i|];
    (apply Buffers_bind; [apply updateAttachedDoc_buffers | intros _; apply IH]).
Qed.

Lemma reconcileClass_buffers documentId entry :
  Buffers (reconcileClass isDerived documentId entry).
Proof.
  destruct entry as [cl vals]. unfold reconcileClass.
  destruct (isDerived cl Ids.AttachedDoc); [|apply Buffers_ret].
  apply Buffers_bind; [apply Buffers_findAll|]. intros pool.
  apply Buffers_bind; [apply reconcileVals_buffers|]. intros left.
  apply Buffers_forEach. intros d. apply Buffers_remove.
Qed.

Lemma syncBlob_buffers existingBlobs blob : Buffers (syncBlob uploadResp existingBlobs blob).
Proof.
  unfold syncBlob. destruct (find _ existingBlobs); [apply Buffers_ret|].
  apply Buffers_bind; [apply Buffers_generateId|]. intros attachmentId.
  apply Buffers_try_catch.
  - apply Buffers_bind; [repeat buffers_step|]. intros _.
    apply Buffers_bind; [apply Buffers_roundTrip|]. intros _.
    apply Buffers_bind; [apply Buffers_dateNow|]. intros t.
    destruct (b_op blob t) as [edData|]; [|repeat buffers_step].
    apply Buffers_bind; [apply dedupExisting_buffers|]. intros [updated existingBlobs'].
    destruct (negb updated); [|apply Buffers_ret].
    apply Buffers_bind; [repeat buffers_step|]. intros _.
    apply Buffers_bind; [apply Buffers_roundTrip|]. intros _.
    destruct (uploadResp edData) as [status uuid].
    destruct (Z.eqb status 200); [|apply Buffers_ret].
    apply Buffers_bind; [apply updateAttachedDoc_buffers|]. intros _. apply Buffers_ret.
  - intros err. repeat buffers_step.
Qed.

Lemma syncBlobs_buffers existingBlobs blobs : Buffers (syncBlobs uploadResp existingBlobs blobs).
Proof.
  revert existingBlobs. induction blobs as [|b blobs IH]; intros existingBlobs;
    cbn [syncBlobs].
  - apply Buffers_ret.
  - apply Buffers_bind; [apply syncBlob_buffers | intros e'; apply IH].
Qed.

(** *** The commit *)

Lemma Atomic_commit : Atomic commit.
Proof.
  intros w. unfold commit, bind, emit, roundTrip. cbn [faults store pending trace now nextId].
  destruct (faults w) as [|[] fl]; cbn [snd setStore setPending getWorld store pending trace].
  - right. exists w, [EvCommit]. repeat split; auto using Buffered_refl.
  - left. exists [EvCommit]. cbn. rewrite app_nil_r. auto.
  - right. exists w, [EvCommit]. repeat split; auto using Buffered_refl.
Qed.

Lemma Atomic_bind {A B} (c : M A) (k : A -> M B) :
  Buffers c -> (forall a, Atomic (k a)) -> Atomic (bind c k).
Proof.
  intros Hc Hk w. unfold bind. pose proof (Hc w) as H.
  destruct (c w) as [[a|e|] w1]; cbn [snd] in *; try (left; exact H).
  destruct (Hk a w1) as [H1|(wm & evs' & H1 & H2)].
  - left. eapply Buffered_trans; eauto.
  - right. exists wm, evs'. split; [eapply Buffered_trans; eauto | exact H2].
Qed.

Lemma Quiet_after w w1 w2 :
  Buffered w w1 \/ Committed w w1 ->
  store w2 = store w1 -> pending w2 = pending w1 ->
  (exists evs, trace w2 = trace w1 ++ evs /\ txOps evs = []) ->
  Buffered w w2 \/ Committed w w2.
Proof.
  intros [H|(wm & evs' & Hb & Hs & Hp & Ht & Hx)] Hs2 Hp2 (evs & Ht2 & Hx2).
  - left. eapply Buffered_trans; [exact H|]. exists evs. rewrite Hx2, app_nil_r, Hs2. auto.
  - right. exists wm, (evs' ++ evs). rewrite Hs2, Hp2, Ht2, Ht, txOps_app, Hx, Hx2, app_assoc.
    auto.
Qed.

Lemma Atomic_then {A B} (c : M A) (k : A -> M B) :
  Atomic c -> (forall a, Quiet (k a)) -> Atomic (bind c k).
Proof.
  intros Hc Hk w. unfold bind. pose proof (Hc w) as H.
  destruct (c w) as [[a|e|] w1]; cbn [snd] in *; try exact H.
  destruct (Hk a w1) as (Hs & Hp & Hev). eapply Quiet_after; eauto.
Qed.

Lemma Atomic_try_catch {A} (body : M A) (handler : string -> M A) :
  Atomic body -> (forall e, Quiet (handler e)) -> Atomic (try_catch body handler).
Proof.
  intros Hc Hk w. unfold try_catch. pose proof (Hc w) as H.
  destruct (body w) as [[a|e|] w1]; cbn [snd] in *; try exact H.
  destruct (Hk e w1) as (Hs & Hp & Hev). eapply Quiet_after; eauto.
Qed.

Lemma Quiet_ret {A} (a : A) : Quiet (ret a).
Proof. intros w. repeat split. exists []. cbn. now rewrite app_nil_r. Qed.

Lemma Quiet_log what : Quiet (emit (EvLog what)).
Proof. intros w. repeat split. exists [EvLog what]. auto. Qed.

Lemma Quiet_bind {A B} (c : M A) (k : A -> M B) :
  Quiet c -> (forall a, Quiet (k a)) -> Quiet (bind c k).
Proof.
  intros Hc Hk w. unfold bind. destruct (Hc w) as (Hs & Hp & evs & Ht & Hx).
  destruct (c w) as [[a|e|] w1]; cbn [snd] in *;
    [|split; [exact Hs|split; [exact Hp|exists evs; now split]]..].
  destruct (Hk a w1) as (Hs' & Hp' & evs' & Ht' & Hx').
  split; [congruence|]. split; [congruence|].
  exists (evs ++ evs'). rewrite Ht', Ht, txOps_app, Hx, Hx', app_assoc. auto.
Qed.

Lemma mergeRest_atomic existing document resultDoc :
  Atomic (mergeRest isDerived uploadResp existing document resultDoc).
Proof.
  unfold mergeRest.
  apply Atomic_bind; [apply Buffers_dateNow|]. intros syncTime.
  apply Atomic_bind; [apply updateMixins_buffers|]. intros _.
  apply Atomic_bind.
  { apply Buffers_forEach. intros ed. repeat buffers_step. }
  intros _. apply Atomic_bind.
  { apply Buffers_forEach. intros entry. apply reconcileClass_buffers. }
  intros _. apply Atomic_bind; [apply Buffers_findAll|]. intros existingBlobs.
  apply Atomic_bind; [apply syncBlobs_buffers|]. intros _. apply Atomic_commit.
Qed.

(** X8: without a monitor, [syncDocument] calls neither the remote service
    nor the conversion, never sleeps, and the only write it makes on the
    client itself, outside the transaction, is the removal of a document;
    every creation and every update goes through the transaction. *)
Theorem merge_writes_go_through_the_transaction existing resultDoc :
  Emits mergeOutside (syncDocument isDerived uploadResp existing resultDoc None).
Proof.
  apply syncDocument_emits; [|discriminate].
  intros e H. destruct H; exact I.
Qed.

Lemma syncDocument_outcome existing r w :
  let w0 := mkWorld (store w) [] (now w) (nextId w) (faults w)
                    (trace w ++ [EvApply "bitrix"]) in
  let w' := snd (syncDocument isDerived uploadResp existing r None w) in
  Buffered w0 w' \/ Committed w0 w'.
Proof.
  intros w0 w'.
  assert (Hstart : exists m w2,
             try_catch (bind (apply "bitrix")
                             (fun _ => bind (updateMainDoc existing r) (fun m => ret (Some m))))
                       (fun err => bind (emit (EvLog err)) (fun _ => ret None)) w
             = (Ok (Some m), w2) /\ Buffered w0 w2).
  { unfold try_catch, apply, bind. cbn [emit setPending].
    match goal with |- context [updateMainDoc existing r ?w1] => change w1 with w0 end.
    pose proof (updateMainDoc_buffers existing r w0) as Hb.
    destruct (updateMainDoc_ok existing r w0) as (m & w2 & Hrun). rewrite Hrun in *.
    exists m, w2. split; [reflexivity | exact Hb]. }
  destruct Hstart as ([existing' document'] & w2 & Hrun & Hb2).
  assert (Hrest : Atomic
            (bind (try_catch (mergeRest isDerived uploadResp existing' document' r)
                             (fun err => emit (EvLog err)))
                  (fun _ => bind (ret tt)
                                 (fun _ => ret (option_map (fun _ => existing') existing,
                                                document'))))).
  { apply Atomic_then.
    - apply Atomic_try_catch; [apply mergeRest_atomic | intros err; apply Quiet_log].
    - intros _. apply Quiet_bind; [apply Quiet_ret | intros _; apply Quiet_ret]. }
  assert (Hw' : w' = snd (bind (try_catch (mergeRest isDerived uploadResp existing' document' r)
                                          (fun err => emit (EvLog err)))
                               (fun _ => bind (ret tt)
                                              (fun _ => ret (option_map (fun _ => existing')
                                                                        existing,
                                                             document'))) w2)).
  { subst w'. unfold syncDocument. unfold bind at 1. rewrite Hrun. reflexivity. }
  rewrite Hw'. destruct (Hrest w2) as [Hb|(wm & evs' & Hbm & Hrest')].
  - left. eapply Buffered_trans; eauto.
  - right. exists wm, evs'. split; [eapply Buffered_trans; eauto | exact Hrest'].
Qed.

(** X9: the store after [syncDocument] holds, of the documents it held, a
    part, unchanged (the rest was removed), and either nothing more, or,
    the commit accepted, all the writes handed to the transaction during
    the run, applied together and in order: no creation and no update
    reaches the store without the others. *)
Theorem transaction_writes_land_together_or_not_at_all existing r w :
  let w' := snd (syncDocument isDerived uploadResp existing r None w) in
  exists kept,
    (forall d, In d kept -> In d (store w))
    /\ (store w' = kept
        \/ (store w' = fold_left applyWrite (txOps (newEvents w w')) kept
            /\ pending w' = [])).
Proof.
  intros w'. destruct (syncDocument_outcome existing r w) as [Hb|Hc]; fold w' in Hb || fold w' in Hc.
  - exists (store w'). split; [|now left]. destruct Hb as (_ & _ & _ & Hin). exact Hin.
  - destruct Hc as (wm & evs' & (evs & Htm & Hpm & Hin) & Hs & Hp & Ht & Hx).
    exists (store wm). split; [exact Hin|]. right. split; [|exact Hp].
    rewrite Hs. f_equal.
    assert (Hnew : newEvents w w' = EvApply "bitrix" :: evs ++ evs').
    { apply newEvents_app. rewrite Ht, Htm. cbn [trace]. now rewrite <- !app_assoc. }
    rewrite Hnew. cbn [txOps]. rewrite txOps_app, Hx, app_nil_r. exact Hpm.
Qed.

(** *** The pending binary attachments *)

Lemma find_some_of {A} (p : A -> bool) (l : list A) x :
  In x l -> p x = true -> exists y, find p l = Some y.
Proof.
  induction l as [|z l IH]; [intros []|]. intros [->|Hin] Hp; cbn [find].
  - rewrite Hp. eauto.
  - destruct (p z); eauto.
Qed.

(** X10: a pending attachment whose remote id is the one of an attachment
    the parent already has is skipped altogether: when this holds of all
    the pending attachments, [syncBlobs] fetches nothing, uploads nothing,
    issues no write and draws no identity; the world is as it was. *)
Theorem attachments_already_there_are_skipped existingBlobs blobs w :
  (forall b, In b blobs ->
             exists e, In e existingBlobs
                       /\ strictEq (bitrixIdOf e) (get "bitrixId" (b_ed b)) = true) ->
  syncBlobs uploadResp existingBlobs blobs w = (Ok tt, w).
Proof.
  induction blobs as [|b blobs IH]; intros H; cbn [syncBlobs]; [reflexivity|].
  destruct (H b (or_introl eq_refl)) as (e & He & Hid).
  destruct (@find_some_of _ (fun it => strictEq (bitrixIdOf it) (get "bitrixId" (b_ed b)))
                          existingBlobs e He Hid) as [y Hy].
  unfold bind, syncBlob. rewrite Hy. cbn [ret]. apply IH.
  intros b' Hb'. apply H. now right.
Qed.

Lemma Settles_ret {A} (a : A) : Settles (ret a).
Proof. intros w. discriminate. Qed.

Lemma Settles_bind {A B} (c : M A) (k : A -> M B) :
  Settles c -> (forall a, Settles (k a)) -> Settles (bind c k).
Proof.
  intros Hc Hk w. unfold bind. pose proof (Hc w) as H.
  destruct (c w) as [[a|e|] w1]; cbn [fst] in *; [apply Hk | discriminate | congruence].
Qed.

Lemma Settles_emit e : Settles (emit e).
Proof. intros w. discriminate. Qed.

Lemma Settles_roundTrip : Settles roundTrip.
Proof. intros w. unfold roundTrip. destruct (faults w) as [|[] fl]; discriminate. Qed.

Lemma Settles_dateNow : Settles dateNow.
Proof. intros w. discriminate. Qed.

Lemma Settles_AlwaysOk {A} (c : M A) : AlwaysOk c -> Settles c.
Proof. intros H w. destruct (H w) as (a & w' & ->). discriminate. Qed.

Lemma AlwaysOk_ret {A} (a : A) : AlwaysOk (ret a).
Proof. intros w. eexists; eexists; reflexivity. Qed.

Lemma AlwaysOk_bind {A B} (c : M A) (k : A -> M B) :
  AlwaysOk c -> (forall a, AlwaysOk (k a)) -> AlwaysOk (bind c k).
Proof.
  intros Hc Hk w. unfold bind. destruct (Hc w) as (a & w1 & ->). apply Hk.
Qed.

Lemma AlwaysOk_try_catch {A} (body : M A) (handler : string -> M A) :
  Settles body -> (forall e, AlwaysOk (handler e)) -> AlwaysOk (try_catch body handler).
Proof.
  intros Hb Hh w. unfold try_catch. pose proof (Hb w) as H.
  destruct (body w) as [[a|e|] w1]; cbn [fst] in *;
    [eexists; eexists; reflexivity | apply Hh | congruence].
Qed.

Lemma updateDoc_AlwaysOk doc raw : AlwaysOk (updateDoc doc raw).
Proof. intros w. rewrite updateDoc_run. cbv zeta. destruct (Nat.ltb _ _); eauto. Qed.

Lemma updateMixin_AlwaysOk p raw mixin : AlwaysOk (updateMixin p raw mixin).
Proof.
  intros w. rewrite updateMixin_run. destruct (negb _); cbv zeta; [eauto|].
  destruct (Nat.ltb _ _); eauto.
Qed.

Lemma updateAttachedDoc_AlwaysOk existing valValue :
  AlwaysOk (updateAttachedDoc existing valValue).
Proof.
  unfold updateAttachedDoc. destruct existing as [e|].
  - apply AlwaysOk_bind; [apply updateDoc_AlwaysOk|]. intros e'.
    apply AlwaysOk_bind; [apply updateMixin_AlwaysOk | intros _; apply AlwaysOk_ret].
  - apply AlwaysOk_bind; [apply AlwaysOk_issue|]. intros _.
    apply AlwaysOk_bind; [apply AlwaysOk_issue | intros _; apply AlwaysOk_ret].
Qed.

Lemma dedupExisting_AlwaysOk existingBlobs ed updated :
  AlwaysOk (dedupExisting existingBlobs ed updated).
Proof.
  revert updated. induction existingBlobs as [|e rest IH]; intros updated; cbn [dedupExisting].
  - apply AlwaysOk_ret.
  - destruct (sameFile e ed).
    + destruct (negb updated).
      * apply AlwaysOk_bind; [apply updateAttachedDoc_AlwaysOk|]. intros e'.
        apply AlwaysOk_bind; [apply IH|]. intros [u rest']. apply AlwaysOk_ret.
      * apply AlwaysOk_bind; [apply AlwaysOk_issue|]. intros _.
        apply AlwaysOk_bind; [apply IH|]. intros [u rest']. apply AlwaysOk_ret.
    + apply AlwaysOk_bind; [apply IH|]. intros [u rest']. apply AlwaysOk_ret.
Qed.

Lemma syncBlob_AlwaysOk existingBlobs blob : AlwaysOk (syncBlob uploadResp existingBlobs blob).
Proof.
  unfold syncBlob. destruct (find _ existingBlobs); [apply AlwaysOk_ret|].
  apply AlwaysOk_bind; [intros w; eexists; eexists; reflexivity|]. intros attachmentId.
  apply AlwaysOk_try_catch.
  - apply Settles_bind; [apply Settles_emit|]. intros _.
    apply Settles_bind; [apply Settles_roundTrip|]. intros _.
    apply Settles_bind; [apply Settles_dateNow|]. intros t.
    destruct (b_op blob t) as [edData|].
    + apply Settles_bind; [apply Settles_AlwaysOk, dedupExisting_AlwaysOk|].
      intros [updated existingBlobs'].
      destruct (negb updated); [|apply Settles_ret].
      apply Settles_bind; [apply Settles_emit|]. intros _.
      apply Settles_bind; [apply Settles_roundTrip|]. intros _.
      destruct (uploadResp edData) as [status uuid].
      destruct (Z.eqb status 200); [|apply Settles_ret].
      apply Settles_bind; [apply Settles_AlwaysOk, updateAttachedDoc_AlwaysOk|].
      intros _. apply Settles_ret.
    + apply Settles_bind; [apply Settles_emit | intros _; apply Settles_ret].
  - intros err. apply AlwaysOk_bind; [intros w; eexists; eexists; reflexivity|].
    intros _. apply AlwaysOk_ret.
Qed.

Lemma syncBlobs_AlwaysOk existingBlobs blobs : AlwaysOk (syncBlobs uploadResp existingBlobs blobs).
Proof.
  revert existingBlobs. induction blobs as [|b blobs IH]; intros existingBlobs; cbn [syncBlobs].
  - apply AlwaysOk_ret.
  - apply AlwaysOk_bind; [apply syncBlob_AlwaysOk | intros l; apply IH].
Qed.

(** X11: no pending attachment can abort the merge: whatever is rejected
    while one is fetched or uploaded, [syncBlobs] returns normally; and a
    rejected fetch is logged and the loop goes on with the next pending
    attachment. *)
Theorem a_failing_attachment_does_not_stop_the_others :
  (forall existingBlobs blobs w,
      exists w', syncBlobs uploadResp existingBlobs blobs w = (Ok tt, w'))
  /\ (forall existingBlobs blob rest s p t n fl tr,
        find (fun it => strictEq (bitrixIdOf it) (get "bitrixId" (b_ed blob))) existingBlobs
        = None ->
        syncBlobs uploadResp existingBlobs (blob :: rest) (mkWorld s p t n (true :: fl) tr)
        = syncBlobs uploadResp existingBlobs rest
                    (mkWorld s p t (S n) fl
                             (tr ++ [EvFetchBlob (b_ed blob); EvLog "rejected"]))).
Proof.
  split.
  - intros existingBlobs blobs w.
    destruct (syncBlobs_AlwaysOk existingBlobs blobs w) as ([] & w' & Hrun). now exists w'.
  - intros existingBlobs blob rest s p t n fl tr Hfind. cbn [syncBlobs].
    unfold bind at 1. unfold syncBlob. rewrite Hfind.
    unfold bind at 1. cbn [generateId nextId store pending now faults trace].
    unfold try_catch. unfold bind at 1. cbn [emit nextId store pending now faults trace].
    unfold bind at 1. cbn [roundTrip faults].
    unfold bind at 1. cbn [emit nextId store pending now faults trace ret].
    rewrite <- app_assoc. reflexivity.
Qed.

(** X12: an upload the blob endpoint answers with a status other than 200
    drops the attachment without a trace in the transaction or the log:
    the bytes were fetched and sent, an identity was drawn, and nothing
    else happened. *)
Theorem a_refused_upload_drops_the_attachment_silently
        existingBlobs blob edData status uuid s p t n tr :
  (forall e, In e existingBlobs ->
             strictEq (bitrixIdOf e) (get "bitrixId" (b_ed blob)) = false) ->
  b_op blob t = Some edData ->
  (forall e, In e existingBlobs -> sameFile e (finalized blob edData) = false) ->
  uploadResp edData = (status, uuid) -> status <> 200%Z ->
  syncBlob uploadResp existingBlobs blob (mkWorld s p t n [] tr)
  = (Ok existingBlobs,
     mkWorld s p t (S n) [] (tr ++ [EvFetchBlob (b_ed blob); EvUpload edData])).
Proof.
  intros Hid Hop Hsame Hup Hst. unfold syncBlob.
  rewrite find_none by exact Hid.
  unfold bind at 1. cbn [generateId nextId store pending now faults trace].
  unfold try_catch. unfold bind at 1. cbn [emit nextId store pending now faults trace].
  unfold bind at 1. cbn [roundTrip faults].
  unfold bind at 1. cbn [dateNow now]. rewrite Hop.
  fold (finalized blob edData).
  unfold bind at 1. rewrite dedupExisting_no_match by exact Hsame. cbn [negb].
  unfold bind at 1. cbn [emit nextId store pending now faults trace].
  unfold bind at 1. cbn [roundTrip faults]. rewrite Hup.
  apply Z.eqb_neq in Hst. rewrite Hst. cbn [ret]. rewrite <- app_assoc. reflexivity.
Qed.

(** *** The sync fields of the primary document *)

Lemma get_remove_same k (o : Obj) : get k (remove k o) = VUndefined.
Proof.
  unfold get, remove. induction o as [|[k' v'] o IH]; cbn [filter find_entry fst]; [reflexivity|].
  destruct (String.eqb k k') eqn:E; cbn [negb find_entry]; [exact IH|]. now rewrite E.
Qed.

Lemma get_remove_other k k' (o : Obj) : k <> k' -> get k' (remove k o) = get k' o.
Proof.
  intros Hne. unfold get, remove.
  induction o as [|[k0 v0] o IH]; cbn [filter find_entry fst]; [reflexivity|].
  destruct (String.eqb_spec k k0) as [->|Hk]; cbn [negb find_entry].
  - destruct (String.eqb_spec k' k0); [congruence | exact IH].
  - destruct (String.eqb k' k0); [reflexivity | exact IH].
Qed.

Lemma withoutSyncFields_get (d : Doc) :
  get "bitrixId" (withoutSyncFields d) = VUndefined
  /\ get "rawData" (withoutSyncFields d) = VUndefined
  /\ forall k, k <> "bitrixId" -> k <> "rawData" -> get k (withoutSyncFields d) = get k d.
Proof.
  unfold withoutSyncFields. split; [|split].
  - rewrite get_remove_other by discriminate. apply get_remove_same.
  - apply get_remove_same.
  - intros k H1 H2. rewrite !get_remove_other by congruence. reflexivity.
Qed.

(** X22: the remote id and the raw data of the primary document are
    stored differently on creation and on update.  A new document is
    created without them (they only go to the sync trait), all its other
    attributes as converted; for an existing document they are compared
    like any other field, so that an incoming remote id or raw data that
    is not null and differs from the document's own attribute of that
    name is written into the document itself. *)
Theorem sync_fields_are_left_out_on_creation_and_written_on_update :
  (forall r w,
      exists id w' attrs,
        updateMainDoc None r w
        = (Ok (set "_id" id (document r), set "_id" id (document r)), w')
        /\ txOps (newEvents w w')
           = [WcreateDoc (get "_class" (document r)) (get "space" (document r)) attrs id
                         (get "modifiedOn" (document r)) (get "modifiedBy" (document r))]
        /\ get "bitrixId" attrs = VUndefined /\ get "rawData" attrs = VUndefined
        /\ forall k, k <> "bitrixId" -> k <> "rawData" -> get k attrs = get k (document r))
  /\ (forall e r w k v,
        k = "bitrixId" \/ k = "rawData" ->
        noDupKeys (document r) = true -> In (k, v) (document r) ->
        notNullish v = true -> deepEqual (get k e) v = false ->
        exists u, txOps (newEvents w (snd (updateMainDoc (Some e) r w))) = [Wupdate e u]
                  /\ In (k, v) u).
Proof.
  split.
  - intros r w. unfold updateMainDoc, createDoc.
    destruct (withoutSyncFields_get (document r)) as (H1 & H2 & H3).
    destruct (get "_id" (document r)) eqn:Hid;
      (eexists; eexists; exists (withoutSyncFields (document r)); split; [reflexivity|];
       split; [erewrite newEvents_app by (cbn; reflexivity); reflexivity | auto]).
  - intros e r w k v Hk Hnd Hin Hn Hd.
    rewrite updateMainDoc_existing.
    set (raw := set "_id" (get "_id" e) (document r)).
    set (u := diffFields (fun k => get k e) raw).
    assert (Hne : k <> "_id") by (destruct Hk as [->| ->]; discriminate).
    assert (Hp : isProtected k = false) by (destruct Hk as [->| ->]; reflexivity).
    assert (Hu : find_entry k u = Some v).
    { unfold u. rewrite diffFields_find by (apply noDupKeys_set; exact Hnd).
      unfold raw. rewrite find_entry_set_other by congruence.
      erewrite noDupKeys_find by eassumption.
      unfold taken. now rewrite Hp, Hd, Hn. }
    assert (Hlen : Nat.ltb 0 (List.length (keys u)) = true).
    { destruct u; [discriminate Hu | reflexivity]. }
    rewrite Hlen. exists u. cbn [snd]. split; [|now apply find_entry_in].
    erewrite newEvents_app by (unfold issued; cbn [trace map]; reflexivity). reflexivity.
Qed.

(** *** Existing attachments with the same name, size and type *)

Lemma touches_no_removal e evs :
  Forall (touches e) evs -> removals evs = [] /\ filter isUpload evs = [].
Proof.
  induction 1 as [|ev evs Hev _ [IH1 IH2]]; [split; reflexivity|].
  destruct ev as [| | | | | | |op| | | |]; try contradiction.
  destruct op; try contradiction; cbn; auto.
Qed.

Lemma removals_app evs1 evs2 : removals (evs1 ++ evs2) = removals evs1 ++ removals evs2.
Proof. unfold removals. apply flat_map_app. Qed.

Lemma dedupExisting_others existingBlobs ed w :
  dedupExisting existingBlobs ed true w
  = (Ok (true, existingBlobs),
     issued (map Wremove (filter (fun e => sameFile e ed) existingBlobs)) w).
Proof.
  revert w. induction existingBlobs as [|e rest IH]; intros w; cbn [dedupExisting filter].
  - cbn [map ret]. now rewrite issued_nil.
  - destruct (sameFile e ed); cbn [negb].
    + unfold bind at 1. rewrite issue_issued. unfold bind. rewrite IH. cbn [ret map].
      now rewrite issued_app.
    + unfold bind. rewrite IH. reflexivity.
Qed.

Lemma dedupExisting_first existingBlobs ed w e1 others :
  filter (fun e => sameFile e ed) existingBlobs = e1 :: others ->
  exists rest',
    dedupExisting existingBlobs ed false w
    = (Ok (true, rest'),
       issued (map Wremove others) (snd (updateAttachedDoc (Some e1) ed w))).
Proof.
  induction existingBlobs as [|e rest IH]; cbn [dedupExisting filter]; [discriminate|].
  destruct (sameFile e ed); cbn [negb].
  - intros [= -> Hrest]. unfold bind at 1.
    destruct (updateAttachedDoc_quiet (Some e1) ed w) as (r0 & w1 & Hrun1 & _ & _).
    rewrite Hrun1. cbn [snd]. unfold bind. rewrite dedupExisting_others, Hrest. cbn [ret].
    eexists. reflexivity.
  - intros Hrest. destruct (IH Hrest) as (rest' & Hrun). unfold bind. rewrite Hrun. cbn [ret].
    eexists. reflexivity.
Qed.

Lemma removals_tx_removes ds : removals (map EvTx (map Wremove ds)) = ds.
Proof.
  induction ds as [|d ds IH]; [reflexivity|].
  cbn [map]. change (EvTx (Wremove d) :: map EvTx (map Wremove ds))
    with ([EvTx (Wremove d)] ++ map EvTx (map Wremove ds)).
  rewrite removals_app, IH. reflexivity.
Qed.

Lemma isUpload_tx ops : filter isUpload (map EvTx ops) = [].
Proof. induction ops as [|op ops IH]; cbn; [reflexivity | exact IH]. Qed.

(** X21: a pending attachment that matches no existing one by remote id,
    while attachments of the parent exist with its name, size and type: the
    bytes are fetched, the first of those attachments is diff-updated (the
    run of [updateAttachedDoc] on it: an update of that attachment that
    leaves its identity alone, and writes of its sync trait), the removal
    of every other one is handed to the transaction, in order, and nothing
    else happens: nothing is uploaded, nothing is created. *)
Theorem attachments_with_the_same_file_are_merged_into_one
        existingBlobs blob edData e1 others s p t n tr :
  (forall e, In e existingBlobs ->
             strictEq (bitrixIdOf e) (get "bitrixId" (b_ed blob)) = false) ->
  b_op blob t = Some edData ->
  filter (fun e => sameFile e (finalized blob edData)) existingBlobs = e1 :: others ->
  let fetched := mkWorld s p t (S n) [] (tr ++ [EvFetchBlob (b_ed blob)]) in
  let updated := snd (updateAttachedDoc (Some e1) (finalized blob edData) fetched) in
  (exists rest',
      syncBlob uploadResp existingBlobs blob (mkWorld s p t n [] tr)
      = (Ok rest', issued (map Wremove others) updated))
  /\ (exists evs, trace updated = trace fetched ++ evs /\ Forall (touches e1) evs
                  /\ removals (newEvents (mkWorld s p t n [] tr)
                                         (issued (map Wremove others) updated)) = others
                  /\ filter isUpload (newEvents (mkWorld s p t n [] tr)
                                                (issued (map Wremove others) updated)) = [])
  /\ store updated = s.
Proof.
  intros Hid Hop Hsame fetched updated. split; [|split].
  - unfold syncBlob. rewrite find_none by exact Hid.
    unfold bind at 1. cbn [generateId nextId store pending now faults trace].
    unfold try_catch. unfold bind at 1. cbn [emit nextId store pending now faults trace].
    unfold bind at 1. cbn [roundTrip faults].
    unfold bind at 1. cbn [dateNow now]. rewrite Hop.
    fold (finalized blob edData). unfold bind at 1. fold fetched.
    destruct (@dedupExisting_first existingBlobs (finalized blob edData) fetched e1 others Hsame)
      as (rest' & Hrun).
    rewrite Hrun. cbn [negb ret]. exists rest'. reflexivity.
  - destruct (updateAttachedDoc_touches e1 (finalized blob edData) fetched) as (evs & Ht & Hall).
    fold updated in Ht. exists evs. split; [exact Ht|]. split; [exact Hall|].
    destruct (touches_no_removal Hall) as [Hr Hu].
    assert (Hnew : newEvents (mkWorld s p t n [] tr) (issued (map Wremove others) updated)
                   = EvFetchBlob (b_ed blob) :: evs ++ map EvTx (map Wremove others)).
    { apply newEvents_app. unfold issued. cbn [trace]. rewrite Ht. unfold fetched. cbn [trace].
      now rewrite <- !app_assoc. }
    rewrite Hnew.
    change (EvFetchBlob (b_ed blob) :: evs ++ map EvTx (map Wremove others))
      with ([EvFetchBlob (b_ed blob)] ++ evs ++ map EvTx (map Wremove others)).
    rewrite !removals_app, !filter_app, Hr, Hu, removals_tx_removes, isUpload_tx.
    split; reflexivity.
  - destruct (updateAttachedDoc_quiet (Some e1) (finalized blob edData) fetched)
      as (r0 & w1 & Hrun1 & Hs & _).
    unfold updated. rewrite Hrun1. cbn [snd]. exact Hs.
Qed.

(** *** The merge as a whole *)

Lemma Settles_forEach {A} (xs : list A) (body : A -> M unit) :
  (forall x, Settles (body x)) -> Settles (forEach xs body).
Proof.
  intros H. induction xs as [|x xs IH]; cbn [forEach]; [apply Settles_ret|].
  apply Settles_bind; [apply H | intros _; exact IH].
Qed.

Lemma Settles_findAll c q : Settles (findAll isDerived c q).
Proof.
  unfold findAll. apply Settles_bind; [apply Settles_emit|]. intros _.
  apply Settles_bind; [apply Settles_roundTrip|]. intros _.
  apply Settles_bind; [intros w; discriminate | intros w; apply Settles_ret].
Qed.

Lemma Settles_direct op : Settles (direct op).
Proof.
  unfold direct. apply Settles_bind; [apply Settles_emit|]. intros _.
  apply Settles_bind; [apply Settles_roundTrip|]. intros _.
  apply Settles_bind; [intros w; discriminate | intros w w1; discriminate].
Qed.

Lemma Settles_commit : Settles commit.
Proof.
  unfold commit. apply Settles_bind; [apply Settles_emit|]. intros _.
  apply Settles_bind; [apply Settles_roundTrip|]. intros _.
  apply Settles_bind; [intros w; discriminate | intros w].
  apply Settles_bind; [intros w1; discriminate | intros _ w1; discriminate].
Qed.

Lemma reconcileVals_AlwaysOk documentId pool vals :
  AlwaysOk (reconcileVals documentId pool vals).
Proof.
  revert pool. induction vals as [|v vals IH]; intros pool; cbn [reconcileVals];
    [apply AlwaysOk_ret|].
  destruct (findIndex _ pool) as [i|];
    (apply AlwaysOk_bind; [apply updateAttachedDoc_AlwaysOk | intros _; apply IH]).
Qed.

Lemma reconcileClass_Settles documentId entry :
  Settles (reconcileClass isDerived documentId entry).
Proof.
  destruct entry as [cl vals]. unfold reconcileClass.
  destruct (isDerived cl Ids.AttachedDoc); [|apply Settles_ret].
  apply Settles_bind; [apply Settles_findAll|]. intros pool.
  apply Settles_bind; [apply Settles_AlwaysOk, reconcileVals_AlwaysOk|]. intros left.
  apply Settles_forEach. intros d. apply Settles_direct.
Qed.

Lemma mergeRest_Settles existing document r :
  Settles (mergeRest isDerived uploadResp existing document r).
Proof.
  unfold mergeRest.
  apply Settles_bind; [apply Settles_dateNow|]. intros syncTime.
  apply Settles_bind.
  { intros w. rewrite updateMixins_run. discriminate. }
  intros _. apply Settles_bind.
  { apply Settles_forEach. intros ed. apply Settles_AlwaysOk, AlwaysOk_createDoc. }
  intros _. apply Settles_bind.
  { apply Settles_forEach. intros entry. apply reconcileClass_Settles. }
  intros _. apply Settles_bind; [apply Settles_findAll|]. intros existingBlobs.
  apply Settles_bind; [apply Settles_AlwaysOk, syncBlobs_AlwaysOk|]. intros _.
  apply Settles_commit.
Qed.

Lemma syncDocument_after_start existing existing' document' r w w2 :
  try_catch (bind (apply "bitrix")
                  (fun _ => bind (updateMainDoc existing r) (fun m => ret (Some m))))
            (fun err => bind (emit (EvLog err)) (fun _ => ret None)) w
  = (Ok (Some (existing', document')), w2) ->
  exists w',
    syncDocument isDerived uploadResp existing r None w
    = (Ok (option_map (fun _ => existing') existing, document'), w').
Proof.
  intros Hstart. unfold syncDocument. unfold bind at 1. rewrite Hstart.
  assert (Hok : AlwaysOk (try_catch (mergeRest isDerived uploadResp existing' document' r)
                                    (fun err => emit (EvLog err)))).
  { apply AlwaysOk_try_catch; [apply mergeRest_Settles|].
    intros err w0. eexists; eexists; reflexivity. }
  unfold bind at 1. destruct (Hok w2) as ([] & w3 & ->).
  exists w3. reflexivity.
Qed.

(** X23: without a monitor, [syncDocument] always returns normally,
    whatever is rejected on the way.  Merged onto an existing local
    document, it answers the converted document with the identity of the
    local one, and the local document with its identity, class and space
    as they were; with no local document, it answers the converted
    document with the identity it had or, when it had none, a generated
    one. *)
Theorem the_merge_returns_with_the_local_identity :
  (forall e r w,
      exists e' w',
        syncDocument isDerived uploadResp (Some e) r None w
        = (Ok (Some e', set "_id" (get "_id" e) (document r)), w')
        /\ get "_id" e' = get "_id" e /\ get "_class" e' = get "_class" e
        /\ get "space" e' = get "space" e)
  /\ (forall r w,
        exists w',
          syncDocument isDerived uploadResp None r None w
          = (Ok (None, set "_id" (match get "_id" (document r) with
                                  | VUndefined => generated (nextId w)
                                  | id => id
                                  end) (document r)), w')).
Proof.
  split.
  - intros e r w.
    set (raw := set "_id" (get "_id" e) (document r)).
    set (u := diffFields (fun k => get k e) raw).
    destruct (@syncDocument_after_start (Some e) (applyUpdate e u) raw r w
                (if Nat.ltb 0 (List.length (keys u))
                 then issued [Wupdate e u]
                             (mkWorld (store w) [] (now w) (nextId w) (faults w)
                                      (trace w ++ [EvApply "bitrix"]))
                 else mkWorld (store w) [] (now w) (nextId w) (faults w)
                              (trace w ++ [EvApply "bitrix"])))
      as [w' Hrun].
    { unfold try_catch, apply, bind. cbn [emit setPending].
      rewrite updateMainDoc_existing. reflexivity. }
    exists (applyUpdate e u), w'. split; [exact Hrun|].
    repeat split; apply applyUpdate_protected; reflexivity.
  - intros r w.
    set (id := match get "_id" (document r) with
               | VUndefined => generated (nextId w)
               | id => id
               end).
    assert (Hstart : exists w2,
               try_catch (bind (apply "bitrix")
                               (fun _ => bind (updateMainDoc None r) (fun m => ret (Some m))))
                         (fun err => bind (emit (EvLog err)) (fun _ => ret None)) w
               = (Ok (Some (set "_id" id (document r), set "_id" id (document r))), w2)).
    { unfold try_catch, apply, bind, updateMainDoc, createDoc, id. cbn [emit setPending].
      destruct (get "_id" (document r)); eexists; reflexivity. }
    destruct Hstart as [w2 Hstart].
    destruct (@syncDocument_after_start None _ _ r w w2 Hstart) as [w' Hrun].
    exists w'. exact Hrun.
Qed.

(** *** The existing sub-documents of a class *)

(** *** The monitor *)

Lemma MergeEvent_not_monitor e : MergeEvent e -> forall t, e <> EvMonitor t.
Proof. intros H t. destruct H; discriminate. Qed.

(** X26: the monitor callback is called exactly once for each merge, as
    its last step, whether the merge went through or failed: with a
    callback that reports to the monitor, [syncDocument] returns normally
    and its trace is the events of the merge, none of them a monitor
    event, followed by the one report. *)
Theorem the_monitor_is_called_once_after_the_merge existing r total w :
  exists evs res w',
    syncDocument isDerived uploadResp existing r
                 (Some (fun _ => emit (EvMonitor total))) w = (Ok res, w')
    /\ trace w' = trace w ++ evs ++ [EvMonitor total]
    /\ Forall (fun e => forall t, e <> EvMonitor t) evs.
Proof.
  unfold syncDocument. unfold bind at 1.
  destruct (started_run existing r w) as ([existing' document'] & w2 & Hrun).
  destruct (started_emits existing r w) as (evs1 & Ht1 & Hall1).
  rewrite Hrun in Ht1 |- *. cbn [snd] in Ht1.
  assert (Hok : AlwaysOk (try_catch (mergeRest isDerived uploadResp existing' document' r)
                                    (fun err => emit (EvLog err)))).
  { apply AlwaysOk_try_catch; [apply mergeRest_Settles|].
    intros err w0. eexists; eexists; reflexivity. }
  assert (Hem : Emits MergeEvent
                      (try_catch (mergeRest isDerived uploadResp existing' document' r)
                                 (fun err => emit (EvLog err)))).
  { apply Emits_try_catch; [apply mergeRest_emits | intros err; repeat emits_step]. }
  unfold bind at 1. destruct (Hem w2) as (evs2 & Ht2 & Hall2).
  destruct (Hok w2) as ([] & w3 & Hrun3). rewrite Hrun3 in Ht2 |- *. cbn [snd] in Ht2.
  unfold bind. cbn [emit ret].
  exists (evs1 ++ evs2). eexists. eexists. split; [reflexivity|].
  cbn [trace]. rewrite Ht2, Ht1, <- !app_assoc. split; [reflexivity|].
  apply Forall_app. split; eapply Forall_impl; try eassumption;
    intros ev Hev; now apply MergeEvent_not_monitor.
Qed.

(** *** The grouping of the pending sub-documents *)

Lemma groupStep_Permutation byClass d :
  Permutation (List.concat (map snd (groupStep byClass d))) (d :: List.concat (map snd byClass)).
Proof.
  unfold groupStep. induction byClass as [|[k0 v0] m IH]; cbn [mapGet mapSet].
  - cbn. apply Permutation_refl.
  - destruct (strictEq (get "_class" d) k0); cbn [map snd List.concat].
    + rewrite <- app_assoc. apply Permutation_sym.
      cbn [app]. apply Permutation_middle.
    + eapply perm_trans; [apply Permutation_app_head, IH|].
      apply Permutation_sym, Permutation_middle.
Qed.

Lemma fold_groupStep_Permutation l acc :
  Permutation (List.concat (map snd (fold_left groupStep l acc))) (l ++ List.concat (map snd acc)).
Proof.
  revert acc. induction l as [|x l IH]; intros acc; cbn [fold_left app];
    [apply Permutation_refl|].
  eapply perm_trans; [apply IH|].
  eapply perm_trans; [apply Permutation_app_head, groupStep_Permutation|].
  apply Permutation_sym, Permutation_middle.
Qed.

(** X29: the grouping of the pending sub-documents by class loses none and
    repeats none: the groups, put together, hold exactly the pending
    sub-documents. *)
Theorem the_groups_hold_each_pending_sub_document_once extraSync :
  Permutation (List.concat (map snd (groupByClass extraSync))) extraSync.
Proof.
  unfold groupByClass. eapply perm_trans; [apply fold_groupStep_Permutation|].
  cbn [map List.concat]. now rewrite app_nil_r.
Qed.

(** *** The pending sub-documents of other classes *)

Lemma mapSet_keys {A} k (v : A) m k' v' :
  In (k', v') (mapSet k v m) -> k' = k \/ exists v'', In (k', v'') m.
Proof.
  induction m as [|[k0 v0] m IH]; cbn [mapSet].
  - intros [[= <- <-]|[]]. now left.
  - destruct (strictEq k k0).
    + intros [[= <- <-]|H]; right; [exists v0; now left | exists v'; now right].
    + intros [[= <- <-]|H]; [right; exists v0; now left|].
      destruct (IH H) as [->|[v'' Hin]]; [now left | right; exists v''; now right].
Qed.

Lemma groupByClass_classes extraSync cl vals :
  In (cl, vals) (groupByClass extraSync) ->
  exists d, In d extraSync /\ get "_class" d = cl.
Proof.
  unfold groupByClass.
  assert (G : forall l acc,
             (forall c vs, In (c, vs) acc -> exists d, In d extraSync /\ get "_class" d = c) ->
             incl l extraSync ->
             forall c vs, In (c, vs) (fold_left groupStep l acc) ->
                          exists d, In d extraSync /\ get "_class" d = c).
  { induction l as [|x l IH]; intros acc Hacc Hl c vs; cbn [fold_left]; [apply Hacc|].
    apply IH; [|intros y Hy; apply Hl; now right].
    intros c' vs' Hin. unfold groupStep in Hin.
    destruct (mapSet_keys _ _ _ _ _ Hin) as [->|[v'' Hin']].
    - exists x. split; [apply Hl; now left | reflexivity].
    - eapply Hacc; eauto. }
  apply G; [intros c vs [] | apply incl_refl].
Qed.

Lemma forEach_nothing {A} (xs : list A) (body : A -> M unit) w :
  (forall x, In x xs -> forall w, body x w = (Ok tt, w)) -> forEach xs body w = (Ok tt, w).
Proof.
  induction xs as [|x xs IH]; intros H; cbn [forEach]; [reflexivity|].
  unfold bind. rewrite H by now left. apply IH. intros y Hy. apply H. now right.
Qed.

(** X13: pending sub-documents of a class that is not an attached-document
    class are dropped: when none of the pending ones is of such a class,
    the reconciliation loop queries nothing, writes nothing and removes
    nothing. *)
Theorem pending_of_other_classes_are_dropped documentId extraSync w :
  (forall d, In d extraSync -> isDerived (get "_class" d) Ids.AttachedDoc = false) ->
  forEach (groupByClass extraSync) (reconcileClass isDerived documentId) w = (Ok tt, w).
Proof.
  intros H. apply forEach_nothing. intros [cl vals] Hin w1.
  destruct (groupByClass_classes _ _ _ Hin) as (d & Hd & <-).
  unfold reconcileClass. now rewrite (H d Hd).
Qed.

End Engine.

Lemma a_failing_attachment_does_not_stop_the_others_witness :
  trace (snd (syncBlobs upload0 []
                        [pendingAttachment "a1" "attach-1" "P";
                         pendingAttachment "a2" "attach-2" "P"]
                        (mkWorld [] [] 1000 0 [true] [])))
  = [EvFetchBlob (b_ed (pendingAttachment "a1" "attach-1" "P")); EvLog "rejected"]
    ++ trace (snd (syncBlobs upload0 [] [pendingAttachment "a2" "attach-2" "P"]
                             (mkWorld [] [] 1000 1 [] []))).
Proof.
  rewrite (proj2 (@a_failing_attachment_does_not_stop_the_others upload0)
                 [] (pendingAttachment "a1" "attach-1" "P")
                 [pendingAttachment "a2" "attach-2" "P"] [] [] 1000%Z 0 [] [] eq_refl).
  reflexivity.
Defined.

Lemma a_refused_upload_drops_the_attachment_silently_witness :
  syncBlob uploadRefused [] (pendingAttachment "a1" "attach-1" "P") (mkWorld [] [] 1000 0 [] [])
  = (Ok [],
     mkWorld [] [] 1000 1 []
             [EvFetchBlob (b_ed (pendingAttachment "a1" "attach-1" "P")); EvUpload report]).
Proof.
  apply (@a_refused_upload_drops_the_attachment_silently
           uploadRefused [] (pendingAttachment "a1" "attach-1" "P") report 503%Z "busy");
    [intros e [] | reflexivity | intros e [] | reflexivity | discriminate].
Defined.

Lemma sync_fields_are_left_out_on_creation_and_written_on_update_witness :
  exists u,
    txOps (newEvents (world [] 0 [])
                     (snd (updateMainDoc (Some (lead "P" "new")) (converted "1" "new")
                                         (world [] 0 []))))
    = [Wupdate (lead "P" "new") u]
    /\ In ("bitrixId", VStr "1") u.
Proof.
  apply (proj2 sync_fields_are_left_out_on_creation_and_written_on_update
               (lead "P" "new") (converted "1" "new") (world [] 0 []) "bitrixId" (VStr "1"));
    [now left | reflexivity | | reflexivity | reflexivity].
  cbn. auto 10.
Defined.

Lemma attachments_with_the_same_file_are_merged_into_one_witness :
  exists rest' u,
    syncBlob upload0 [localAttachment "x1" "P"; localAttachment "x2" "P"]
             (pendingAttachment "a1" "attach-1" "P") (mkWorld [] [] 1000 0 [] [])
    = (Ok rest',
       mkWorld [] [Wupdate (localAttachment "x1" "P") u;
                   WcreateMixin (VStr "x1") Ids.Attachment (VStr "sp") Ids.BitrixSyncDoc
                                (syncTraitOf (finalized (pendingAttachment "a1" "attach-1" "P")
                                                        report))
                                VUndefined VUndefined;
                   Wremove (localAttachment "x2" "P")]
               1000 1 []
               [EvFetchBlob (b_ed (pendingAttachment "a1" "attach-1" "P"));
                EvTx (Wupdate (localAttachment "x1" "P") u);
                EvTx (WcreateMixin (VStr "x1") Ids.Attachment (VStr "sp") Ids.BitrixSyncDoc
                                   (syncTraitOf (finalized (pendingAttachment "a1" "attach-1" "P")
                                                           report))
                                   VUndefined VUndefined);
                EvTx (Wremove (localAttachment "x2" "P"))]).
Proof.
  assert (Hid : forall e, In e [localAttachment "x1" "P"; localAttachment "x2" "P"] ->
                          strictEq (bitrixIdOf e)
                                   (get "bitrixId" (b_ed (pendingAttachment "a1" "attach-1" "P")))
                          = false)
    by (intros e [<-|[<-|[]]]; reflexivity).
  destruct (proj1 (@attachments_with_the_same_file_are_merged_into_one
                     upload0 [localAttachment "x1" "P"; localAttachment "x2" "P"]
                     (pendingAttachment "a1" "attach-1" "P") report
                     (localAttachment "x1" "P") [localAttachment "x2" "P"]
                     [] [] 1000%Z 0 [] Hid eq_refl eq_refl)) as (rest' & Hrun).
  exists rest'. eexists. rewrite Hrun. reflexivity.
Defined.

Lemma pending_of_other_classes_are_dropped_witness :
  forEach (groupByClass [tag1]) (reconcileClass isDerived0 (VStr "P")) (world [tag1] 1000 [])
  = (Ok tt, world [tag1] 1000 []).
Proof.
  apply (@pending_of_other_classes_are_dropped isDerived0).
  intros d [<-|[]]. reflexivity.
Defined.

Lemma attachments_already_there_are_skipped_witness :
  syncBlobs upload0 [storedAttachment "x1" "attach-1" "P"]
            [pendingAttachment "a1" "attach-1" "P"] (world [] 1000 [])
  = (Ok tt, world [] 1000 []).
Proof.
  apply (@attachments_already_there_are_skipped upload0).
  intros b [<-|[]]. exists (storedAttachment "x1" "attach-1" "P").
  split; [now left | reflexivity].
Defined.

End MergeMore.

(* ================================================================= *)
(** ** The orchestration: failures, users, comments *)

Module SyncMore.
Import ObjFacts EmitsFacts MergeFacts NoThrowFacts SyncFacts MergeRuns Reconcile Again.
Import JsString Markup Examples MoreExamples MoreProps MergeMore.

Section Orchestration.
Variable isDerived : Value -> Value -> bool.
Variable uploadResp : File -> Z * string.
Variable remoteCall : string -> Obj -> Obj.
Variable convert : ConvertInput -> M ConvertResult.
Variable dateMillis : Value -> Value.
Variable combineName : Value -> Value -> Value.

Lemma doPerformSync_NoThrow fuel ops extra :
  NoThrow (doPerformSync isDerived uploadResp remoteCall convert dateMillis fuel ops extra).
Proof.
  intros w e. destruct fuel as [|fuel]; cbn [doPerformSync]; [discriminate|].
  unfold doPerformSyncBody. destruct (_ || _); [discriminate|].
  match goal with |- context [try_catchS ?body ?handler ?st w] =>
    assert (Hh : forall err, NoThrowS (handler err))
      by (intros err; apply NoThrowS_lift; apply NoThrow_emit);
    pose proof (@NoThrowS_try_catch _ _ body handler Hh st w) as H;
    destruct (try_catchS body handler st w) as [[[x|e'|] st'] w'] end;
    cbn [fst] in *; [discriminate | exfalso; now apply (H e') | discriminate].
Qed.

(** X14: [doPerformSync] never throws: whatever goes wrong in its loops is
    caught and logged, and what was collected is the answer.  So
    [performSynchronization] throws exactly when its preparation (the
    up-front calls and the user synchronisation) throws. *)
Theorem the_loop_keeps_its_failures_to_itself :
  (forall fuel ops extra w e,
      fst (doPerformSync isDerived uploadResp remoteCall convert dateMillis fuel ops extra w)
      <> Throw e)
  /\ (forall fuel ops w e,
        fst (performSynchronization isDerived uploadResp remoteCall convert dateMillis
                                    combineName fuel ops w) = Throw e
        <-> fst (prepare isDerived remoteCall combineName fuel w) = Throw e).
Proof.
  split; [intros; apply doPerformSync_NoThrow|].
  intros fuel ops w e. unfold performSynchronization, bind.
  destruct (prepare isDerived remoteCall combineName fuel w) as [[extra|e'|] w1]; cbn [fst].
  - split; [|discriminate]. intros H. exfalso. exact (doPerformSync_NoThrow _ _ _ _ H).
  - split; intros [= ->]; reflexivity.
  - split; discriminate.
Qed.

Lemma synchronizeUsersLoop_empty_pages fuel allEmployee totalUsers next w :
  (forall params,
      get "result" (remoteCall "user.search" params) = VArr []
      /\ exists n, get "total" (remoteCall "user.search" params) = VNum n /\ (1 <= n)%Z) ->
  sizeBelow [] totalUsers = true ->
  forall userList,
    fst (synchronizeUsersLoop remoteCall combineName fuel allEmployee [] totalUsers next w)
    <> Ok userList.
Proof.
  intros Hremote. revert totalUsers next w.
  induction fuel as [|fuel IH]; intros totalUsers next w Hsize userList;
    cbn [synchronizeUsersLoop]; [discriminate|].
  rewrite Hsize. unfold bind at 1. unfold remote, bind at 1. cbn [emit].
  unfold bind at 1. unfold roundTrip. cbn [faults].
  destruct (Hremote [("start", next)]) as (Hres & n & Htot & Hn).
  destruct (faults w) as [|[] fl]; cbn [ret fst]; try discriminate;
    (unfold bind at 1; rewrite Hres; cbn [iterate ret];
     unfold bind at 1; cbn [synchronizeUsersPage ret];
     apply IH; rewrite Htot; cbn [sizeBelow List.length]; apply Z.ltb_lt; lia).
Qed.

(** X15: the user synchronisation goes on for as long as the mapping holds
    fewer users than the total the remote service reports: with a service
    that reports a total of one or more and lists no user, it calls again
    and again and never returns. *)
Theorem user_synchronisation_does_not_end_on_empty_pages fuel allEmployee w userList :
  (forall params,
      get "result" (remoteCall "user.search" params) = VArr []
      /\ exists n, get "total" (remoteCall "user.search" params) = VNum n /\ (1 <= n)%Z) ->
  fst (synchronizeUsers remoteCall combineName fuel allEmployee w) <> Ok userList.
Proof.
  intros H. unfold synchronizeUsers. now apply synchronizeUsersLoop_empty_pages.
Qed.

Lemma findOwner_none entityType owners w :
  (forall o, In o owners ->
             exists code, prop "SYMBOL_CODE" o = VStr code
                          /\ toLowerCase code <> entityType) ->
  findOwner entityType owners w = (Ok None, w).
Proof.
  induction owners as [|o owners IH]; intros H; cbn [findOwner]; [reflexivity|].
  destruct (H o (or_introl eq_refl)) as (code & -> & Hne).
  rewrite (proj2 (String.eqb_neq _ _) Hne). apply IH. intros o' Ho'. apply H. now right.
Qed.

Lemma findOwner_not_text entityType owners w :
  (exists o, In o owners /\ forall code, prop "SYMBOL_CODE" o <> VStr code) ->
  Forall (fun o => forall code, prop "SYMBOL_CODE" o = VStr code ->
                                toLowerCase code <> entityType) owners ->
  findOwner entityType owners w = (Throw "TypeError", w).
Proof.
  induction owners as [|o owners IH]; intros (b & Hin & Hb) Hall; [destruct Hin|].
  cbn [findOwner]. inversion Hall as [|? ? Ho Hrest]; subst.
  destruct (prop "SYMBOL_CODE" o) as [| | | |code| |] eqn:E; try reflexivity.
  rewrite (proj2 (String.eqb_neq _ _) (Ho code eq_refl)).
  apply IH; [|exact Hrest]. destruct Hin as [->|Hin]; [|now exists b].
  exfalso. exact (Hb code E).
Qed.

(** X16: with comments enabled, the owner types being objects with a text
    symbol code none of which, in lower case, is the mapping's type without
    its first [crm.], [downloadComments] throws "No owner type found"
    before it calls the remote service: the world is as it was.  When no
    symbol code matches and one of them is not text, the search throws a
    type error instead, also before any call. *)
Theorem comments_without_owner_type_fail_before_any_call
        res ops keys userList owners t w :
  get "type" (mapping ops) = VStr t ->
  Forall (fun o => forall code, prop "SYMBOL_CODE" o = VStr code ->
                                toLowerCase code <> replaceFirst "crm." EmptyString t) owners ->
  downloadComments remoteCall dateMillis res ops keys userList (VArr owners) w
  = (Throw (if forallb (fun o => match prop "SYMBOL_CODE" o with
                                 | VStr _ => true
                                 | _ => false
                                 end) owners
            then ("No owner type found for " ++ replaceFirst "crm." EmptyString t)%string
            else "TypeError"), w).
Proof.
  intros Ht Hown. unfold downloadComments. rewrite Ht.
  unfold bind at 1. cbn [ret]. unfold bind at 1. cbn [asArray ret]. unfold bind at 1.
  destruct (forallb _ owners) eqn:Hall.
  - rewrite findOwner_none; [reflexivity|].
    intros o Ho. rewrite forallb_forall in Hall. specialize (Hall o Ho).
    rewrite Forall_forall in Hown. specialize (Hown o Ho).
    destruct (prop "SYMBOL_CODE" o) as [| | | |code| |]; try discriminate.
    exists code. split; [reflexivity | now apply Hown].
  - rewrite findOwner_not_text; [reflexivity| |exact Hown].
    assert (Hex : existsb (fun o => negb match prop "SYMBOL_CODE" o with
                                         | VStr _ => true
                                         | _ => false
                                         end) owners = true).
    { clear Hown. induction owners as [|o owners IH]; [discriminate|].
      cbn [forallb existsb] in *. apply andb_false_iff in Hall as [H|H].
      - rewrite H. reflexivity.
      - rewrite (IH H). apply orb_true_r. }
    apply existsb_exists in Hex as (o & Ho & Hneg). exists o. split; [exact Ho|].
    intros code E. rewrite E in Hneg. discriminate.
Qed.

(** *** The users of one page *)

Lemma mapGet_mapSet_same {A} k (v : A) m :
  strictEq k k = true -> mapGet k (mapSet k v m) = Some v.
Proof.
  intros Hk. induction m as [|[k0 v0] m IH]; cbn [mapSet mapGet].
  - now rewrite Hk.
  - destruct (strictEq k k0) eqn:E; cbn [mapGet]; rewrite E; [reflexivity | exact IH].
Qed.

Lemma mapGet_mapSet_other {A} k k' (v : A) m :
  strictEq k' k = false -> mapGet k' (mapSet k v m) = mapGet k' m.
Proof.
  intros Hk. induction m as [|[k0 v0] m IH]; cbn [mapSet mapGet].
  - now rewrite Hk.
  - destruct (strictEq k k0) eqn:E; cbn [mapGet].
    + apply strictEq_eq in E. subst k0. now rewrite Hk.
    + now rewrite IH.
Qed.

Lemma mapSet_keeps_mapped k (v : Value) m k' :
  v <> VUndefined ->
  (exists a, mapGet k' m = Some a /\ a <> VUndefined) ->
  exists a, mapGet k' (mapSet k v m) = Some a /\ a <> VUndefined.
Proof.
  intros Hv (a & Ha & Hne). destruct (strictEq k' k) eqn:E.
  - pose proof (strictEq_eq _ _ E) as ->. exists v.
    rewrite mapGet_mapSet_same; [now split|]. exact E.
  - exists a. now rewrite mapGet_mapSet_other.
Qed.

Lemma synchronizeUser_result allEmployee userList u w userList' w' :
  synchronizeUser combineName allEmployee userList u w = (Ok userList', w') ->
  exists a, a <> VUndefined /\ userList' = mapSet (prop "ID" u) a userList.
Proof.
  unfold synchronizeUser. destruct (negb (notNullish u)); [discriminate|].
  fold (accountOf allEmployee u). unfold bind at 1.
  destruct (accountOf allEmployee u) eqn:Hacc;
    try (cbn [ret]; intros [= <- <-]; eexists; split; [|reflexivity]; discriminate).
  unfold bind at 1. cbn [dateNow]. unfold bind at 1.
  destruct (clientCreateDoc _ _ _ w) as [[employeeId|e|] w1]; try discriminate.
  unfold clientCreateDoc at 1. unfold bind at 1. cbn [generateId]. unfold bind at 1.
  destruct (direct _ _) as [[[]|e|] w2]; try discriminate.
  cbn [ret]. intros [= <- <-]. eexists. split; [|reflexivity]. discriminate.
Qed.

(** X17: when the users of a page have been synchronised, every user of the
    page whose ID is a string is in the mapping, with an account that is
    not undefined: the one found by e-mail or the one created. *)
Theorem every_listed_user_is_mapped allEmployee userList us w userList' w' u i :
  synchronizeUsersPage combineName allEmployee userList us w = (Ok userList', w') ->
  In u us -> prop "ID" u = VStr i ->
  exists a, mapGet (VStr i) userList' = Some a /\ a <> VUndefined.
Proof.
  intros Hrun Hin Hid. revert userList w Hrun Hin.
  assert (Hkeep : forall us userList w,
             synchronizeUsersPage combineName allEmployee userList us w = (Ok userList', w') ->
             (exists a, mapGet (VStr i) userList = Some a /\ a <> VUndefined) ->
             exists a, mapGet (VStr i) userList' = Some a /\ a <> VUndefined).
  { induction us0 as [|x us0 IH]; intros ul w0; cbn [synchronizeUsersPage].
    - intros [= <- <-]. auto.
    - unfold bind.
      destruct (synchronizeUser combineName allEmployee ul x w0) as [[ul1|e|] w1] eqn:Hx;
        try discriminate.
      intros Hrest Hm. apply (IH _ _ Hrest).
      destruct (synchronizeUser_result _ _ _ _ Hx) as (a & Ha & ->).
      now apply mapSet_keeps_mapped. }
  induction us as [|x us IH]; intros ul w0; cbn [synchronizeUsersPage]; [intros _ []|].
  unfold bind.
  destruct (synchronizeUser combineName allEmployee ul x w0) as [[ul1|e|] w1] eqn:Hx;
    try discriminate.
  intros Hrest [->|Hin]; [|now apply (IH _ _ Hrest)].
  apply (Hkeep _ _ _ Hrest).
  destruct (synchronizeUser_result _ _ _ _ Hx) as (a & Ha & ->).
  exists a. rewrite Hid. rewrite mapGet_mapSet_same; [now split|].
  cbn [strictEq]. apply String.eqb_refl.
Qed.

Lemma synchronizeUser_run allEmployee userList u w :
  notNullish u = true ->
  faults w = [] ->
  exists userList' w' evs,
    synchronizeUser combineName allEmployee userList u w = (Ok userList', w')
    /\ trace w' = trace w ++ evs /\ faults w' = []
    /\ List.length (filter isCreate evs) = (if isKnown allEmployee u then 0 else 2)%nat.
Proof.
  intros Hu Hf. unfold synchronizeUser, isKnown. rewrite Hu. cbn [negb].
  fold (accountOf allEmployee u). unfold bind at 1.
  destruct (accountOf allEmployee u) eqn:Hacc;
    try (cbn [ret]; eexists; exists w, []; rewrite app_nil_r; repeat split; auto; fail).
  unfold bind at 1. cbn [dateNow]. unfold clientCreateDoc.
  unfold bind at 1. unfold bind at 1. cbn [generateId]. unfold bind at 1.
  rewrite direct_run by exact Hf. cbn [ret].
  unfold bind at 1. cbn [generateId nextId store pending now faults trace]. unfold bind at 1.
  rewrite direct_run by reflexivity. cbn [ret nextId store pending now faults trace].
  eexists. eexists. eexists. split; [reflexivity|].
  cbn [trace faults]. rewrite <- app_assoc. split; [reflexivity|]. split; reflexivity.
Qed.

(** X18: no round trip being rejected and no listed user being [null] or
    [undefined], the user synchronisation of a page creates two documents
    (an employee and an account) for each listed user for whom the
    accounts read before the run hold none with the same e-mail, and
    nothing for the others; a user listed twice, or two users with the
    same unknown e-mail, get two employees and two accounts, the accounts
    being read once. *)
Theorem unknown_users_get_an_employee_and_an_account_each allEmployee userList us w :
  faults w = [] ->
  Forall (fun u => notNullish u = true) us ->
  exists userList' w',
    synchronizeUsersPage combineName allEmployee userList us w = (Ok userList', w')
    /\ List.length (filter isCreate (newEvents w w'))
       = 2 * List.length (filter (fun u => negb (isKnown allEmployee u)) us).
Proof.
  intros Hf Hus.
  assert (G : exists userList' w' evs,
             synchronizeUsersPage combineName allEmployee userList us w = (Ok userList', w')
             /\ trace w' = trace w ++ evs /\ faults w' = []
             /\ List.length (filter isCreate evs)
                = 2 * List.length (filter (fun u => negb (isKnown allEmployee u)) us)).
  { revert userList w Hf. induction Hus as [|x us Hx Hus IH]; intros ul w0 Hf;
      cbn [synchronizeUsersPage].
    - exists ul, w0, []. rewrite app_nil_r. auto.
    - unfold bind.
      destruct (@synchronizeUser_run allEmployee ul x w0 Hx Hf)
        as (ul1 & w1 & evs1 & -> & Ht1 & Hf1 & Hn1).
      destruct (IH ul1 w1 Hf1) as (ul2 & w2 & evs2 & -> & Ht2 & Hf2 & Hn2).
      exists ul2, w2, (evs1 ++ evs2). split; [reflexivity|].
      rewrite Ht2, Ht1, app_assoc. split; [reflexivity|]. split; [exact Hf2|].
      rewrite filter_app, length_app, Hn1, Hn2. cbn [filter].
      destruct (isKnown allEmployee x); cbn [negb List.length]; lia. }
  destruct G as (ul & w' & evs & Hrun & Ht & _ & Hn).
  exists ul, w'. split; [exact Hrun|]. now rewrite (@newEvents_app w w' evs Ht).
Qed.

(** *** A full page of users *)

Lemma mapSet_new {A} k (v : A) m :
  mapGet k m = None -> map fst (mapSet k v m) = map fst m ++ [k].
Proof.
  induction m as [|[k0 v0] m IH]; cbn [mapGet mapSet map fst app]; [reflexivity|].
  destruct (strictEq k k0); [discriminate|]. intros H. cbn [map fst]. now rewrite IH.
Qed.

Lemma mapGet_absent {A} i (m : list (Value * A)) :
  ~ In (VStr i) (map fst m) -> mapGet (VStr i) m = None.
Proof.
  induction m as [|[k0 v0] m IH]; cbn [mapGet map fst]; [reflexivity|].
  intros H. destruct (strictEq (VStr i) k0) eqn:E.
  - apply strictEq_eq in E. subst k0. exfalso. apply H. now left.
  - apply IH. intros Hin. apply H. now right.
Qed.

Lemma prop_text_notNullish k u i : prop k u = VStr i -> notNullish u = true.
Proof. destruct u; cbn; try discriminate; reflexivity. Qed.

Lemma synchronizeUser_full allEmployee userList u w :
  notNullish u = true ->
  faults w = [] ->
  exists a w' evs,
    synchronizeUser combineName allEmployee userList u w
    = (Ok (mapSet (prop "ID" u) a userList), w')
    /\ trace w' = trace w ++ evs /\ faults w' = []
    /\ Forall (fun e => isCreate e = true) evs.
Proof.
  intros Hu Hf. unfold synchronizeUser. rewrite Hu. cbn [negb].
  fold (accountOf allEmployee u). unfold bind at 1.
  destruct (accountOf allEmployee u) eqn:Hacc;
    try (cbn [ret]; eexists; exists w, []; rewrite app_nil_r; repeat split; auto; fail).
  unfold bind at 1. cbn [dateNow]. unfold clientCreateDoc.
  unfold bind at 1. unfold bind at 1. cbn [generateId]. unfold bind at 1.
  rewrite direct_run by exact Hf. cbn [ret].
  unfold bind at 1. cbn [generateId nextId store pending now faults trace]. unfold bind at 1.
  rewrite direct_run by reflexivity. cbn [ret nextId store pending now faults trace].
  eexists. eexists. eexists. split; [reflexivity|].
  cbn [trace faults]. rewrite <- app_assoc. split; [reflexivity|]. split; [reflexivity|].
  repeat constructor.
Qed.

Lemma synchronizeUsersPage_keys allEmployee ids :
  forall us userList w,
    map (prop "ID") us = map VStr ids -> NoDup ids ->
    (forall i, In i ids -> ~ In (VStr i) (map fst userList)) ->
    faults w = [] ->
    exists userList' w' evs,
      synchronizeUsersPage combineName allEmployee userList us w = (Ok userList', w')
      /\ map fst userList' = map fst userList ++ map VStr ids /\ faults w' = []
      /\ trace w' = trace w ++ evs /\ Forall (fun e => isCreate e = true) evs.
Proof.
  induction ids as [|i ids IH]; intros us userList w Hids Hnd Hnew Hf.
  - destruct us; [|discriminate]. exists userList, w, []. cbn [synchronizeUsersPage ret map].
    rewrite !app_nil_r. auto.
  - destruct us as [|u us]; [discriminate|]. cbn [map] in Hids. injection Hids as Hu Hids.
    inversion Hnd as [|? ? Hi Hnd']; subst. cbn [synchronizeUsersPage]. unfold bind.
    destruct (@synchronizeUser_full allEmployee userList u w (prop_text_notNullish _ _ Hu) Hf)
      as (a & w1 & evs1 & Hrun1 & Ht1 & Hf1 & Hall1).
    rewrite Hrun1.
    assert (Hkeys1 : map fst (mapSet (prop "ID" u) a userList) = map fst userList ++ [VStr i]).
    { rewrite Hu. apply mapSet_new, mapGet_absent, Hnew. now left. }
    destruct (IH us (mapSet (prop "ID" u) a userList) w1 Hids Hnd')
      as (ul2 & w2 & evs2 & Hrun2 & Hkeys2 & Hf2 & Ht2 & Hall2); [|exact Hf1|].
    { intros j Hj Hin. rewrite Hkeys1 in Hin. apply in_app_or in Hin as [Hin|[[= ->]|[]]].
      - apply (Hnew j); [now right | exact Hin].
      - contradiction. }
    exists ul2, w2, (evs1 ++ evs2). split; [exact Hrun2|]. split.
    { rewrite Hkeys2, Hkeys1, <- app_assoc. reflexivity. }
    split; [exact Hf2|]. rewrite Ht2, Ht1, app_assoc. split; [reflexivity|].
    now apply Forall_app.
Qed.

(** X30: when the remote service lists on its first page as many users as
    the total it reports, their IDs being distinct strings, and no round
    trip is rejected, the user synchronisation makes one call and returns:
    the mapping holds exactly the listed IDs, in order, and beyond the
    one call only documents were created. *)
Theorem user_synchronisation_ends_after_a_full_page fuel allEmployee us ids w :
  get "result" (remoteCall "user.search" [("start", VNum 0)]) = VArr us ->
  get "total" (remoteCall "user.search" [("start", VNum 0)])
  = VNum (Z.of_nat (List.length us)) ->
  map (prop "ID") us = map VStr ids -> NoDup ids ->
  faults w = [] ->
  exists userList w' evs,
    synchronizeUsers remoteCall combineName (S (S fuel)) allEmployee w = (Ok userList, w')
    /\ map fst userList = map VStr ids
    /\ trace w' = trace w ++ EvRemote "user.search" [("start", VNum 0)] :: evs
    /\ Forall (fun e => isCreate e = true) evs.
Proof.
  intros Hres Htot Hids Hnd Hf. unfold synchronizeUsers.
  cbn [synchronizeUsersLoop sizeBelow List.length Z.of_nat Z.ltb Z.compare].
  unfold bind at 1. unfold remote, bind at 1. cbn [emit].
  unfold bind at 1. unfold roundTrip. cbn [faults]. rewrite Hf. cbn [ret].
  unfold bind at 1. rewrite Hres. cbn [iterate ret]. unfold bind at 1.
  match goal with |- context [synchronizeUsersPage _ _ [] us ?w1] =>
    destruct (@synchronizeUsersPage_keys allEmployee ids us [] w1 Hids Hnd)
      as (ul & w' & evs & Hrun & Hkeys & Hf' & Ht & Hall);
      [intros i _ [] | reflexivity |] end.
  rewrite Hrun, Htot.
  assert (Hlen : List.length ul = List.length us).
  { pose proof (f_equal (@List.length _) Hkeys) as H1.
    pose proof (f_equal (@List.length _) Hids) as H2.
    cbn [map app] in H1. rewrite !length_map in H1, H2. congruence. }
  cbn [sizeBelow]. rewrite Hlen, Z.ltb_irrefl. cbn [ret].
  exists ul, w', evs. split; [reflexivity|]. split; [exact Hkeys|].
  cbn [trace] in Ht. rewrite Ht, <- app_assoc. split; [reflexivity | exact Hall].
Qed.

(** *** The comments of a record *)

Lemma commentFile_run ops userList it (c : Doc) newBlobs v w :
  notNullish v = true ->
  exists m b w',
    commentFile dateMillis ops userList it (c, newBlobs) v w
    = (Ok (set "attachments" (match get "attachments" c with
                              | VNum n => VNum (n + 1)
                              | _ => VNum 1
                              end) (set "message" (VStr m) c),
           newBlobs ++ [b]), w')
    /\ get "attachedTo" (b_ed b) = get "_id" c
    /\ get "_class" (b_ed b) = Ids.Attachment.
Proof.
  intros Hv. unfold commentFile. rewrite Hv. cbn [negb].
  unfold bind. cbn [generateId dateNow ret].
  eexists. eexists. eexists. split; [reflexivity|]. split; reflexivity.
Qed.

Lemma commentFiles_run ops userList it files :
  Forall (fun kv => notNullish (snd kv) = true) files ->
  forall (c : Doc) newBlobs w n,
    get "attachments" c = VNum n ->
    exists c' more w',
      commentFiles dateMillis ops userList it (c, newBlobs) files w
      = (Ok (c', newBlobs ++ more), w')
      /\ List.length more = List.length files
      /\ get "attachments" c' = VNum (n + Z.of_nat (List.length files))
      /\ (forall k, k <> "attachments" -> k <> "message" -> get k c' = get k c)
      /\ Forall (fun b => get "attachedTo" (b_ed b) = get "_id" c
                          /\ get "_class" (b_ed b) = Ids.Attachment) more.
Proof.
  induction 1 as [|[name v] files Hv Hfiles IH]; intros c newBlobs w n Hn; cbn [commentFiles].
  - exists c, [], w. rewrite app_nil_r, Z.add_0_r. cbn [ret List.length]. auto.
  - unfold bind.
    destruct (@commentFile_run ops userList it c newBlobs v w Hv)
      as (m & b & w1 & -> & Hb1 & Hb2).
    cbv beta iota. rewrite Hn.
    set (c1 := set "attachments" (VNum (n + 1)) (set "message" (VStr m) c)).
    assert (Hn1 : get "attachments" c1 = VNum (n + 1)) by apply get_set_same.
    assert (Hk : forall k, k <> "attachments" -> k <> "message" -> get k c1 = get k c).
    { intros k H1 H2. unfold c1. rewrite !get_set_other by congruence. reflexivity. }
    destruct (IH c1 (newBlobs ++ [b]) w1 (n + 1)%Z Hn1)
      as (c' & more & w' & Hrun & Hl & Ha & Hkeep & Hall).
    rewrite <- app_assoc in Hrun.
    exists c', (b :: more), w'. split; [exact Hrun|].
    split; [cbn [List.length]; now rewrite Hl|].
    split; [rewrite Ha; f_equal; cbn [List.length]; lia|].
    split; [intros k H1 H2; rewrite Hkeep by assumption; now apply Hk|].
    constructor; [now split|].
    eapply Forall_impl; [|exact Hall]. cbn beta. intros b' [H1 H2].
    split; [rewrite H1; apply Hk; discriminate | exact H2].
Qed.

(** X19: a remote comment whose text is a string and none of whose
    [FILES] entries is [null] or [undefined] becomes one pending comment,
    appended to the pending sub-documents, and one pending binary
    attachment for each file, appended to the pending attachments: the
    comment is attached to the converted document and carries the remote
    id, its attachment counter is the number of files, and every new
    pending attachment is attached to the new comment.  The conversion
    result is otherwise as it was.  ([fs] are the entries of [FILES]: of
    an object, or none when [FILES] is absent.) *)
Theorem a_remote_comment_becomes_one_pending_comment ops userList res it text fs w :
  prop "COMMENT" it = VStr text -> entries (prop "FILES" it) = fs ->
  Forall (fun kv => notNullish (snd kv) = true) fs ->
  exists c more w',
    remoteComment dateMillis ops userList res it w
    = (Ok (mkConvertResult (document res) (rawData res) (mixins res) (extraDocs res)
                           (extraSync res ++ [c]) (blobs res ++ more)), w')
    /\ get "_class" c = Ids.Comment /\ get "bitrixId" c = prop "ID" it
    /\ get "attachedTo" c = get "_id" (document res)
    /\ get "attachments" c = VNum (Z.of_nat (List.length fs))
    /\ List.length more = List.length fs
    /\ Forall (fun b => get "attachedTo" (b_ed b) = get "_id" c
                        /\ get "_class" (b_ed b) = Ids.Attachment) more.
Proof.
  intros Htext Hfiles Hfs. unfold remoteComment. rewrite Htext, Hfiles.
  unfold bind at 1. cbn [generateId]. unfold bind at 1. cbn [ret].
  unfold bind at 1. cbn [dateNow]. unfold bind at 1.
  match goal with |- context [commentFiles _ _ _ _ (?c0, _) fs ?w1] =>
    destruct (@commentFiles_run ops userList it fs Hfs c0 [] w1 0%Z eq_refl)
      as (c' & more & w' & -> & Hl & Ha & Hkeep & Hall);
    assert (Hc0 : get "_class" c0 = Ids.Comment /\ get "bitrixId" c0 = prop "ID" it
                  /\ get "attachedTo" c0 = get "_id" (document res))
      by (repeat split; reflexivity);
    assert (Hid : get "_id" c' = get "_id" c0) by (apply Hkeep; discriminate)
  end.
  destruct Hc0 as (H1 & H2 & H3).
  exists c', more, w'. cbn [app ret]. split; [reflexivity|].
  rewrite !Hkeep by discriminate.
  repeat split; auto.
  eapply Forall_impl; [|exact Hall]. cbn beta. intros b [Hb1 Hb2]. split; congruence.
Qed.

(** *** The limit *)

Lemma bindS_liftS_post {S A B} (P : Res B * S * World -> Prop)
      (c : M A) (k : A -> ST S B) st w :
  (forall a w1, c w = (Ok a, w1) -> P (k a st w1)) ->
  (forall e w1, c w = (Throw e, w1) -> P (Throw e, st, w1)) ->
  (forall w1, c w = (Diverge, w1) -> P (Diverge, st, w1)) ->
  P (bindS (liftS c) k st w).
Proof. unfold bindS, liftS. destruct (c w) as [[a|e|] w1]; auto. Qed.

Lemma try_catchS_post {S A} (P : Res A * S * World -> Prop)
      (body : ST S A) (handler : string -> ST S A) st w :
  match body st w with
  | (Throw e, st', w') => P (handler e st' w')
  | r => P r
  end ->
  P (try_catchS body handler st w).
Proof. unfold try_catchS. destruct (body st w) as [[[a|e|] st'] w']; auto. Qed.

Section Loop.
Variable self : SyncOptions -> SyncOptionsExtra -> M (list Doc).

Lemma contactsOfCompany_other ops extra res :
  strictEq (get "type" (mapping ops)) (VStr Ids.TypeCompany) = false ->
  contactsOfCompany isDerived self ops extra res = ret tt.
Proof. intros H. unfold contactsOfCompany. now rewrite H. Qed.

Lemma processRecord_counts ops extra fields result syncTime cats r st w :
  strictEq (get "type" (mapping ops)) (VStr Ids.TypeCompany) = false ->
  (forall total, NoThrow (monitor ops total)) ->
  countsInOrder ops st -> (added st < limit ops)%Z ->
  recordPost ops (processRecord isDerived uploadResp remoteCall convert dateMillis self
                                ops extra fields result syncTime cats r st w).
Proof.
  intros Hty Hmon [Hc1 Hc2] Hlt. unfold processRecord. unfold bindS at 1. unfold getS at 1.
  cbv zeta.
  assert (Hinc : countsInOrder ops (incAdded st)).
  { unfold countsInOrder, incAdded. cbn [resultDocs added]. lia. }
  destruct (suppressed ops syncTime _).
  - unfold bindS at 1. unfold modifyS at 1.
    apply bindS_liftS_post.
    + intros [] w1 _. unfold bindS, getS, retS, recordPost. cbn [fst snd]. split; [exact Hinc|].
      intros [= H]. apply Z.leb_gt in H. exact H.
    + intros e w1 _. split; [exact Hinc | discriminate].
    + intros w1 _. split; [exact Hinc | discriminate].
  - match goal with |- recordPost ops (try_catchS ?body ?handler ?s ?w0) =>
      assert (Hbody : tryPost ops (body s w0)); [|apply try_catchS_post; revert Hbody;
        destruct (body s w0) as [[[b|e|] st'] w'] ] end.
    { apply bindS_liftS_post.
      2:{ intros e w1 _. split; [now split | exact Hlt]. }
      2:{ intros w1 _. split; [now split | discriminate]. }
      intros res w1 _. apply bindS_liftS_post.
      2:{ intros e w2 _. split; [now split | exact Hlt]. }
      2:{ intros w2 _. split; [now split | discriminate]. }
      intros res1 w2 _. unfold bindS at 1. unfold modifyS at 1.
      apply bindS_liftS_post.
      2:{ intros e w3 H. exfalso.
          refine (@syncDocument_NoThrow isDerived uploadResp _ _ _ _ w2 e _);
            [|now rewrite H].
          intros f r0 [= <-]. apply Hmon. }
      2:{ intros w3 _. split; [exact Hinc | discriminate]. }
      intros [existing' document'] w3 _. unfold bindS at 1. unfold modifyS at 1.
      rewrite contactsOfCompany_other by exact Hty.
      unfold bindS, liftS, getS, retS, tryPost, recordPost. cbn [ret fst snd].
      unfold countsInOrder, recordResult, incAdded. cbn [resultDocs added].
      rewrite length_app. cbn [List.length]. split; [lia|].
      intros [= H]. apply Z.leb_gt in H. exact H. }
    + intros H. exact H.
    + unfold tryPost. cbn [fst snd]. intros [Hc Hl].
      unfold bindS, liftS, bind, emit, sleep, retS. split; [exact Hc | intros _; exact Hl].
    + intros H. exact H.
Qed.

Lemma pageLoop_counts ops extra fields result syncTime cats toProcess :
  strictEq (get "type" (mapping ops)) (VStr Ids.TypeCompany) = false ->
  (forall total, NoThrow (monitor ops total)) ->
  forall st w,
    countsInOrder ops st -> (added st < limit ops)%Z ->
    countsAfter ops (pageLoop isDerived uploadResp remoteCall convert dateMillis self
                              ops extra fields result syncTime cats toProcess st w).
Proof.
  intros Hty Hmon. induction toProcess as [|r rest IH]; intros st w Hc Hlt; cbn [pageLoop].
  - exact Hc.
  - unfold bindS at 1. unfold liftS at 1. cbn [emit]. unfold bindS at 1.
    match goal with |- context [processRecord _ _ _ _ _ _ ?o ?x ?f ?res ?t ?c ?rr ?s ?w0] =>
      pose proof (@processRecord_counts o x f res t c rr s w0 Hty Hmon Hc Hlt) as [Hc' Hl'];
      destruct (processRecord isDerived uploadResp remoteCall convert dateMillis self
                              o x f res t c rr s w0) as [[[[]|e|] st'] w'] end;
      cbn [fst snd] in *; try exact Hc'.
    apply IH; [exact Hc' | now apply Hl'].
Qed.

Lemma pagesLoop_counts fuel ops extra :
  strictEq (get "type" (mapping ops)) (VStr Ids.TypeCompany) = false ->
  (forall total, NoThrow (monitor ops total)) ->
  forall processed st w,
    countsInOrder ops st ->
    countsAfter ops (pagesLoop isDerived uploadResp remoteCall convert dateMillis self
                               fuel ops extra processed st w).
Proof.
  intros Hty Hmon. induction fuel as [|fuel IH]; intros processed st w Hc; cbn [pagesLoop].
  - exact Hc.
  - unfold bindS at 1. unfold getS at 1.
    destruct (added st <? limit ops)%Z eqn:Hlt; [|exact Hc]. apply Z.ltb_lt in Hlt.
    apply bindS_liftS_post; [|intros; exact Hc..]. intros result w1 _.
    apply bindS_liftS_post; [|intros; exact Hc..]. intros toProcess w2 _.
    apply bindS_liftS_post; [|intros; exact Hc..]. intros syncTime w3 _.
    apply bindS_liftS_post; [|intros; exact Hc..]. intros [] w4 _.
    apply bindS_liftS_post; [|intros; exact Hc..]. intros existingDocuments w5 _.
    apply bindS_liftS_post; [|intros; exact Hc..]. intros defaultCategories w6 _.
    unfold bindS at 1. unfold modifyS at 1. unfold bindS at 1.
    match goal with |- context [pageLoop _ _ _ _ _ _ ?o ?x ?f ?res ?t ?c ?tp ?s ?w0] =>
      pose proof (@pageLoop_counts o x f res t c tp Hty Hmon s w0 Hc Hlt) as Hc';
      destruct (pageLoop isDerived uploadResp remoteCall convert dateMillis self
                         o x f res t c tp s w0) as [[[[]|e|] st'] w'] end;
      unfold countsAfter in Hc'; cbn [fst snd] in Hc'; try exact Hc'.
    destruct (get "next" result); try (apply IH; exact Hc'). exact Hc'.
Qed.

(** *** The members of an organisation *)



(** *** The pages *)

Lemma bindS_ext {S A B} (c : ST S A) (k k' : A -> ST S B) s w :
  (forall a s' w', k a s' w' = k' a s' w') -> bindS c k s w = bindS c k' s w.
Proof. intros H. unfold bindS. destruct (c s w) as [[[a|e|] s'] w']; auto. Qed.

Lemma bindS_remote_ext {S B} method params (k k' : Obj -> ST S B) s w :
  (forall s' w', k (remoteCall method params) s' w' = k' (remoteCall method params) s' w') ->
  bindS (liftS (remote remoteCall method params)) k s w
  = bindS (liftS (remote remoteCall method params)) k' s w.
Proof.
  intros H. unfold bindS, liftS, remote, bind, emit, roundTrip.
  cbn [faults]. destruct (faults w) as [|[] fl]; cbn [ret]; auto.
Qed.

(** X28: a list answer without [next] is the last page: when the remote
    service never answers a [next], [doPerformSync]'s loop over the pages
    fetches one page and ends; what it does and answers does not depend
    on how many pages it would be allowed. *)
Theorem a_page_without_next_is_the_last ops extra fuel processed st w :
  (forall params,
      get "next" (remoteCall (toTemplateString (get "type" (mapping ops)) ++ ".list")%string
                             params) = VUndefined) ->
  pagesLoop isDerived uploadResp remoteCall convert dateMillis self
            (S fuel) ops extra processed st w
  = pagesLoop isDerived uploadResp remoteCall convert dateMillis self
              1 ops extra processed st w.
Proof.
  intros Hnext. cbn [pagesLoop]. apply bindS_ext. intros st0 s0 w0. cbv beta.
  destruct (added st0 <? limit ops)%Z; [|reflexivity].
  apply bindS_remote_ext. intros s1 w1. cbv zeta.
  do 5 (apply bindS_ext; intros ? ? ?).
  do 2 (apply bindS_ext; intros ? ? ?).
  rewrite Hnext. reflexivity.
Qed.

End Loop.

(** X20: for a mapping that is not the company mapping and a monitor
    callback that does not throw, [doPerformSync] answers at most [limit]
    documents (none when the limit is zero or negative). *)
Theorem the_limit_bounds_the_result fuel ops extra w docs w' :
  strictEq (get "type" (mapping ops)) (VStr Ids.TypeCompany) = false ->
  (forall total w1 e, fst (monitor ops total w1) <> Throw e) ->
  doPerformSync isDerived uploadResp remoteCall convert dateMillis fuel ops extra w
  = (Ok docs, w') ->
  (Z.of_nat (List.length docs) <= Z.max 0 (limit ops))%Z.
Proof.
  intros Hty Hmon. destruct fuel as [|fuel]; cbn [doPerformSync]; [discriminate|].
  unfold doPerformSyncBody. destruct (_ || _).
  { intros [= <- <-]. cbn [List.length]. lia. }
  assert (Hinit : countsInOrder ops (mkLoopState 0 [] [] [])).
  { unfold countsInOrder. cbn [resultDocs added List.length]. lia. }
  match goal with |- context [try_catchS ?body ?handler ?st w] =>
    assert (Hpost : countsAfter ops (try_catchS body handler st w)) end.
  { match goal with |- countsAfter ops (try_catchS ?body ?handler ?s ?w0) =>
      assert (Hbody : countsAfter ops (body s w0)); [|apply try_catchS_post; revert Hbody;
        destruct (body s w0) as [[[u|e|] st'] w1]; intros Hbody; exact Hbody ] end.
    apply bindS_liftS_post; [|intros; exact Hinit..]. intros tagElements w1 _.
    unfold bindS at 1. unfold modifyS at 1.
    apply pagesLoop_counts; [exact Hty | exact Hmon | exact Hinit]. }
  match goal with |- context [try_catchS ?body ?handler ?st w] =>
    destruct (try_catchS body handler st w) as [[[u|e|] st'] w1] end;
    try discriminate.
  intros [= <- <-]. destruct Hpost as [H1 H2]. cbn [fst snd] in *. lia.
Qed.

End Orchestration.

Lemma user_synchronisation_does_not_end_on_empty_pages_witness :
  fst (synchronizeUsers remoteNoUsers combineName0 50 [] (world [] 0 [])) <> Ok [].
Proof.
  apply (@user_synchronisation_does_not_end_on_empty_pages remoteNoUsers combineName0).
  intros params. split; [reflexivity|]. exists 3%Z. split; [reflexivity | lia].
Defined.

Lemma every_listed_user_is_mapped_witness :
  exists a, mapGet (VStr "7")
                   (match fst (synchronizeUsersPage combineName0 [account "acc-ann" "ann@x"] []
                                                    usersPage (world [] 0 [])) with
                    | Ok userList => userList
                    | _ => []
                    end) = Some a /\ a <> VUndefined.
Proof.
  destruct (synchronizeUsersPage combineName0 [account "acc-ann" "ann@x"] [] usersPage
                                 (world [] 0 [])) as [[userList|e|] w'] eqn:Hrun;
    try (vm_compute in Hrun; discriminate Hrun).
  exact (@every_listed_user_is_mapped combineName0 [account "acc-ann" "ann@x"] [] usersPage
           (world [] 0 []) userList w' (remoteUser "7" "ann@x") "7" Hrun
           (or_introl eq_refl) eq_refl).
Defined.

Lemma unknown_users_get_an_employee_and_an_account_each_witness :
  exists userList' w',
    synchronizeUsersPage combineName0 [account "acc-ann" "ann@x"] [] usersPage (world [] 0 [])
    = (Ok userList', w')
    /\ List.length (filter isCreate (newEvents (world [] 0 []) w')) = 4.
Proof.
  apply (@unknown_users_get_an_employee_and_an_account_each
           combineName0 [account "acc-ann" "ann@x"] [] usersPage (world [] 0 []) eq_refl).
  repeat constructor.
Defined.

Lemma a_remote_comment_becomes_one_pending_comment_witness :
  exists c more w',
    remoteComment dateMillis0 ops0 [] (converted "1" "new") remoteCommentWithFiles
                  (world [] 0 [])
    = (Ok (mkConvertResult (document (converted "1" "new")) VUndefined [] []
                           ([] ++ [c]) ([] ++ more)), w')
    /\ get "_class" c = Ids.Comment /\ get "bitrixId" c = VStr "31"
    /\ get "attachedTo" c = VStr "fresh"
    /\ get "attachments" c = VNum 2
    /\ List.length more = 2
    /\ Forall (fun b => get "attachedTo" (b_ed b) = get "_id" c
                        /\ get "_class" (b_ed b) = Ids.Attachment) more.
Proof.
  apply (@a_remote_comment_becomes_one_pending_comment
           dateMillis0 ops0 [] (converted "1" "new") remoteCommentWithFiles
           "see [B]this[/B]" _ (world [] 0 []) eq_refl eq_refl).
  repeat constructor.
Defined.


Lemma a_page_without_next_is_the_last_witness :
  pagesLoop isDerived0 upload0 remoteLeads convert0 dateMillis0 noContacts
            7 opsLimit2 extra0 (VNum 0) emptyLoop (world [] 0 [])
  = pagesLoop isDerived0 upload0 remoteLeads convert0 dateMillis0 noContacts
              1 opsLimit2 extra0 (VNum 0) emptyLoop (world [] 0 []).
Proof.
  apply (@a_page_without_next_is_the_last
           isDerived0 upload0 remoteLeads convert0 dateMillis0 noContacts opsLimit2 extra0 6).
  intros params. reflexivity.
Defined.

Lemma user_synchronisation_ends_after_a_full_page_witness :
  exists userList w' evs,
    synchronizeUsers remoteTwoUsers combineName0 2 [account "acc-ann" "ann@x"] (world [] 0 [])
    = (Ok userList, w')
    /\ map fst userList = [VStr "7"; VStr "8"]
    /\ trace w' = [] ++ EvRemote "user.search" [("start", VNum 0)] :: evs
    /\ Forall (fun e => isCreate e = true) evs.
Proof.
  apply (@user_synchronisation_ends_after_a_full_page
           remoteTwoUsers combineName0 0 [account "acc-ann" "ann@x"]
           [remoteUser "7" "ann@x"; remoteUser "8" "bob@x"] ["7"; "8"] (world [] 0 []));
    try reflexivity.
  repeat constructor; cbn; intuition discriminate.
Defined.

Lemma the_limit_bounds_the_result_witness :
  exists docs w',
    doPerformSync isDerived0 upload0 remoteLeads convert0 dateMillis0 3 opsLimit2 extra0
                  (world [] 0 []) = (Ok docs, w')
    /\ (Z.of_nat (List.length docs) <= Z.max 0 2)%Z.
Proof.
  destruct (doPerformSync isDerived0 upload0 remoteLeads convert0 dateMillis0 3 opsLimit2 extra0
                          (world [] 0 [])) as [[docs|e|] w'] eqn:Hrun;
    try (vm_compute in Hrun; discriminate Hrun).
  exists docs, w'. split; [reflexivity|].
  refine (@the_limit_bounds_the_result isDerived0 upload0 remoteLeads convert0 dateMillis0
            3 opsLimit2 extra0 (world [] 0 []) docs w' eq_refl _ Hrun).
  intros total w1 e. discriminate.
Defined.

Lemma comments_without_owner_type_fail_before_any_call_witness :
  downloadComments remote0 dateMillis0 (converted "1" "new") ops0 [] [] (VArr dealOwners)
                   (world [] 0 [])
  = (Throw "No owner type found for lead", world [] 0 []).
Proof.
  apply (@comments_without_owner_type_fail_before_any_call
           remote0 dateMillis0 (converted "1" "new") ops0 [] [] dealOwners "crm.lead");
    [reflexivity|].
  repeat constructor. intros code [= <-]. discriminate.
Defined.

End SyncMore.

(* ================================================================= *)
(** ** The reconciliation of the sub-documents *)

Module Reconciliation.
Import ObjFacts DiffFacts EmitsFacts MergeFacts SyncFacts MergeRuns Reconcile Values Again.
Import Examples MoreExamples MoreProps MergeMore.

(** *** Lists *)



Lemma findIndex_none {A} (p : A -> bool) l :
  findIndex p l = None -> forall x, In x l -> p x = false.
Proof.
  induction l as [|y l IH]; cbn [findIndex]; [intros _ x []|].
  destruct (p y) eqn:Hy; [discriminate|].
  destruct (findIndex p l); [discriminate|]. intros _ x [<-|H]; [exact Hy | now apply IH].
Qed.


(** *** The matching *)




(** *** The matching when the remote ids are unique *)

Lemma strictEq_same a b c : strictEq a b = true -> strictEq a c = true -> strictEq b c = true.
Proof.
  intros H1 H2. pose proof (strictEq_eq _ _ H1) as E. subst b. exact H2.
Qed.

Lemma strictEq_sym a b : strictEq a b = strictEq b a.
Proof.
  destruct a, b; cbn; try reflexivity.
  - destruct b, b0; reflexivity.
  - apply Z.eqb_sym.
  - apply String.eqb_sym.
Qed.

Lemma find_removeAt_other {A} (p : A -> bool) l i x :
  nth_error l i = Some x -> p x = false -> find p (removeAt i l) = find p l.
Proof.
  revert i. induction l as [|y l IH]; intros [|i]; cbn [nth_error removeAt find];
    try discriminate.
  - intros [= ->] ->. reflexivity.
  - intros Hn Hx. destruct (p y); [reflexivity | now apply IH].
Qed.

Lemma filter_all {A} (p : A -> bool) l : (forall x, In x l -> p x = true) -> filter p l = l.
Proof.
  induction l as [|y l IH]; cbn [filter]; [reflexivity|]. intros H.
  rewrite (H y) by now left. f_equal. apply IH. intros x Hx. apply H. now right.
Qed.

Lemma filter_twice {A} (p q : A -> bool) l :
  filter q (filter p l) = filter (fun x => p x && q x) l.
Proof.
  induction l as [|y l IH]; cbn [filter]; [reflexivity|].
  destruct (p y); cbn [filter andb]; [destruct (q y)|]; now rewrite IH.
Qed.

Lemma distinctBy_removeAt {A} (f : A -> Value) l i :
  distinctBy f l -> distinctBy f (removeAt i l).
Proof.
  revert i. induction l as [|y l IH]; intros [|i]; cbn [removeAt distinctBy]; try tauto.
  intros [Hy Hl]. split; [|now apply IH]. intros z Hz. apply Hy. eapply in_removeAt; eauto.
Qed.

(** With unique ids, taking out the one element with a given id is
    filtering on the id. *)
Lemma removeAt_filter {A} (f : A -> Value) id l i x :
  distinctBy f l -> nth_error l i = Some x -> strictEq (f x) id = true ->
  removeAt i l = filter (fun e => negb (strictEq (f e) id)) l.
Proof.
  revert i. induction l as [|y l IH]; intros [|i]; cbn [nth_error removeAt distinctBy filter];
    try discriminate.
  - intros [Hy _] [= ->] Hx. rewrite Hx. cbn [negb]. symmetry. apply filter_all.
    intros z Hz. apply negb_true_iff. destruct (strictEq (f z) id) eqn:Hzid; [|reflexivity].
    rewrite strictEq_sym in Hx, Hzid.
    rewrite <- (Hy z Hz). symmetry. exact (strictEq_same _ _ _ Hx Hzid).
  - intros [Hy Hl] Hn Hx.
    assert (Hyid : strictEq (f y) id = false).
    { destruct (strictEq (f y) id) eqn:Hyid; [|reflexivity].
      assert (Hin : In x l) by (eapply nth_error_In; eauto).
      rewrite strictEq_sym in Hx, Hyid.
      rewrite <- (Hy x Hin). symmetry. exact (strictEq_same _ _ _ Hyid Hx). }
    rewrite Hyid. cbn [negb]. f_equal. now apply IH.
Qed.

Lemma plan_join documentId vals :
  forall pool,
    distinctBy bitrixIdOf pool -> distinctBy (get "bitrixId") vals ->
    plan documentId pool vals
    = (map (fun v => (find (fun e => strictEq (bitrixIdOf e) (get "bitrixId" v)) pool,
                      set "attachedTo" documentId v)) vals,
       filter (fun e => negb (carriedBy vals e)) pool).
Proof.
  induction vals as [|v vals IH]; intros pool Hpool Hvals.
  - cbn [plan map carriedBy existsb negb]. f_equal. symmetry. now apply filter_all.
  - destruct Hvals as [Hv Hvals]. cbn [plan map].
    rewrite <- (find_findIndex (fun e => strictEq (bitrixIdOf e) (get "bitrixId" v)) pool).
    destruct (findIndex _ pool) as [i|] eqn:Hi.
    + destruct (findIndex_some _ _ Hi) as (x & Hx & Hp & Hin).
      rewrite (IH _ (@distinctBy_removeAt _ bitrixIdOf pool i Hpool) Hvals). cbn [fst snd]. f_equal.
      * f_equal. apply map_ext_in. intros v' Hv'. f_equal.
        apply (@find_removeAt_other _ _ pool i x Hx).
        destruct (strictEq (bitrixIdOf x) (get "bitrixId" v')) eqn:E; [|reflexivity].
        rewrite <- (Hv v' Hv'). symmetry. exact (strictEq_same _ _ _ Hp E).
      * rewrite (@removeAt_filter _ bitrixIdOf (get "bitrixId" v) pool i x Hpool Hx Hp), filter_twice.
        apply filter_ext. intros e. cbn [carriedBy existsb]. now rewrite negb_orb.
    + rewrite (IH _ Hpool Hvals). cbn [fst snd]. f_equal.
      apply filter_ext_in. intros e He. cbn [carriedBy existsb].
      now rewrite (@findIndex_none _ _ pool Hi e He).
Qed.

(** The reconciliation of a class, once its existing sub-documents are
    read: the loop over the pending ones, then the removal of what it
    leaves over. *)
Lemma reconcileClass_plan isDerived documentId cl vals w pool w1 :
  isDerived cl Ids.AttachedDoc = true ->
  findAll isDerived cl [(["attachedTo"], CEq documentId)] w = (Ok pool, w1) ->
  reconcileClass isDerived documentId (cl, vals) w
  = bind (forEach (fst (plan documentId pool vals)) step)
         (fun _ => forEach (snd (plan documentId pool vals))
                           (fun doc => direct (Wremove doc))) w1.
Proof.
  intros Hcl Hfind. unfold reconcileClass. rewrite Hcl. unfold bind at 1. rewrite Hfind.
  unfold bind at 1. rewrite reconcileVals_plan.
  unfold bind. destruct (forEach _ step w1) as [[a|e|] w2]; reflexivity.
Qed.

(** X24: when the existing sub-documents of a class carry pairwise
    different remote ids, and so do the pending ones, the reconciliation of
    the class is a join on the remote id: each pending one, in order, is
    diff-updated onto the existing sub-document that carries its remote
    id, or created when there is none; what the loop leaves over are
    exactly the existing sub-documents whose remote id no pending one
    carries (first part), and these are then removed, in the order the
    store gave them (second part, for the class as a whole once its
    existing sub-documents are read). *)
Theorem reconciliation_is_a_join_on_the_remote_id isDerived documentId cl pool vals :
  distinctBy bitrixIdOf pool -> distinctBy (get "bitrixId") vals ->
  let steps := map (fun v => (find (fun e => strictEq (bitrixIdOf e) (get "bitrixId" v)) pool,
                              set "attachedTo" documentId v)) vals in
  let left := filter (fun e => negb (carriedBy vals e)) pool in
  (forall w,
      reconcileVals documentId pool vals w
      = bind (forEach steps step) (fun _ => ret left) w)
  /\ (forall w w1,
        isDerived cl Ids.AttachedDoc = true ->
        findAll isDerived cl [(["attachedTo"], CEq documentId)] w = (Ok pool, w1) ->
        reconcileClass isDerived documentId (cl, vals) w
        = bind (forEach steps step)
               (fun _ => forEach left (fun doc => direct (Wremove doc))) w1).
Proof.
  intros Hpool Hvals steps left. split.
  - intros w. rewrite reconcileVals_plan, (@plan_join documentId vals pool Hpool Hvals).
    reflexivity.
  - intros w w1 Hcl Hfind.
    pose proof (@reconcileClass_plan isDerived documentId cl vals w pool w1 Hcl Hfind) as Heq.
    rewrite (@plan_join documentId vals pool Hpool Hvals) in Heq. exact Heq.
Qed.

(** *** The removal of what is left over *)



(** *** What the reconciliation asks and removes *)

Section Pieces.
Variable P : Event -> Prop.
Hypothesis HTx : forall op, P (EvTx op).








Hypothesis HLog : forall what, P (EvLog what).
Hypothesis HFetch : forall ed, P (EvFetchBlob ed).
Hypothesis HUpload : forall file, P (EvUpload file).


End Pieces.





Section Classes.
Variable isDerived : Value -> Value -> bool.




(** *** What the reconciliation keeps *)





End Classes.

Lemma reconciliation_is_a_join_on_the_remote_id_witness :
  reconcileClass isDerived0 (VStr "P") (Ids.Comment, fetchedAC)
                 (world parentWithThreeComments 1000 [])
  = bind (forEach [(Some (storedComment "c-a" "a" "P" "one"),
                    comment "n-a" "a" "P" "one");
                   (Some (storedComment "c-c" "c" "P" "three"),
                    comment "n-c" "c" "P" "three, edited")] step)
         (fun _ => forEach [storedComment "c-b" "b" "P" "two"]
                           (fun doc => direct (Wremove doc)))
         (logged (EvFindAll Ids.Comment [(["attachedTo"], CEq (VStr "P"))])
                 (world parentWithThreeComments 1000 [])).
Proof.
  refine (proj2 (@reconciliation_is_a_join_on_the_remote_id
                   isDerived0 (VStr "P") Ids.Comment
                   [storedComment "c-a" "a" "P" "one"; storedComment "c-b" "b" "P" "two";
                    storedComment "c-c" "c" "P" "three"] fetchedAC _ _)
                (world parentWithThreeComments 1000 []) _ eq_refl eq_refl).
  - cbn [distinctBy]. repeat split; intros y H;
      repeat (destruct H as [<-|H]; [reflexivity|]); destruct H.
  - cbn [distinctBy fetchedAC]. repeat split; intros y H;
      repeat (destruct H as [<-|H]; [reflexivity|]); destruct H.
Defined.


End Reconciliation.


(* ================================================================= *)
(** ** Without a space or without field mappings *)

Module UpFront.
Import ObjFacts EmitsFacts MergeFacts NoThrowFacts SyncFacts MergeRuns Reconcile Again.
Import JsString Markup Examples MoreExamples MoreProps MergeMore SyncMore.

Section Orchestration.
Variable isDerived : Value -> Value -> bool.
Variable uploadResp : File -> Z * string.
Variable remoteCall : string -> Obj -> Obj.
Variable convert : ConvertInput -> M ConvertResult.
Variable dateMillis : Value -> Value.
Variable combineName : Value -> Value -> Value.

Lemma remote_run method params w :
  faults w = [] ->
  remote remoteCall method params w
  = (Ok (remoteCall method params), logged (EvRemote method params) w).
Proof.
  intros Hf. unfold remote, bind, emit, roundTrip, logged.
  cbn [faults store pending now nextId trace]. rewrite Hf. reflexivity.
Qed.

Lemma query_run c q w :
  faults w = [] ->
  findAll isDerived c q w = (Ok (findAllIn isDerived (store w) c q), logged (EvFindAll c q) w).
Proof.
  intros Hf. unfold findAll, bind, emit, roundTrip, logged.
  cbn [faults store pending now nextId trace]. rewrite Hf. reflexivity.
Qed.

(** Without a space or without field mappings the run is the up-front
    phase and nothing else. *)
Lemma performSynchronization_guarded fuel ops w :
  space ops = VUndefined \/ lookupFields (mapping ops) = VUndefined ->
  performSynchronization isDerived uploadResp remoteCall convert dateMillis combineName
                         (S fuel) ops w
  = match prepare isDerived remoteCall combineName (S fuel) w with
    | (Ok _, w') => (Ok [], w')
    | (Throw e, w') => (Throw e, w')
    | (Diverge, w') => (Diverge, w')
    end.
Proof.
  intros H. unfold performSynchronization, bind.
  destruct (prepare isDerived remoteCall combineName (S fuel) w) as [[extra|e|] w1];
    [now apply doPerformSync_guard | reflexivity | reflexivity].
Qed.

Lemma users_emit fuel allEmployee ul users :
  Emits upFrontEvent
        (us <- iterate (get "result" users) ;;
         userList' <- synchronizeUsersPage combineName allEmployee ul us ;;
         synchronizeUsersLoop remoteCall combineName fuel allEmployee userList'
                              (get "total" users) (get "next" users)).
Proof.
  apply Emits_bind; [apply Emits_iterate|]. intros us.
  apply Emits_bind; [apply synchronizeUsersPage_emits|]. intros ul'.
  apply synchronizeUsersLoop_emits.
Qed.

Lemma prepare_starts fuel w :
  exists evs,
    trace (snd (prepare isDerived remoteCall combineName fuel w))
    = trace w ++ EvRemote (Ids.TypeComment ++ ".fields") [] :: evs
    /\ Forall upFrontEvent evs.
Proof.
  unfold prepare. unfold bind at 1. unfold remote at 1. unfold bind at 1. cbn [emit].
  unfold bind at 1. unfold roundTrip. cbn [faults].
  assert (Hrest : forall commentFields,
             Emits upFrontEvent
                   (ownerTypes <- remote remoteCall "crm.enum.ownertype" [] ;;
                    commentFieldKeys <- objectKeys (get "result" commentFields) ;;
                    allEmployee <- findAll isDerived Ids.EmployeeAccount [] ;;
                    allMappings <- findAll isDerived Ids.EntityMapping [] ;;
                    userList <- synchronizeUsers remoteCall combineName fuel allEmployee ;;
                    ret (mkSyncOptionsExtra (get "result" ownerTypes) commentFieldKeys
                                            allMappings allEmployee userList))).
  { intros commentFields.
    apply Emits_bind; [apply Emits_remote; simpl; auto|]. intros ownerTypes.
    apply Emits_bind.
    { unfold objectKeys. destruct (get "result" commentFields);
        first [apply Emits_ret | apply Emits_throw]. }
    intros ks.
    apply Emits_bind; [apply Emits_findAll; simpl; auto|]. intros allEmployee.
    apply Emits_bind; [apply Emits_findAll; simpl; auto|]. intros allMappings.
    apply Emits_bind; [apply synchronizeUsersLoop_emits|]. intros ul. apply Emits_ret. }
  destruct (faults w) as [|[] fl]; cbn [ret].
  - match goal with |- context [bind _ _ ?w1] =>
      destruct (Hrest (remoteCall (Ids.TypeComment ++ ".fields") []) w1) as (evs & Ht & Hall) end.
    exists evs. rewrite Ht. cbn [trace]. rewrite <- app_assoc. now split.
  - exists []. cbn [snd trace]. now split.
  - match goal with |- context [bind _ _ ?w1] =>
      destruct (Hrest (remoteCall (Ids.TypeComment ++ ".fields") []) w1) as (evs & Ht & Hall) end.
    exists evs. rewrite Ht. cbn [trace]. rewrite <- app_assoc. now split.
Qed.

Lemma prepare_calls fuel w :
  faults w = [] ->
  notNullish (get "result" (remoteCall (Ids.TypeComment ++ ".fields") [])) = true ->
  exists evs,
    trace (snd (prepare isDerived remoteCall combineName (S fuel) w))
    = trace w ++ [EvRemote (Ids.TypeComment ++ ".fields") [];
                  EvRemote "crm.enum.ownertype" [];
                  EvFindAll Ids.EmployeeAccount [];
                  EvFindAll Ids.EntityMapping [];
                  EvRemote "user.search" [("start", VNum 0)]] ++ evs
    /\ Forall upFrontEvent evs.
Proof.
  intros Hf Hfields. unfold prepare.
  unfold bind at 1. rewrite remote_run by exact Hf.
  unfold bind at 1. rewrite remote_run by exact Hf.
  unfold bind at 1.
  assert (Hkeys : exists ks, forall w0,
             objectKeys (get "result" (remoteCall (Ids.TypeComment ++ ".fields") [])) w0
             = (Ok ks, w0)).
  { unfold objectKeys. destruct (get "result" _); try discriminate Hfields;
      eexists; intros w0; reflexivity. }
  destruct Hkeys as (ks & Hks). rewrite Hks.
  unfold bind at 1. rewrite query_run by exact Hf.
  unfold bind at 1. rewrite query_run by exact Hf.
  unfold bind at 1. unfold synchronizeUsers. cbn [synchronizeUsersLoop].
  change (sizeBelow [] (VNum 1)) with true. cbv iota.
  unfold bind at 1. rewrite remote_run by exact Hf.
  match goal with |- context [bind (iterate ?r) (fun us => bind (synchronizeUsersPage _ ?ae ?ul us) _) ?w1] =>
    destruct (@users_emit fuel ae ul (remoteCall "user.search" [("start", VNum 0)]) w1)
      as (evs & Ht & Hall) end.
  match type of Ht with trace (snd ?c) = _ => destruct c as [[ul|e|] w2] end;
    cbn [snd] in Ht; exists evs; cbn [ret snd]; rewrite Ht; cbn [logged trace];
    rewrite <- !app_assoc; now split.
Qed.

(** C10 (amended): when the target space is undefined or the mapping carries
    no looked-up field mappings, [doPerformSync] answers the empty list
    and touches nothing, and [performSynchronization] is its up-front
    phase and nothing else: it ends as that phase ends (throwing what it
    throws, not returning when it does not return) and, when the phase
    returns, answers the empty list in the world the phase left.  The
    up-front phase always starts with the comment-field call and, nothing
    being rejected and the comment fields being there, makes the owner-type
    call, the two store queries and the first user call; whatever it does
    is an up-front event, none of which is a list-page call of any entity
    type, a conversion, a transaction write or commit, a download or an
    upload. *)
Theorem no_space_or_fields_runs_the_up_front_phase_only fuel ops :
  space ops = VUndefined \/ lookupFields (mapping ops) = VUndefined ->
  (forall extra w,
      doPerformSync isDerived uploadResp remoteCall convert dateMillis (S fuel) ops extra w
      = (Ok [], w))
  /\ (forall w,
        performSynchronization isDerived uploadResp remoteCall convert dateMillis
                               combineName (S fuel) ops w
        = match prepare isDerived remoteCall combineName (S fuel) w with
          | (Ok _, w') => (Ok [], w')
          | (Throw e, w') => (Throw e, w')
          | (Diverge, w') => (Diverge, w')
          end)
  /\ (forall w,
        exists evs,
          trace (snd (performSynchronization isDerived uploadResp remoteCall convert
                                             dateMillis combineName (S fuel) ops w))
          = trace w ++ EvRemote (Ids.TypeComment ++ ".fields") [] :: evs
          /\ Forall upFrontEvent evs)
  /\ (forall w,
        faults w = [] ->
        notNullish (get "result" (remoteCall (Ids.TypeComment ++ ".fields") [])) = true ->
        exists evs,
          trace (snd (performSynchronization isDerived uploadResp remoteCall convert
                                             dateMillis combineName (S fuel) ops w))
          = trace w ++ [EvRemote (Ids.TypeComment ++ ".fields") [];
                        EvRemote "crm.enum.ownertype" [];
                        EvFindAll Ids.EmployeeAccount [];
                        EvFindAll Ids.EntityMapping [];
                        EvRemote "user.search" [("start", VNum 0)]] ++ evs
          /\ Forall upFrontEvent evs)
  /\ (forall type params input scope op data fields,
        ~ upFrontEvent (EvRemote (type ++ ".list") params)
        /\ ~ upFrontEvent (EvConvert input)
        /\ ~ upFrontEvent (EvApply scope) /\ ~ upFrontEvent (EvTx op)
        /\ ~ upFrontEvent EvCommit
        /\ ~ upFrontEvent (EvFetchBlob data) /\ ~ upFrontEvent (EvUpload fields)).
Proof.
  intros H.
  assert (Hsame : forall w,
             snd (performSynchronization isDerived uploadResp remoteCall convert dateMillis
                                         combineName (S fuel) ops w)
             = snd (prepare isDerived remoteCall combineName (S fuel) w)).
  { intros w. rewrite performSynchronization_guarded by exact H.
    destruct (prepare isDerived remoteCall combineName (S fuel) w) as [[extra|e|] w1];
      reflexivity. }
  split; [|split; [|split; [|split]]].
  - intros extra w. now apply doPerformSync_guard.
  - intros w. now apply performSynchronization_guarded.
  - intros w. rewrite Hsame. apply prepare_starts.
  - intros w Hf Hfields. rewrite Hsame. now apply prepare_calls.
  - intros type params input scope op data fields.
    split; [apply list_call_not_up_front | cbn; tauto].
Qed.

End Orchestration.

Lemma no_space_or_fields_runs_the_up_front_phase_only_witness :
  space opsNoSpace = VUndefined /\
  performSynchronization isDerived0 upload0 remote0 convert0 dateMillis0 combineName0
                         2 opsNoSpace (world [] 0 [])
  = (Ok [],
     mkWorld [] [] 0 0 []
             [EvRemote "crm.timeline.comment.fields" []; EvRemote "crm.enum.ownertype" [];
              EvFindAll Ids.EmployeeAccount []; EvFindAll Ids.EntityMapping [];
              EvRemote "user.search" [("start", VNum 0)]]).
Proof.
  split; [reflexivity|].
  rewrite (proj1 (proj2 (@no_space_or_fields_runs_the_up_front_phase_only
                           isDerived0 upload0 remote0 convert0 dateMillis0
                           combineName0 1 opsNoSpace (or_introl eq_refl)))).
  reflexivity.
Defined.

(** C10 (counterexample): the target space is undefined and the run does
    not return the empty list: with the first call rejected it throws, and
    with a remote service that reports users and lists none it never
    returns, whatever bound is put on its loops. *)
Lemma without_space_the_run_may_throw_or_not_return :
  space opsNoSpace = VUndefined
  /\ (forall fuel,
        performSynchronization isDerived0 upload0 remote0 convert0 dateMillis0 combineName0
                               fuel opsNoSpace (world [] 0 [true])
        = (Throw "rejected",
           mkWorld [] [] 0 0 [] [EvRemote "crm.timeline.comment.fields" []]))
  /\ (forall fuel docs w,
        fst (performSynchronization isDerived0 upload0 remoteNoUsers convert0 dateMillis0
                                    combineName0 fuel opsNoSpace w) <> Ok docs).
Proof.
  assert (Hle : (1 <= 3)%Z) by lia.
  split; [reflexivity|]. split; [intros fuel; reflexivity|].
  intros fuel docs w. unfold performSynchronization. unfold bind at 1.
  destruct (prepare isDerived0 remoteNoUsers combineName0 fuel w) as [[extra|e|] w1] eqn:Hp;
    try discriminate.
  exfalso. revert Hp. unfold prepare.
  repeat (unfold bind at 1;
          match goal with |- context [match ?c with _ => _ end] =>
            match c with
            | synchronizeUsers _ _ _ _ _ => fail 1
            | _ => destruct c as [[?|?|] ?]; try discriminate
            end end).
  unfold bind at 1.
  match goal with |- context [synchronizeUsers ?r ?cn fuel ?ae ?w0] =>
    pose proof (@synchronizeUsersLoop_empty_pages r cn fuel ae (VNum 1) (VNum 0) w0) as Hloop;
    unfold synchronizeUsers;
    destruct (synchronizeUsersLoop r cn fuel ae [] (VNum 1) (VNum 0) w0) as [[ul|err|] wz]
  end; try discriminate.
  intros _. apply (Hloop (fun params => conj eq_refl (ex_intro _ 3%Z (conj eq_refl Hle)))
                         eq_refl ul). reflexivity.
Qed.

End UpFront.


(* ================================================================= *)
(** ** Records not yet due *)

Module Suppression.
Import ObjFacts EmitsFacts MergeFacts NoThrowFacts SyncFacts MergeRuns Reconcile Again.
Import JsString Markup Examples MoreExamples MoreProps MergeMore SyncMore UpFront.

Lemma traced_nil w : traced [] w = w.
Proof. destruct w. unfold traced. cbn. now rewrite app_nil_r. Qed.

Lemma traced_app evs1 evs2 w : traced evs2 (traced evs1 w) = traced (evs1 ++ evs2) w.
Proof. unfold traced. cbn. now rewrite app_assoc. Qed.

Lemma counted_zero st : counted 0 st = st.
Proof. destruct st. unfold counted. cbn. now rewrite Z.add_0_r. Qed.

Lemma counted_succ n st : counted n (incAdded st) = counted (S n) st.
Proof. unfold counted, incAdded. cbn [added resultDocs allTagElements existingDocuments].
  f_equal. lia. Qed.

Section Orchestration.
Variable isDerived : Value -> Value -> bool.
Variable uploadResp : File -> Z * string.
Variable remoteCall : string -> Obj -> Obj.
Variable convert : ConvertInput -> M ConvertResult.
Variable dateMillis : Value -> Value.

Section Loop.
Variable self : SyncOptions -> SyncOptionsExtra -> M (list Doc).

(** The turn of the inner loop for a record that is not yet due. *)
Lemma pageLoop_suppressed ops extra fields result syncTime cats r rest st w :
  suppressed ops syncTime (localOf (existingDocuments st) r) = true ->
  pageLoop isDerived uploadResp remoteCall convert dateMillis self
           ops extra fields result syncTime cats (r :: rest) st w
  = match monitor ops (get "total" result) (logged (EvLog "LOAD:") w) with
    | (Ok _, w') =>
        if (limit ops <=? added st + 1)%Z then (Ok tt, incAdded st, w')
        else pageLoop isDerived uploadResp remoteCall convert dateMillis self
                      ops extra fields result syncTime cats rest (incAdded st) w'
    | (Throw e, w') => (Throw e, incAdded st, w')
    | (Diverge, w') => (Diverge, incAdded st, w')
    end.
Proof.
  intros Hsupp. unfold localOf in Hsupp. cbn [pageLoop].
  unfold bindS at 1. unfold liftS at 1. cbn [emit]. fold (logged (EvLog "LOAD:") w).
  unfold bindS at 1. unfold processRecord. unfold bindS at 1. unfold getS at 1.
  cbv zeta. rewrite find_findIndex, Hsupp.
  unfold bindS at 1. unfold modifyS at 1. unfold bindS at 1. unfold liftS at 1.
  destruct (monitor ops (get "total" result) (logged (EvLog "LOAD:") w)) as [[[]|e|] w'];
    try reflexivity.
  unfold bindS, getS, retS. cbn [incAdded added].
  destruct (limit ops <=? added st + 1)%Z; reflexivity.
Qed.

(** One turn of the outer loop: the page is fetched, the local documents
    of its records are read, and the inner loop runs with the clock
    reading taken at the fetch. *)
Lemma pagesLoop_page fuel ops extra processed st w toProcess :
  (added st < limit ops)%Z ->
  faults w = [] ->
  let result := remoteCall (toTemplateString (get "type" (mapping ops)) ++ ".list")%string
                           (listQuery ops processed) in
  get "result" result = VArr toProcess ->
  Forall (fun r => notNullish r = true) toProcess ->
  pagesLoop isDerived uploadResp remoteCall convert dateMillis self
            (S fuel) ops extra processed st w
  = bindS (pageLoop isDerived uploadResp remoteCall convert dateMillis self
                    ops extra (lookupFields (mapping ops)) result (now w)
                    (findAllIn isDerived (store w) Ids.TagCategory
                               [(["default"], CEq (VBool true))])
                    toProcess)
          (fun _ => match get "next" result with
                    | VUndefined => retS tt
                    | processed' =>
                        pagesLoop isDerived uploadResp remoteCall convert dateMillis self
                                  fuel ops extra processed'
                    end)
          (setExistingDocuments
             (findAllIn isDerived (store w) (get "ofClass" (mapping ops)) (pageQuery toProcess))
             st)
          (traced [EvRemote (toTemplateString (get "type" (mapping ops)) ++ ".list")%string
                            (listQuery ops processed);
                   EvFindAll (get "ofClass" (mapping ops)) (pageQuery toProcess);
                   EvFindAll Ids.TagCategory [(["default"], CEq (VBool true))]] w).
Proof.
  intros Hlt Hf result Hres Hnn. cbn [pagesLoop].
  unfold bindS at 1. unfold getS at 1.
  rewrite (proj2 (Z.ltb_lt _ _) Hlt).
  unfold bindS at 1. unfold liftS at 1. rewrite remote_run by exact Hf. fold result.
  cbv zeta. unfold bindS at 1. unfold liftS at 1. rewrite Hres. cbn [asArray ret].
  unfold bindS at 1. unfold liftS at 1. cbn [dateNow logged now].
  assert (Hnone : existsb (fun it => negb (notNullish it)) toProcess = false).
  { clear Hres. induction Hnn as [|r rest Hr _ IH]; [reflexivity|].
    cbn [existsb]. now rewrite Hr, IH. }
  unfold bindS at 1. unfold liftS at 1. rewrite Hnone. cbn [ret].
  unfold bindS at 1. unfold liftS at 1. rewrite query_run by exact Hf.
  unfold bindS at 1. unfold liftS at 1. rewrite query_run by exact Hf.
  unfold bindS at 1. unfold modifyS at 1.
  unfold traced, logged, pageQuery. cbn [store pending now nextId faults trace].
  rewrite <- !app_assoc. reflexivity.
Qed.

(** A page all of whose records are not yet due, seen by a monitor that
    only reports: each record is counted and reported, up to the limit. *)
Lemma pageLoop_all_suppressed ops extra fields result syncTime cats toProcess :
  (forall total w, monitor ops total w = emit (EvMonitor total) w) ->
  forall st w,
    (added st < limit ops)%Z ->
    Forall (fun r => suppressed ops syncTime (localOf (existingDocuments st) r) = true)
           toProcess ->
    let accepted := firstn (Z.to_nat (limit ops - added st)) toProcess in
    pageLoop isDerived uploadResp remoteCall convert dateMillis self
             ops extra fields result syncTime cats toProcess st w
    = (Ok tt, counted (List.length accepted) st,
       traced (reported (get "total" result) accepted) w).
Proof.
  intros Hmon. induction toProcess as [|r rest IH]; intros st w Hlt Hall accepted.
  - unfold accepted. rewrite firstn_nil. cbn [pageLoop List.length reported flat_map retS].
    now rewrite counted_zero, traced_nil.
  - inversion Hall as [|? ? Hr Hrest]; subst.
    rewrite pageLoop_suppressed by exact Hr. rewrite Hmon. cbn [emit logged trace].
    assert (Hn : Z.to_nat (limit ops - added st) = S (Z.to_nat (limit ops - (added st + 1))))
      by lia.
    unfold accepted. rewrite Hn. cbn [firstn List.length reported flat_map app].
    fold (reported (get "total" result)
                   (firstn (Z.to_nat (limit ops - (added st + 1))) rest)).
    destruct (limit ops <=? added st + 1)%Z eqn:Hle.
    + apply Z.leb_le in Hle.
      replace (Z.to_nat (limit ops - (added st + 1))) with 0%nat by lia.
      cbn [firstn List.length reported flat_map].
      rewrite <- counted_succ, counted_zero. unfold traced.
      cbn [store pending now nextId faults trace]. rewrite <- !app_assoc. reflexivity.
    + apply Z.leb_gt in Hle.
      rewrite IH; [|cbn [incAdded added]; exact Hle | exact Hrest].
      cbn [incAdded added]. fold (incAdded st). rewrite counted_succ. unfold traced.
      cbn [store pending now nextId faults trace]. rewrite <- !app_assoc. reflexivity.
Qed.

End Loop.

(** C5: a record whose matching local document carries a sync trait with
    [lastSyncedAt + syncPeriod] (24 hours by default) still ahead of the
    clock reading taken when its page was fetched is neither converted nor
    merged, yet counted and reported.  In the inner loop, whatever the
    state and the records before and after: the turn of such a record logs
    its line, counts the record, calls the monitor with the total and goes
    on to the next record, or leaves the loop when the count has reached
    the limit (second part; the first part is the turn taken alone, for a
    monitor that returns).  The outer loop hands the inner loop the clock
    reading taken at the fetch of the page and the local documents the
    store holds for the records of the page (third part).  And for a whole
    run: when all the records of the one page fetched are of this kind, the
    run queries the tag elements, fetches the page, reads the local
    documents and the default categories, and then only counts and reports
    the records, up to the limit: it converts nothing, merges nothing,
    leaves the store alone and answers no document (fourth part). *)
Theorem suppressed_records_are_counted_not_synchronised :
  (forall self ops extra fields result syncTime cats r st d lastSyncedAt w w',
      localOf (existingDocuments st) r = Some d ->
      proxyGet (as_ d Ids.BitrixSyncDoc) "syncTime" = VNum lastSyncedAt ->
      (syncTime < lastSyncedAt + match syncPeriod ops with
                                 | Some period => period
                                 | None => defaultSyncPeriod
                                 end)%Z ->
      monitor ops (get "total" result) w = (Ok tt, w') ->
      processRecord isDerived uploadResp remoteCall convert dateMillis self
                    ops extra fields result syncTime cats r st w
      = (Ok (limit ops <=? added st + 1)%Z, incAdded st, w')
      /\ added (incAdded st) = (added st + 1)%Z
      /\ ((forall total, monitor ops total = emit (EvMonitor total)) ->
          trace w' = trace w ++ [EvMonitor (get "total" result)])
      /\ defaultSyncPeriod = (24 * 60 * 60 * 1000)%Z)
  /\ (forall self ops extra fields result syncTime cats r rest st w,
        suppressed ops syncTime (localOf (existingDocuments st) r) = true ->
        pageLoop isDerived uploadResp remoteCall convert dateMillis self
                 ops extra fields result syncTime cats (r :: rest) st w
        = match monitor ops (get "total" result) (logged (EvLog "LOAD:") w) with
          | (Ok _, w') =>
              if (limit ops <=? added st + 1)%Z then (Ok tt, incAdded st, w')
              else pageLoop isDerived uploadResp remoteCall convert dateMillis self
                            ops extra fields result syncTime cats rest (incAdded st) w'
          | (Throw e, w') => (Throw e, incAdded st, w')
          | (Diverge, w') => (Diverge, incAdded st, w')
          end)
  /\ (forall self fuel ops extra processed st w toProcess,
        (added st < limit ops)%Z ->
        faults w = [] ->
        let result := remoteCall (toTemplateString (get "type" (mapping ops)) ++ ".list")%string
                                 (listQuery ops processed) in
        get "result" result = VArr toProcess ->
        Forall (fun r => notNullish r = true) toProcess ->
        pagesLoop isDerived uploadResp remoteCall convert dateMillis self
                  (S fuel) ops extra processed st w
        = bindS (pageLoop isDerived uploadResp remoteCall convert dateMillis self
                          ops extra (lookupFields (mapping ops)) result (now w)
                          (findAllIn isDerived (store w) Ids.TagCategory
                                     [(["default"], CEq (VBool true))])
                          toProcess)
                (fun _ => match get "next" result with
                          | VUndefined => retS tt
                          | processed' =>
                              pagesLoop isDerived uploadResp remoteCall convert dateMillis self
                                        fuel ops extra processed'
                          end)
                (setExistingDocuments
                   (findAllIn isDerived (store w) (get "ofClass" (mapping ops))
                              (pageQuery toProcess)) st)
                (traced [EvRemote (toTemplateString (get "type" (mapping ops)) ++ ".list")%string
                                  (listQuery ops processed);
                         EvFindAll (get "ofClass" (mapping ops)) (pageQuery toProcess);
                         EvFindAll Ids.TagCategory [(["default"], CEq (VBool true))]] w))
  /\ (forall fuel ops extra w toProcess,
        strictEq (space ops) VUndefined = false ->
        strictEq (lookupFields (mapping ops)) VUndefined = false ->
        (0 < limit ops)%Z ->
        faults w = [] ->
        (forall total w0, monitor ops total w0 = emit (EvMonitor total) w0) ->
        let result := remoteCall (toTemplateString (get "type" (mapping ops)) ++ ".list")%string
                                 (listQuery ops (VNum 0)) in
        get "result" result = VArr toProcess ->
        get "next" result = VUndefined ->
        Forall (fun r => notNullish r = true) toProcess ->
        Forall (fun r =>
                  suppressed ops (now w)
                             (localOf (findAllIn isDerived (store w) (get "ofClass" (mapping ops))
                                                 (pageQuery toProcess)) r) = true)
               toProcess ->
        doPerformSync isDerived uploadResp remoteCall convert dateMillis (S fuel) ops extra w
        = (Ok [],
           traced ([EvFindAll Ids.TagElement [];
                    EvRemote (toTemplateString (get "type" (mapping ops)) ++ ".list")%string
                             (listQuery ops (VNum 0));
                    EvFindAll (get "ofClass" (mapping ops)) (pageQuery toProcess);
                    EvFindAll Ids.TagCategory [(["default"], CEq (VBool true))]]
                   ++ reported (get "total" result)
                               (firstn (Z.to_nat (limit ops)) toProcess)) w)).
Proof.
  split; [|split; [|split]].
  - intros self ops extra fields result syncTime cats r st d lastSyncedAt w w'
           Hfind Htime Hlt Hmon.
    repeat split.
    + unfold localOf in Hfind.
      unfold processRecord, bindS, getS. cbv zeta. rewrite find_findIndex, Hfind.
      unfold suppressed. rewrite Htime.
      replace (syncTime <? _)%Z with true by (symmetry; apply Z.ltb_lt; exact Hlt).
      unfold modifyS, liftS. rewrite Hmon. reflexivity.
    + intros Hprogress. rewrite Hprogress in Hmon. injection Hmon as <-. reflexivity.
  - intros self ops extra fields result syncTime cats r rest st w.
    apply pageLoop_suppressed.
  - intros self fuel ops extra processed st w toProcess. apply pagesLoop_page.
  - intros fuel ops extra w toProcess Hsp Hfields Hlim Hf Hmon result Hres Hnext Hnn Hsup.
    cbn [doPerformSync]. unfold doPerformSyncBody. rewrite Hsp, Hfields. cbn [orb].
    unfold try_catchS. unfold bindS at 1. unfold liftS at 1. rewrite query_run by exact Hf.
    unfold bindS at 1. unfold modifyS at 1.
    rewrite (@pagesLoop_page _ fuel ops extra (VNum 0) _ _ toProcess);
      [|exact Hlim | exact Hf | exact Hres | exact Hnn].
    unfold bindS at 1.
    rewrite pageLoop_all_suppressed; [|exact Hmon | exact Hlim | exact Hsup].
    fold result. rewrite Hnext. cbn [retS counted resultDocs setExistingDocuments
                                      setAllTagElements added].
    rewrite Z.sub_0_r. unfold logged, traced. cbn [store pending now nextId faults trace].
    rewrite <- !app_assoc. reflexivity.
Qed.

End Orchestration.

Lemma suppressed_records_are_counted_not_synchronised_witness :
  doPerformSync isDerived0 upload0 remotePage1 convert0 dateMillis0 1 ops0 extra0
                (world [syncedLead "L1" "1" 1999] 2000 [])
  = (Ok [],
     mkWorld [syncedLead "L1" "1" 1999] [] 2000 0 []
             [EvFindAll Ids.TagElement [];
              EvRemote "crm.lead.list" (listQuery ops0 (VNum 0));
              EvFindAll leadClass (pageQuery [record1]);
              EvFindAll Ids.TagCategory [(["default"], CEq (VBool true))];
              EvLog "LOAD:"; EvMonitor (VNum 1)]).
Proof.
  rewrite (proj2 (proj2 (proj2 (@suppressed_records_are_counted_not_synchronised
                                  isDerived0 upload0 remotePage1 convert0 dateMillis0)))
                 0 ops0 extra0 (world [syncedLead "L1" "1" 1999] 2000 []) [record1]);
    try reflexivity.
  - repeat constructor.
  - repeat constructor.
Defined.

End Suppression.


(* ================================================================= *)
(** ** Failures of the conversion and of the merge *)

Module Failures.
Import ObjFacts EmitsFacts MergeFacts NoThrowFacts SyncFacts MergeRuns Reconcile Again.
Import JsString Markup Examples MoreExamples MoreProps MergeMore SyncMore.

Lemma MergeEvent_notSleep e : MergeEvent e -> notSleep e.
Proof. intros H ms. destruct H; discriminate. Qed.

Section Orchestration.
Variable isDerived : Value -> Value -> bool.
Variable uploadResp : File -> Z * string.
Variable remoteCall : string -> Obj -> Obj.
Variable convert : ConvertInput -> M ConvertResult.
Variable dateMillis : Value -> Value.

Lemma syncDocument_AlwaysOk existing r monitor :
  (forall f x, monitor = Some f -> AlwaysOk (f x)) ->
  AlwaysOk (syncDocument isDerived uploadResp existing r monitor).
Proof.
  intros Hmon w. unfold syncDocument. unfold bind at 1.
  destruct (started_run existing r w) as ([existing' document'] & w2 & ->).
  assert (Hok : AlwaysOk (try_catch (mergeRest isDerived uploadResp existing' document' r)
                                    (fun err => emit (EvLog err)))).
  { apply AlwaysOk_try_catch; [apply mergeRest_Settles|].
    intros err w0. eexists; eexists; reflexivity. }
  unfold bind at 1. destruct (Hok w2) as ([] & w3 & ->).
  unfold bind at 1. destruct monitor as [f|].
  - destruct (Hmon f (setDocument r document') eq_refl w3) as ([] & w4 & ->).
    eexists; eexists; reflexivity.
  - eexists; eexists; reflexivity.
Qed.

(** A merge that throws is logged by [syncDocument], which then calls
    the monitor and returns as after a merge that went through. *)
Lemma syncDocument_logs_the_failure existing r f w existing' document' wm e wt :
  updateMainDoc existing r (applied w) = (Ok (existing', document'), wm) ->
  mergeRest isDerived uploadResp existing' document' r wm = (Throw e, wt) ->
  syncDocument isDerived uploadResp existing r (Some f) w
  = bind (f (setDocument r document'))
         (fun _ => ret (option_map (fun _ => existing') existing, document'))
         (logged (EvLog e) wt).
Proof.
  intros Hstart Hrest. unfold syncDocument. unfold bind at 1.
  unfold try_catch at 1. unfold bind at 1. unfold apply at 1. unfold bind at 1.
  cbn [emit setPending]. unfold applied in Hstart.
  cbn [store pending now nextId faults trace]. unfold bind at 1. rewrite Hstart. cbn [ret].
  unfold bind at 1. unfold try_catch. rewrite Hrest. cbn [emit]. reflexivity.
Qed.

Section Loop.
Variable self : SyncOptions -> SyncOptionsExtra -> M (list Doc).

Lemma lift_bind_ok {S A B C} (c1 : M A) (c2 : A -> M B) (k : B -> ST S C) s w b w2 :
  bind c1 c2 w = (Ok b, w2) ->
  bindS (liftS c1) (fun a => bindS (liftS (c2 a)) k) s w = k b s w2.
Proof.
  unfold bind, bindS, liftS. destruct (c1 w) as [[a|e1|] w1]; try discriminate.
  intros ->. reflexivity.
Qed.

(** The turn of the inner loop for a record whose conversion went
    through: the record is counted before the merge, and whatever happens
    in the merge the turn ends with the result recorded, without pause. *)
Lemma pageLoop_merged ops extra fields result syncTime cats r rest st w res w1 :
  suppressed ops syncTime (localOf (existingDocuments st) r) = false ->
  conversion remoteCall convert dateMillis ops extra fields cats (allTagElements st)
             (localOf (existingDocuments st) r) r (logged (EvLog "LOAD:") w) = (Ok res, w1) ->
  strictEq (get "type" (mapping ops)) (VStr Ids.TypeCompany) = false ->
  (forall total, AlwaysOk (monitor ops total)) ->
  (forall total, Emits notSleep (monitor ops total)) ->
  exists existing' document' w2 evs,
    syncDocument isDerived uploadResp (localOf (existingDocuments st) r) res
                 (Some (fun _ => monitor ops (get "total" result))) w1
    = (Ok (existing', document'), w2)
    /\ trace w2 = trace w1 ++ evs /\ Forall notSleep evs
    /\ let st' :=
         recordResult
           (findIndex (fun it => strictEq (bitrixIdOf it) (prop "ID" r)) (existingDocuments st))
           existing'
           (setDocument res match localOf (existingDocuments st) r with
                            | Some e => set "_id" (get "_id" e) document'
                            | None => document'
                            end)
           (incAdded st) in
       added st' = (added st + 1)%Z
       /\ resultDocs st' = resultDocs st ++ [match localOf (existingDocuments st) r with
                                             | Some e => set "_id" (get "_id" e) document'
                                             | None => document'
                                             end]
       /\ pageLoop isDerived uploadResp remoteCall convert dateMillis self
                   ops extra fields result syncTime cats (r :: rest) st w
          = if (limit ops <=? added st + 1)%Z then (Ok tt, st', w2)
            else pageLoop isDerived uploadResp remoteCall convert dateMillis self
                          ops extra fields result syncTime cats rest st' w2.
Proof.
  intros Hsupp Hconv Hty Hok Hquiet. unfold localOf in *.
  set (existingDoc := find (fun it => strictEq (bitrixIdOf it) (prop "ID" r))
                           (existingDocuments st)) in *.
  set (total := get "total" result).
  destruct (@syncDocument_AlwaysOk existingDoc res (Some (fun _ => monitor ops total))
              (fun f x E => match E in _ = y return
                                  match y with Some g => AlwaysOk (g x) | None => True end
                            with eq_refl => Hok total end) w1)
    as ([existing' document'] & w2 & Hrun).
  destruct (@syncDocument_emits isDerived uploadResp notSleep existingDoc res
              (Some (fun _ => monitor ops total)) MergeEvent_notSleep
              (fun f x E => match E in _ = y return
                                  match y with Some g => Emits notSleep (g x) | None => True end
                            with eq_refl => Hquiet total end) w1) as (evs & Ht & Hall).
  rewrite Hrun in Ht. cbn [snd] in Ht.
  exists existing', document', w2, evs. split; [exact Hrun|]. split; [exact Ht|].
  split; [exact Hall|]. cbv zeta. split; [reflexivity|]. split; [reflexivity|].
  cbn [pageLoop]. unfold bindS at 1. unfold liftS at 1. cbn [emit].
  fold (logged (EvLog "LOAD:") w).
  unfold bindS at 1. unfold processRecord. unfold bindS at 1. unfold getS at 1.
  cbv zeta. rewrite find_findIndex. fold existingDoc. rewrite Hsupp.
  unfold try_catchS. unfold conversion in Hconv.
  rewrite (@lift_bind_ok LoopState _ _ _ _ _ _ st _ _ _ Hconv).
  unfold bindS at 1. unfold modifyS at 1. unfold bindS at 1. unfold liftS at 1.
  fold total. rewrite Hrun. unfold bindS at 1. unfold modifyS at 1.
  rewrite contactsOfCompany_other by exact Hty.
  unfold bindS, liftS, getS, retS. cbn [ret recordResult added incAdded].
  destruct (limit ops <=? added st + 1)%Z; reflexivity.
Qed.

(** C7 (amended): when the conversion of a record (convert, or the comment
    download after it) raises, the loop logs, sleeps one second and goes on
    with the next record, the accepted count unchanged (first part).  When
    the conversion went through, the record is counted before the merge,
    and whatever the merge does, [syncDocument] returns: the turn ends
    with the record counted and its document recorded, no pause among its
    events, and the loop goes on or, the limit reached, is left (second
    part, for a mapping other than the company mapping and a monitor that
    returns and does not pause).  An exception raised inside the merge is
    caught by [syncDocument] itself, which logs it, calls the monitor and
    returns (third part), so it never reaches the loop (fourth part); and,
    the monitor callback not throwing, no turn of the loop ends in an
    exception (fifth part). *)
Theorem conversion_failure_backs_off_and_merge_failure_does_not :
  (forall ops extra fields result syncTime cats r rest st w e w2,
      suppressed ops syncTime (localOf (existingDocuments st) r) = false ->
      conversion remoteCall convert dateMillis ops extra fields cats (allTagElements st)
                 (localOf (existingDocuments st) r) r (logged (EvLog "LOAD:") w)
      = (Throw e, w2) ->
      pageLoop isDerived uploadResp remoteCall convert dateMillis self
               ops extra fields result syncTime cats (r :: rest) st w
      = pageLoop isDerived uploadResp remoteCall convert dateMillis self
                 ops extra fields result syncTime cats rest st (backoff w2))
  /\ (forall ops extra fields result syncTime cats r rest st w res w1,
        suppressed ops syncTime (localOf (existingDocuments st) r) = false ->
        conversion remoteCall convert dateMillis ops extra fields cats (allTagElements st)
                   (localOf (existingDocuments st) r) r (logged (EvLog "LOAD:") w)
        = (Ok res, w1) ->
        strictEq (get "type" (mapping ops)) (VStr Ids.TypeCompany) = false ->
        (forall total, AlwaysOk (monitor ops total)) ->
        (forall total, Emits notSleep (monitor ops total)) ->
        exists existing' document' w2 evs,
          syncDocument isDerived uploadResp (localOf (existingDocuments st) r) res
                       (Some (fun _ => monitor ops (get "total" result))) w1
          = (Ok (existing', document'), w2)
          /\ trace w2 = trace w1 ++ evs /\ Forall notSleep evs
          /\ let st' :=
               recordResult
                 (findIndex (fun it => strictEq (bitrixIdOf it) (prop "ID" r))
                            (existingDocuments st))
                 existing'
                 (setDocument res match localOf (existingDocuments st) r with
                                  | Some e => set "_id" (get "_id" e) document'
                                  | None => document'
                                  end)
                 (incAdded st) in
             added st' = (added st + 1)%Z
             /\ resultDocs st'
                = resultDocs st ++ [match localOf (existingDocuments st) r with
                                    | Some e => set "_id" (get "_id" e) document'
                                    | None => document'
                                    end]
             /\ pageLoop isDerived uploadResp remoteCall convert dateMillis self
                         ops extra fields result syncTime cats (r :: rest) st w
                = if (limit ops <=? added st + 1)%Z then (Ok tt, st', w2)
                  else pageLoop isDerived uploadResp remoteCall convert dateMillis self
                                ops extra fields result syncTime cats rest st' w2)
  /\ (forall existing r f w existing' document' wm e wt,
        updateMainDoc existing r (applied w) = (Ok (existing', document'), wm) ->
        mergeRest isDerived uploadResp existing' document' r wm = (Throw e, wt) ->
        syncDocument isDerived uploadResp existing r (Some f) w
        = bind (f (setDocument r document'))
               (fun _ => ret (option_map (fun _ => existing') existing, document'))
               (logged (EvLog e) wt))
  /\ (forall existing resultDoc monitor,
        (forall f r, monitor = Some f -> NoThrow (f r)) ->
        NoThrow (syncDocument isDerived uploadResp existing resultDoc monitor))
  /\ (forall ops extra fields result syncTime cats toProcess,
        (forall total, NoThrow (monitor ops total)) ->
        NoThrowS (pageLoop isDerived uploadResp remoteCall convert dateMillis self
                           ops extra fields result syncTime cats toProcess)).
Proof.
  split; [|split; [|split; [|split]]].
  - intros ops extra fields result syncTime cats r rest st w e w2 Hsupp Hconv.
    unfold localOf in *.
    cbn [pageLoop]. unfold bindS at 1. unfold liftS at 1. cbn [emit].
    fold (logged (EvLog "LOAD:") w).
    unfold bindS at 1. unfold processRecord. unfold bindS at 1. unfold getS at 1.
    cbv zeta. rewrite find_findIndex, Hsupp.
    unfold try_catchS. unfold conversion in Hconv.
    rewrite (@lift_bind_throw LoopState _ _ _ _ _ _ st _ _ _ Hconv).
    reflexivity.
  - intros ops extra fields result syncTime cats r rest st w res w1.
    apply pageLoop_merged.
  - intros existing r f w existing' document' wm e wt. apply syncDocument_logs_the_failure.
  - apply syncDocument_NoThrow.
  - apply pageLoop_NoThrowS.
Qed.

End Loop.

End Orchestration.

Lemma conversion_failure_backs_off_and_merge_failure_does_not_witness :
  pageLoop isDerived0 upload0 remote0 convertFails dateMillis0 noContacts
           ops0 extra0 (VArr []) page1 1000 [] [record1] emptyLoop (world [] 1000 [])
  = (Ok tt, emptyLoop,
     backoff (logged (EvConvert record1) (logged (EvLog "LOAD:") (world [] 1000 []))))
  /\ syncDocument isDerived0 upload0 None (converted "1" "new") (Some (fun _ => progress (VNum 1)))
                  (world [] 1000 [false; true])
     = (Ok (None, document (converted "1" "new")),
        logged (EvMonitor (VNum 1))
               (logged (EvLog "rejected")
                       (snd (mergeRest isDerived0 upload0 (document (converted "1" "new"))
                                       (document (converted "1" "new")) (converted "1" "new")
                                       (snd (updateMainDoc None (converted "1" "new")
                                                           (applied (world [] 1000 [false; true])))))))).
Proof.
  split.
  - refine (proj1 (@conversion_failure_backs_off_and_merge_failure_does_not
                     isDerived0 upload0 remote0 convertFails dateMillis0 noContacts)
                  ops0 extra0 (VArr []) page1 1000%Z [] record1 [] emptyLoop
                  (world [] 1000 []) "conversion failed" _ _ _).
    + reflexivity.
    + reflexivity.
  - rewrite (proj1 (proj2 (proj2 (@conversion_failure_backs_off_and_merge_failure_does_not
                                    isDerived0 upload0 remote0 convert0 dateMillis0 noContacts)))
                   None (converted "1" "new") (fun _ => progress (VNum 1))
                   (world [] 1000 [false; true])
                   (document (converted "1" "new")) (document (converted "1" "new"))
                   (snd (updateMainDoc None (converted "1" "new")
                                       (applied (world [] 1000 [false; true]))))
                   "rejected"
                   (snd (mergeRest isDerived0 upload0 (document (converted "1" "new"))
                                   (document (converted "1" "new")) (converted "1" "new")
                                   (snd (updateMainDoc None (converted "1" "new")
                                                       (applied (world [] 1000 [false; true]))))))).
    + reflexivity.
    + reflexivity.
    + reflexivity.
Defined.

End Failures.


(* ================================================================= *)
(** ** Pending attachments with the same name, size and type *)

Module Attachments.
Import ObjFacts DiffFacts EmitsFacts MergeFacts DiffProps SyncFacts MergeRuns Reconcile.
Import Values Again.
Import Examples MoreExamples MoreProps MergeMore.

(** *** Steps that go through when nothing is rejected *)

Lemma Smooth_ret {A} (a : A) : Smooth (ret a).
Proof.
  intros w Hf. exists a, w, []. cbn [ret filter txOps]. rewrite !app_nil_r. auto 10.
Qed.

Lemma Smooth_bind {A B} (c : M A) (k : A -> M B) :
  Smooth c -> (forall a, Smooth (k a)) -> Smooth (bind c k).
Proof.
  intros Hc Hk w Hf. unfold bind.
  destruct (Hc w Hf) as (a & w1 & evs1 & -> & Hf1 & Hn1 & Ht1 & Hu1 & Hp1 & Hs1).
  destruct (Hk a w1 Hf1) as (b & w2 & evs2 & -> & Hf2 & Hn2 & Ht2 & Hu2 & Hp2 & Hs2).
  exists b, w2, (evs1 ++ evs2). split; [reflexivity|]. split; [exact Hf2|].
  split; [congruence|]. split; [now rewrite Ht2, Ht1, app_assoc|].
  split; [now rewrite filter_app, Hu1, Hu2|].
  split; [now rewrite Hp2, Hp1, txOps_app, app_assoc | auto].
Qed.

Lemma Smooth_forEach {A} (xs : list A) (body : A -> M unit) :
  (forall x, Smooth (body x)) -> Smooth (forEach xs body).
Proof.
  intros H. induction xs as [|x xs IH]; cbn [forEach]; [apply Smooth_ret|].
  apply Smooth_bind; [apply H | intros _; exact IH].
Qed.

Lemma Smooth_dateNow : Smooth dateNow.
Proof.
  intros w Hf. exists (now w), w, []. cbn [dateNow filter txOps]. rewrite !app_nil_r. auto 10.
Qed.

Lemma Smooth_generateId : Smooth generateId.
Proof.
  intros w Hf. eexists. eexists. exists []. split; [reflexivity|].
  cbn [faults now trace pending store filter txOps]. rewrite !app_nil_r. auto 10.
Qed.

Lemma Smooth_issue op : Smooth (issue op).
Proof.
  intros w Hf. eexists. eexists. exists [EvTx op]. split; [reflexivity|].
  cbn [faults now trace pending store filter txOps MergeProps.isUpload]. auto 10.
Qed.

Lemma Smooth_findAll isDerived c q : Smooth (findAll isDerived c q).
Proof.
  intros w Hf. unfold findAll, bind, emit, roundTrip. cbn [faults]. rewrite Hf.
  eexists. eexists. exists [EvFindAll c q]. split; [reflexivity|].
  cbn [faults now trace pending store filter txOps MergeProps.isUpload getWorld ret].
  rewrite app_nil_r. auto 10.
Qed.

Lemma Smooth_remove doc : Smooth (direct (Wremove doc)).
Proof.
  intros w Hf. unfold direct, bind, emit, roundTrip. cbn [faults]. rewrite Hf.
  eexists. eexists. exists [EvDirect (Wremove doc)]. split; [reflexivity|].
  cbn [faults now trace pending store filter txOps MergeProps.isUpload getWorld setStore
       applyWrite].
  rewrite app_nil_r. repeat split; auto. intros d Hd. apply filter_In in Hd. tauto.
Qed.

Ltac smooth_step :=
  first [ apply Smooth_ret | apply Smooth_issue | apply Smooth_dateNow
        | apply Smooth_generateId | apply Smooth_findAll | apply Smooth_remove
        | apply Smooth_bind; [|intros ?] ].

Lemma updateDoc_smooth doc raw : Smooth (updateDoc doc raw).
Proof. unfold updateDoc. destruct (Nat.ltb _ _); repeat smooth_step. Qed.

Lemma updateMixin_smooth p raw mixin : Smooth (updateMixin p raw mixin).
Proof.
  unfold updateMixin. destruct (negb _); [repeat smooth_step|].
  destruct (Nat.ltb _ _); repeat smooth_step.
Qed.

Lemma updateMixins_smooth mixins existing resultDoc :
  Smooth (updateMixins mixins existing resultDoc).
Proof.
  unfold updateMixins. apply Smooth_forEach. intros [m mv].
  destruct (negb _); [repeat smooth_step | apply updateMixin_smooth].
Qed.

Lemma updateAttachedDoc_smooth existing v : Smooth (updateAttachedDoc existing v).
Proof.
  unfold updateAttachedDoc. destruct existing as [e|].
  - apply Smooth_bind; [apply updateDoc_smooth|]. intros e'.
    apply Smooth_bind; [apply updateMixin_smooth|]. intros _. apply Smooth_ret.
  - repeat smooth_step.
Qed.

Lemma createDoc_smooth c sp attrs id mo mb : Smooth (createDoc c sp attrs id mo mb).
Proof.
  unfold createDoc. apply Smooth_bind; [destruct id; repeat smooth_step|].
  intros id'. repeat smooth_step.
Qed.

Lemma updateMainDoc_smooth existing resultDoc : Smooth (updateMainDoc existing resultDoc).
Proof.
  unfold updateMainDoc. destruct existing as [e|].
  - apply Smooth_bind; [apply updateDoc_smooth|]. intros e'. apply Smooth_ret.
  - apply Smooth_bind; [apply createDoc_smooth|]. intros id. apply Smooth_ret.
Qed.

Section Engine.
Variable isDerived : Value -> Value -> bool.
Variable uploadResp : File -> Z * string.

Lemma reconcileClass_smooth documentId entry :
  Smooth (reconcileClass isDerived documentId entry).
Proof.
  destruct entry as [cl vals]. unfold reconcileClass.
  destruct (isDerived cl Ids.AttachedDoc); [|apply Smooth_ret].
  apply Smooth_bind; [apply Smooth_findAll|]. intros pool.
  apply Smooth_bind.
  - revert pool. induction vals as [|v vals IH]; intros pool; cbn [reconcileVals];
      [apply Smooth_ret|].
    destruct (findIndex _ _) as [i|];
      (apply Smooth_bind; [apply updateAttachedDoc_smooth | intros _; apply IH]).
  - intros left. apply Smooth_forEach. intros d. apply Smooth_remove.
Qed.

Lemma beforeBlobs_smooth existing document resultDoc :
  Smooth (beforeBlobs isDerived existing document resultDoc).
Proof.
  unfold beforeBlobs. apply Smooth_bind; [apply Smooth_dateNow|]. intros syncTime.
  apply Smooth_bind; [apply updateMixins_smooth|]. intros _.
  apply Smooth_bind.
  { apply Smooth_forEach. intros ed.
    apply Smooth_bind; [apply createDoc_smooth | intros _; apply Smooth_ret]. }
  intros _. apply Smooth_forEach. intros entry. apply reconcileClass_smooth.
Qed.

Lemma mergeRest_split existing document resultDoc w :
  mergeRest isDerived uploadResp existing document resultDoc w
  = bind (beforeBlobs isDerived existing document resultDoc)
         (fun _ =>
            existingBlobs <- findAll isDerived Ids.Attachment
                                     [(["attachedTo"], CEq (get "_id" document))] ;;
            syncBlobs uploadResp existingBlobs (blobs resultDoc) ;;
            commit) w.
Proof.
  unfold mergeRest, beforeBlobs.
  rewrite bind_bind. apply bind_ext. intros syncTime w1.
  rewrite bind_bind. apply bind_ext. intros [] w2.
  rewrite bind_bind. apply bind_ext. intros [] w3. reflexivity.
Qed.

Lemma updateMainDoc_parent existing resultDoc w existing' document' wm :
  updateMainDoc existing resultDoc (applied w) = (Ok (existing', document'), wm) ->
  get "_id" document' = parentOf existing resultDoc w.
Proof.
  unfold updateMainDoc, parentOf. destruct existing as [e|].
  - unfold bind. rewrite updateDoc_run. cbv zeta.
    destruct (Nat.ltb _ _); cbn [ret]; intros [= _ <- _]; apply get_set_same.
  - unfold bind, createDoc, bind.
    destruct (get "_id" (document resultDoc)) eqn:Hid; cbn [generateId ret issue bind emit];
      intros [= _ <- _]; rewrite get_set_same; reflexivity.
Qed.

Lemma txOps_tx ops : txOps (map EvTx ops) = ops.
Proof. induction ops as [|op ops IH]; cbn; [reflexivity | now rewrite IH]. Qed.

Lemma creation_result v st :
  fold_left applyWrite (creation v) st
  = onDoc (get "_id" v) (withTrait v) (st ++ [attachedRecord v]).
Proof. reflexivity. Qed.

Lemma attachedRecord_facts v :
  get "attachedTo" (attachedRecord v) = get "attachedTo" v
  /\ get "collection" (attachedRecord v) = get "collection" v
  /\ idOf (attachedRecord v) = get "_id" v.
Proof.
  unfold attachedRecord, idOf, newDoc. repeat split;
    repeat first [rewrite get_set_same | rewrite get_set_other by discriminate]; reflexivity.
Qed.

Lemma syncBlobs_two_uploads existingBlobs b1 b2 f1 f2 uuid1 uuid2 s p t n tr :
  (forall e, In e existingBlobs ->
             strictEq (bitrixIdOf e) (get "bitrixId" (b_ed b1)) = false /\
             strictEq (bitrixIdOf e) (get "bitrixId" (b_ed b2)) = false) ->
  b_op b1 t = Some f1 -> b_op b2 t = Some f2 ->
  (forall e, In e existingBlobs ->
             sameFile e (finalized b1 f1) = false /\ sameFile e (finalized b2 f2) = false) ->
  uploadResp f1 = (200%Z, uuid1) -> uploadResp f2 = (200%Z, uuid2) ->
  let new1 := uploaded (finalized b1 f1) uuid1 (generated n) in
  let new2 := uploaded (finalized b2 f2) uuid2 (generated (S n)) in
  syncBlobs uploadResp existingBlobs [b1; b2] (mkWorld s p t n [] tr)
  = (Ok tt,
     mkWorld s (p ++ creation new1 ++ creation new2) t (S (S n)) []
             (tr ++ [EvFetchBlob (b_ed b1); EvUpload f1] ++ map EvTx (creation new1)
                 ++ [EvFetchBlob (b_ed b2); EvUpload f2] ++ map EvTx (creation new2))).
Proof.
  intros Hid Hop1 Hop2 Hsame Hup1 Hup2 new1 new2.
  cbn [syncBlobs]. unfold bind at 1.
  rewrite (@syncBlob_upload_run uploadResp existingBlobs b1 f1 uuid1 s p t n tr);
    try assumption; try (intros e He; apply (Hid e He)); try (intros e He; apply (Hsame e He)).
  unfold bind at 1.
  rewrite (@syncBlob_upload_run uploadResp existingBlobs b2 f2 uuid2);
    try assumption; try (intros e He; apply (Hid e He)); try (intros e He; apply (Hsame e He)).
  cbn [ret]. fold new1 new2. rewrite <- !app_assoc. reflexivity.
Qed.

(** The merge of a conversion result with two pending attachments that
    match nothing the parent has. *)
Lemma syncDocument_two_uploads existing resultDoc b1 b2 f1 f2 uuid1 uuid2 w :
  blobs resultDoc = [b1; b2] ->
  faults w = [] ->
  (forall e, In e (attachmentsOf isDerived (store w) (parentOf existing resultDoc w)) ->
             strictEq (bitrixIdOf e) (get "bitrixId" (b_ed b1)) = false
             /\ strictEq (bitrixIdOf e) (get "bitrixId" (b_ed b2)) = false
             /\ sameFile e (finalized b1 f1) = false
             /\ sameFile e (finalized b2 f2) = false) ->
  b_op b1 (now w) = Some f1 -> b_op b2 (now w) = Some f2 ->
  uploadResp f1 = (200%Z, uuid1) -> uploadResp f2 = (200%Z, uuid2) ->
  exists res w' n kept earlier,
    syncDocument isDerived uploadResp existing resultDoc None w = (Ok res, w')
    /\ filter isUpload (newEvents w w') = [EvUpload f1; EvUpload f2]
    /\ (forall d, In d kept -> In d (store w))
    /\ pending w' = []
    /\ store w'
       = fold_left applyWrite
                   (creation (uploaded (finalized b1 f1) uuid1 (generated n))
                    ++ creation (uploaded (finalized b2 f2) uuid2 (generated (S n))))
                   (fold_left applyWrite earlier kept).
Proof.
  intros Hblobs Hf Hnone Hop1 Hop2 Hup1 Hup2.
  unfold syncDocument. unfold bind at 1. unfold try_catch at 1. unfold bind at 1.
  unfold apply at 1. unfold bind at 1. cbn [emit setPending].
  cbn [store pending now nextId faults trace]. fold (applied w).
  destruct (@updateMainDoc_smooth existing resultDoc (applied w) Hf)
    as ([existing' document'] & wm & evs0 & Hrun0 & Hf0 & Hn0 & Ht0 & Hu0 & Hp0 & Hs0).
  pose proof (updateMainDoc_parent _ _ _ Hrun0) as Hparent.
  unfold bind at 1. rewrite Hrun0. cbn [ret].
  unfold bind at 1. unfold try_catch. rewrite mergeRest_split.
  unfold bind at 1.
  destruct (@beforeBlobs_smooth existing' document' resultDoc wm Hf0)
    as ([] & wa & evs1 & Hrun1 & Hf1 & Hn1 & Ht1 & Hu1 & Hp1 & Hs1).
  rewrite Hrun1. unfold bind at 1.
  unfold findAll at 1. unfold bind at 1. cbn [emit]. unfold bind at 1. unfold roundTrip.
  cbn [faults]. rewrite Hf1. cbn [ret]. unfold bind at 1. cbn [getWorld store ret].
  rewrite Hblobs. rewrite Hparent.
  destruct wa as [sa pa ta na fa tra]. cbn [store pending now nextId faults trace] in *.
  subst fa.
  assert (Hin : forall e, In e (findAllIn isDerived sa Ids.Attachment
                                          [(["attachedTo"], CEq (parentOf existing resultDoc w))])
                          -> In e (attachmentsOf isDerived (store w)
                                                 (parentOf existing resultDoc w))).
  { intros e He. apply filter_In in He as [He Hq]. apply filter_In. split; [|exact Hq].
    apply Hs0 in He || (apply Hs1 in He; apply Hs0 in He). exact He. }
  assert (Ht : ta = now w) by (rewrite Hn1, Hn0; reflexivity).
  unfold bind at 1.
  rewrite (@syncBlobs_two_uploads _ b1 b2 f1 f2 uuid1 uuid2 sa pa ta na);
    [| intros e He; destruct (Hnone e (Hin e He)) as (H1 & H2 & _); now split
     | now rewrite Ht | now rewrite Ht
     | intros e He; destruct (Hnone e (Hin e He)) as (_ & _ & H3 & H4); now split
     | exact Hup1 | exact Hup2].
  unfold commit. unfold bind at 1. cbn [emit]. unfold bind at 1. unfold roundTrip.
  cbn [faults store pending now nextId trace]. unfold bind at 1. cbn [getWorld].
  unfold bind at 1. cbn [setStore setPending store pending now nextId faults trace].
  unfold bind. cbn [ret].
  eexists. eexists. exists na, sa, pa. split; [reflexivity|].
  split.
  { erewrite newEvents_app.
    2:{ cbn [trace]. rewrite Ht1, Ht0. cbn [applied trace]. rewrite <- !app_assoc.
        reflexivity. }
    rewrite !filter_app, Hu0, Hu1. cbn [filter isUpload app].
    rewrite ?filter_app, !isUpload_tx. cbn [filter isUpload app]. reflexivity. }
  split.
  { intros d Hd. apply Hs1 in Hd. apply Hs0 in Hd. exact Hd. }
  split; [reflexivity|].
  cbn [store]. rewrite <- fold_left_app. f_equal.
Qed.

(** C6 (amended): two pending binary attachments, neither matching an
    attachment the parent has, by remote id or by (name, size, type), are
    both fetched, both uploaded and both recorded, also when the two are
    identical in (name, size, type); the scan for an existing attachment
    with the same (name, size, type) only sees the attachments that
    existed before the merge.  For the loop over the pending attachments
    (first part): two fetches, two uploads, and the creation of two
    attachment records handed to the transaction.  For the whole merge,
    both fetches answering a file, the blob endpoint answering both uploads
    with status 200 and no round trip being rejected (second part): the
    merge returns, exactly these two uploads occur, and the commit leaves
    in the store, after the earlier writes of the merge, the two new
    attachment records, each with its sync trait (third part), attached to
    the parent its descriptor names (fourth part): two documents more. *)
Theorem pending_attachments_are_each_uploaded :
  (forall existingBlobs b1 b2 f1 f2 uuid1 uuid2 s p t n tr,
      (forall e, In e existingBlobs ->
                 strictEq (bitrixIdOf e) (get "bitrixId" (b_ed b1)) = false /\
                 strictEq (bitrixIdOf e) (get "bitrixId" (b_ed b2)) = false) ->
      b_op b1 t = Some f1 -> b_op b2 t = Some f2 ->
      (forall e, In e existingBlobs ->
                 sameFile e (finalized b1 f1) = false /\ sameFile e (finalized b2 f2) = false) ->
      uploadResp f1 = (200%Z, uuid1) -> uploadResp f2 = (200%Z, uuid2) ->
      let new1 := uploaded (finalized b1 f1) uuid1 (generated n) in
      let new2 := uploaded (finalized b2 f2) uuid2 (generated (S n)) in
      syncBlobs uploadResp existingBlobs [b1; b2] (mkWorld s p t n [] tr)
      = (Ok tt,
         mkWorld s (p ++ creation new1 ++ creation new2) t (S (S n)) []
                 (tr ++ [EvFetchBlob (b_ed b1); EvUpload f1] ++ map EvTx (creation new1)
                     ++ [EvFetchBlob (b_ed b2); EvUpload f2] ++ map EvTx (creation new2))))
  /\ (forall existing resultDoc b1 b2 f1 f2 uuid1 uuid2 w,
        blobs resultDoc = [b1; b2] ->
        faults w = [] ->
        (forall e, In e (attachmentsOf isDerived (store w) (parentOf existing resultDoc w)) ->
                   strictEq (bitrixIdOf e) (get "bitrixId" (b_ed b1)) = false
                   /\ strictEq (bitrixIdOf e) (get "bitrixId" (b_ed b2)) = false
                   /\ sameFile e (finalized b1 f1) = false
                   /\ sameFile e (finalized b2 f2) = false) ->
        b_op b1 (now w) = Some f1 -> b_op b2 (now w) = Some f2 ->
        uploadResp f1 = (200%Z, uuid1) -> uploadResp f2 = (200%Z, uuid2) ->
        exists res w' n kept earlier,
          syncDocument isDerived uploadResp existing resultDoc None w = (Ok res, w')
          /\ filter isUpload (newEvents w w') = [EvUpload f1; EvUpload f2]
          /\ (forall d, In d kept -> In d (store w))
          /\ pending w' = []
          /\ store w'
             = fold_left applyWrite
                         (creation (uploaded (finalized b1 f1) uuid1 (generated n))
                          ++ creation (uploaded (finalized b2 f2) uuid2 (generated (S n))))
                         (fold_left applyWrite earlier kept))
  /\ (forall v1 v2 st,
        fold_left applyWrite (creation v1 ++ creation v2) st
        = onDoc (get "_id" v2) (withTrait v2)
                (onDoc (get "_id" v1) (withTrait v1) (st ++ [attachedRecord v1])
                 ++ [attachedRecord v2])
        /\ List.length (fold_left applyWrite (creation v1 ++ creation v2) st)
           = List.length st + 2)
  /\ (forall v, get "attachedTo" (attachedRecord v) = get "attachedTo" v
                /\ get "collection" (attachedRecord v) = get "collection" v
                /\ idOf (attachedRecord v) = get "_id" v).
Proof.
  split; [|split; [|split]].
  - intros existingBlobs b1 b2 f1 f2 uuid1 uuid2 s p t n tr. apply syncBlobs_two_uploads.
  - intros existing resultDoc b1 b2 f1 f2 uuid1 uuid2 w. apply syncDocument_two_uploads.
  - intros v1 v2 st. split.
    + rewrite fold_left_app, !creation_result. reflexivity.
    + rewrite fold_left_app, !creation_adds_one. lia.
  - exact attachedRecord_facts.
Qed.

End Engine.

Lemma pending_attachments_are_each_uploaded_witness :
  exists res w',
    syncDocument isDerived0 upload0 (Some (lead "P" "old")) twoAttachments None
                 (world [lead "P" "old"] 1000 []) = (Ok res, w')
    /\ filter isUpload (newEvents (world [lead "P" "old"] 1000 []) w')
       = [EvUpload report; EvUpload report].
Proof.
  destruct (proj1 (proj2 (@pending_attachments_are_each_uploaded isDerived0 upload0))
                  (Some (lead "P" "old")) twoAttachments
                  (pendingAttachment "a1" "attach-1" "P") (pendingAttachment "a2" "attach-2" "P")
                  report report "blob" "blob" (world [lead "P" "old"] 1000 [])
                  eq_refl eq_refl (fun e H => match H with end)
                  eq_refl eq_refl eq_refl eq_refl)
    as (res & w' & n & kept & earlier & Hrun & Hup & _).
  exists res, w'. split; [exact Hrun | exact Hup].
Defined.

End Attachments.
